(** * ImageVideoUploadServer: the ingestion core of [server.js]

    A shallow embedding of the chunk receiver, the manifest store, the
    assembler, the hash deduper and the serial allocator of [src/server.js],
    with the properties of the specification stated over it.

    Modelling conventions.
    - A directory is a finite map from entry names to nodes.  [uploadDir],
      [tmpUploadDir], [chunkDir] and [manifestDir] are four such maps; a path
      [path.join(dir, name)] is the key [name] of that directory's map.  This
      presupposes that owner names and upload ids carry no path separator.
      The four directories exist (the server creates them at start-up).
    - A JavaScript string is the [string] of its UTF-8 bytes, the form it has
      on the wire and in the file system.  [trim] and [parseInt] know the
      white space and the line terminators of ECMAScript, [toLowerCase] the
      letters that can spell an ASCII word.
    - Integers produced by [parseInt] are exact ([Z]), which is what
      JavaScript computes below 2^53; [NaN] and [null] are explicit.
    - [Date.now()], [crypto.randomUUID()] and [Math.random()] are inputs.
    - SHA-256 and [path.extname] belong to the Node platform and are taken as
      parameters ([platform]).
    - A handler runs from request to answer without interleaving; of the
      file-system failures only those the code itself tests for are present
      (an existing marker, a missing chunk, a move that cannot be done). *)

From Stdlib Require Import ZArith NArith Ascii String DecimalString DecimalZ DecimalN.
From Stdlib.Strings Require Import Byte.
From stdpp Require Import base option list gmap strings.

Local Open Scope Z_scope.

(** ** Strings *)

Definition lower_ascii (c : ascii) : ascii :=
  let n := nat_of_ascii c in
  if ((65 <=? n)%nat && (n <=? 90)%nat)%bool then ascii_of_nat (n + 32) else c.

(** [String.prototype.toLowerCase].  Besides [A]-[Z] it maps U+212A KELVIN
    SIGN (bytes E2 84 AA) to [k] and U+0130 (bytes C4 B0) to [i] followed by
    U+0307 (bytes CC 87): these are the code points outside ASCII whose lower
    case holds an ASCII letter.  Other code points are kept as they are; the
    server only ever compares the result with an ASCII word, which the lower
    case of no other code point can help to spell. *)
Fixpoint toLowerCase (s : string) : string :=
  match s with
  | EmptyString => EmptyString
  | String c r =>
      match r with
      | String c2 r2 =>
          if (Ascii.eqb c "196" && Ascii.eqb c2 "176")%bool
          then String "i" (String "204" (String "135" (toLowerCase r2)))
          else
            match r2 with
            | String c3 r3 =>
                if (Ascii.eqb c "226" && Ascii.eqb c2 "132" && Ascii.eqb c3 "170")%bool
                then String "k" (toLowerCase r3)
                else String (lower_ascii c) (toLowerCase r)
            | EmptyString => String (lower_ascii c) (toLowerCase r)
            end
      | EmptyString => String (lower_ascii c) (toLowerCase r)
      end
  end.

(** [s.slice(n)] for [0 <= n]. *)
Fixpoint slice_from (n : nat) (s : string) : string :=
  match n, s with
  | O, _ => s
  | S k, EmptyString => EmptyString
  | S k, String _ r => slice_from k r
  end.

(** [nm.startsWith(p)]. *)
Definition startsWith (nm p : string) : bool := String.prefix p nm.

(** [String(n)] for a non-negative integer. *)
Definition String_of_N (n : N) : string := NilZero.string_of_uint (N.to_uint n).

(** [s.padStart(4, '0')]. *)
Definition padStart4 (s : string) : string :=
  String.concat "" (replicate (4 - String.length s)%nat "0") +:+ s.

(** ** Directory entries *)

Inductive node : Type :=
  | NFile (data : list byte) (mtimeMs : Z)
  | NDir (mtimeMs : Z).

Definition node_mtime (x : node) : Z :=
  match x with NFile _ t => t | NDir t => t end.

(** [fs.promises.readdir]: the entry names, in whatever order. *)
Definition readdir (d : gmap string node) : list string := (map_to_list d).*1.

(** [rmrf]: recursive forced removal, never fails. *)
Definition rmrf (p : string) (d : gmap string node) : gmap string node := delete p d.

(** ** Serial reservation via lock directory *)

Definition serialTag (prefix : string) (n : N) : string :=
  prefix +:+ "-" +:+ padStart4 (String_of_N n).

Record serial_paths : Type := {
  baseNoExt : string;
  lockDir : string;
  finalPath : string;
  tag : string;
}.

Definition serialPaths (name prefix : string) (n : N) (ext : string) : serial_paths :=
  let tag := serialTag prefix n in
  let baseNoExt := name +:+ "_" +:+ tag in
  {| baseNoExt := baseNoExt;
     lockDir := baseNoExt +:+ ".lock";
     finalPath := baseNoExt +:+ ext;
     tag := tag |}.

(** The body of the [for (const nm of names)] loop of [isRealSerialUsed]:
    does the entry [nm] make the loop return [true]? *)
Definition nameUsesSerial (prefix nm : string) : bool :=
  if String.eqb nm prefix then true
  else if negb (startsWith nm (prefix +:+ ".")) then false
  else
    let ext := toLowerCase (slice_from (String.length prefix + 1) nm) in
    if (String.eqb ext "lock" || String.eqb ext "serial")%bool then false
    else true.

Definition isRealSerialUsed (d : gmap string node) (baseNoExt : string) : bool :=
  existsb (nameUsesSerial baseNoExt) (readdir d).

(** [LOCK_TTL]'s default, ten minutes in milliseconds. *)
Definition LOCK_TTL_DEFAULT : Z := 10 * 60 * 1000.

(** [tryRemoveStaleLock]: [stat] the marker; when it is older than the
    threshold remove it and answer [true]; a failing [stat] answers [false]. *)
Definition tryRemoveStaleLock (ttl now : Z) (lockDir : string)
    (d : gmap string node) : gmap string node * bool :=
  match d !! lockDir with
  | Some st =>
      if ttl <? now - node_mtime st then (rmrf lockDir d, true) else (d, false)
  | None => (d, false)
  end.

Inductive mkdir_result : Type :=
  | MkdirOk (d : gmap string node)
  | MkdirEEXIST.

(** [fs.promises.mkdir(p)] (not recursive) inside an existing directory. *)
Definition mkdir (now : Z) (p : string) (d : gmap string node) : mkdir_result :=
  match d !! p with
  | Some _ => MkdirEEXIST
  | None => MkdirOk (<[p := NDir now]> d)
  end.

Record reservation : Type := {
  res_finalPath : string;
  res_lockDir : string;
  res_n : N;
}.

Definition prefixOf (isVideo : bool) : string := if isVideo then "VID" else "IMG".

(** One iteration of the [for] loop of [reserveSerialPath] at candidate [n]:
    [inr r] is [return r], [inl d'] is [continue] with the directory as the
    iteration left it. *)
Definition probe (ttl : Z) (clock : N → Z) (name : string) (isVideo : bool)
    (ext : string) (n : N) (d : gmap string node)
    : gmap string node + (gmap string node * reservation) :=
  let sp := serialPaths name (prefixOf isVideo) n ext in
  if isRealSerialUsed d (baseNoExt sp) then inl d
  else
    match mkdir (clock n) (lockDir sp) d with
    | MkdirEEXIST =>
        let '(d1, removed) := tryRemoveStaleLock ttl (clock n) (lockDir sp) d in
        inl d1
    | MkdirOk d1 =>
        if isRealSerialUsed d1 (baseNoExt sp) then inl (rmrf (lockDir sp) d1)
        else inr (d1, {| res_finalPath := finalPath sp;
                         res_lockDir := lockDir sp;
                         res_n := n |})
    end.

(** The bound of the loop, [1e6]. *)
Definition MAX_SERIAL : N := 1000000.

(** [for (let n = ...; n < 1e6; n++)] with [left] iterations still allowed;
    [None] is the [throw new Error('Could not allocate unique serial')]. *)
Fixpoint reserveLoop (ttl : Z) (clock : N → Z) (name : string) (isVideo : bool)
    (ext : string) (left : nat) (n : N) (d : gmap string node)
    : gmap string node * option reservation :=
  match left with
  | O => (d, None)
  | S left' =>
      match probe ttl clock name isVideo ext n d with
      | inr (d1, r) => (d1, Some r)
      | inl d1 => reserveLoop ttl clock name isVideo ext left' (n + 1)%N d1
      end
  end.

Definition reserveSerialPath (ttl : Z) (clock : N → Z) (d : gmap string node)
    (name : string) (isVideo : bool) (ext : string)
    : gmap string node * option reservation :=
  reserveLoop ttl clock name isVideo ext (N.to_nat MAX_SERIAL) 0%N d.

(** The number of candidates the loop examines, by the same recursion. *)
Fixpoint probeCount (ttl : Z) (clock : N → Z) (name : string) (isVideo : bool)
    (ext : string) (left : nat) (n : N) (d : gmap string node) : nat :=
  match left with
  | O => O
  | S left' =>
      match probe ttl clock name isVideo ext n d with
      | inr _ => 1%nat
      | inl d1 => S (probeCount ttl clock name isVideo ext left' (n + 1)%N d1)
      end
  end.

(** ** JavaScript values at the request boundary *)

(** A JavaScript number as the handlers see it: [NaN] or an integer. *)
Inductive jsnum : Type :=
  | JNaN
  | JInt (z : Z).

Global Instance jsnum_eq_dec : EqDecision jsnum.
Proof. solve_decision. Defined.

(** A JSON array element of [received]: [null] or a number. *)
Inductive jsval : Type :=
  | VNull
  | VNum (x : jsnum).

Global Instance jsval_eq_dec : EqDecision jsval.
Proof. solve_decision. Defined.

(** Template-literal rendering [`${x}`] of a number: its decimal digits, for
    the integers below 2^53 in magnitude, which JavaScript holds exactly. *)
Definition String_of_jsnum (x : jsnum) : string :=
  match x with
  | JNaN => "NaN"
  | JInt z => NilZero.string_of_int (Z.to_int z)
  end.

(** The white space and the line terminators of ECMAScript, which [trim]
    strips and [parseInt] skips, by the length of their UTF-8 form.  One
    byte: U+0009 to U+000D and U+0020. *)
Definition is_space (c : ascii) : bool :=
  let n := nat_of_ascii c in
  ((n =? 32)%nat || ((9 <=? n)%nat && (n <=? 13)%nat))%bool.

(** Two bytes: U+00A0 (C2 A0). *)
Definition is_space2 (c1 c2 : ascii) : bool :=
  ((nat_of_ascii c1 =? 194)%nat && (nat_of_ascii c2 =? 160)%nat)%bool.

(** Three bytes: U+1680 (E1 9A 80), U+2000 to U+200A, U+2028, U+2029 and
    U+202F (E2 80 80 to 8A, A8, A9, AF), U+205F (E2 81 9F), U+3000 (E3 80 80)
    and U+FEFF (EF BB BF). *)
Definition is_space3 (c1 c2 c3 : ascii) : bool :=
  let a := nat_of_ascii c1 in
  let b := nat_of_ascii c2 in
  let c := nat_of_ascii c3 in
  (((a =? 225) && (b =? 154) && (c =? 128))
   || ((a =? 226) && (b =? 128)
       && (((128 <=? c) && (c <=? 138)) || (c =? 168) || (c =? 169) || (c =? 175)))
   || ((a =? 226) && (b =? 129) && (c =? 159))
   || ((a =? 227) && (b =? 128) && (c =? 128))
   || ((a =? 239) && (b =? 187) && (c =? 191)))%nat%bool.

(** [String.prototype.trimStart]. *)
Fixpoint trimStart (s : string) : string :=
  match s with
  | EmptyString => EmptyString
  | String c r =>
      if is_space c then trimStart r
      else
        match r with
        | String c2 r2 =>
            if is_space2 c c2 then trimStart r2
            else
              match r2 with
              | String c3 r3 => if is_space3 c c2 c3 then trimStart r3 else s
              | EmptyString => s
              end
        | EmptyString => s
        end
  end.

(** Is [s] white space from end to end? *)
Fixpoint allSpace (s : string) : bool :=
  match s with
  | EmptyString => true
  | String c r =>
      if is_space c then allSpace r
      else
        match r with
        | String c2 r2 =>
            if is_space2 c c2 then allSpace r2
            else
              match r2 with
              | String c3 r3 => (is_space3 c c2 c3 && allSpace r3)%bool
              | EmptyString => false
              end
        | EmptyString => false
        end
  end.

(** [String.prototype.trimEnd]: the string up to where only white space
    follows. *)
Fixpoint trimEnd (s : string) : string :=
  match s with
  | EmptyString => EmptyString
  | String c r => if allSpace s then EmptyString else String c (trimEnd r)
  end.

(** [String.prototype.trim]. *)
Definition trim (s : string) : string := trimEnd (trimStart s).

Definition digit_of (c : ascii) : option Z :=
  let n := nat_of_ascii c in
  if ((48 <=? n)%nat && (n <=? 57)%nat)%bool then Some (Z.of_nat (n - 48)) else None.

(** The longest run of decimal digits at the head of [s], folded into [acc];
    [seen] records whether any digit was read. *)
Fixpoint parse_digits (s : string) (seen : bool) (acc : Z) : option Z :=
  match s with
  | EmptyString => if seen then Some acc else None
  | String c r =>
      match digit_of c with
      | Some v => parse_digits r true (10 * acc + v)
      | None => if seen then Some acc else None
      end
  end.

(** [parseInt(s, 10)]: white space, a sign, the longest run of digits; exact
    below 2^53 in magnitude (beyond, JavaScript rounds to a double). *)
Definition parseInt10 (s : string) : jsnum :=
  match trimStart s with
  | String "-" r => match parse_digits r false 0 with Some v => JInt (- v) | None => JNaN end
  | String "+" r => match parse_digits r false 0 with Some v => JInt v | None => JNaN end
  | r => match parse_digits r false 0 with Some v => JInt v | None => JNaN end
  end.

(** [parseInt(process.env.LOCK_TTL_MS || '', 10) || 10 * 60 * 1000]. *)
Definition LOCK_TTL_of (envvar : string) : Z :=
  match parseInt10 envvar with
  | JInt z => if z =? 0 then LOCK_TTL_DEFAULT else z
  | JNaN => LOCK_TTL_DEFAULT
  end.

(** JavaScript truthiness of a possibly-null string. *)
Definition truthy (s : option string) : bool :=
  match s with
  | Some EmptyString => false
  | Some _ => true
  | None => false
  end.

(** What the expression [users[key]] can be when it is truthy.  [users] is a
    plain object: besides its own properties, the rows of the CSV, every key
    of [Object.prototype] answers, with a method or, under [__proto__], with
    the prototype itself. *)
Inductive userval : Type :=
  | UName (fullName : string)
  | UMethod (name : string)
  | UPrototype.

(** The methods of [Object.prototype], by key and by the name of the
    function found there. *)
Definition objectPrototypeMethods : list (string * string) :=
  [("constructor", "Object");
   ("__defineGetter__", "__defineGetter__");
   ("__defineSetter__", "__defineSetter__");
   ("hasOwnProperty", "hasOwnProperty");
   ("__lookupGetter__", "__lookupGetter__");
   ("__lookupSetter__", "__lookupSetter__");
   ("isPrototypeOf", "isPrototypeOf");
   ("propertyIsEnumerable", "propertyIsEnumerable");
   ("toString", "toString");
   ("valueOf", "valueOf");
   ("toLocaleString", "toLocaleString")].

Fixpoint assocMethod (key : string) (l : list (string * string)) : option string :=
  match l with
  | [] => None
  | (k, f) :: l' => if String.eqb key k then Some f else assocMethod key l'
  end.

(** [users[key]] under a truthiness test; [users] holds the own properties.
    An own property hides an inherited one, also when it is the empty
    string; [__proto__] is never an own property (assigning a string to it
    does nothing). *)
Definition getUser (users : gmap string string) (key : string) : option userval :=
  if String.eqb key "__proto__" then Some UPrototype
  else
    match users !! key with
    | Some EmptyString => None
    | Some nm => Some (UName nm)
    | None => UMethod <$> assocMethod key objectPrototypeMethods
    end.

(** The string a template literal makes of the value: this is how the owner
    enters a file name. *)
Definition userText (v : userval) : string :=
  match v with
  | UName nm => nm
  | UMethod f => "function " +:+ f +:+ "() { [native code] }"
  | UPrototype => "[object Object]"
  end.

(** The owner lookup [users[authKey]]: nothing when the value is falsy, else
    the value, held as the text above. *)
Definition lookupUser (users : gmap string string) (authKey : string) : option string :=
  userText <$> getUser users authKey.

(** ** Platform and environment *)

Record platform : Type := {
  sha256hex : list byte → string;
  extname : string → string;
}.

Record env : Type := {
  now : Z;                     (* Date.now() *)
  clock : N → Z;               (* Date.now() while candidate n is probed *)
  isoTime : string;            (* new Date().toISOString() *)
  uuid : string;               (* crypto.randomUUID() *)
  inflightName : nat → string; (* the staging name drawn for the k-th part *)
  stageName : nat → string;    (* the temp name drawn for the k-th part *)
  lockTtl : Z;                 (* LOCK_TTL *)
  readAhead : nat;             (* parts the multipart parser still hands over
                                  after a file part that is left unread *)
}.

(** ** Manifests, log and server state *)

Record manifest : Type := {
  m_uploadId : string;
  m_filename : option string;
  m_totalChunks : option Z;
  m_isVideo : bool;
  m_received : option (list (option Z));
  m_mtime : Z;
}.

(** What a file of [manifestDir] holds: JSON of manifest shape, or text that
    [JSON.parse] rejects. *)
Inductive mfile : Type :=
  | MJson (m : manifest)
  | MCorrupt.

Record log_entry : Type := {
  e_authKey : string;
  e_fullName : string;       (* the owner, as [lookupUser] holds it *)
  e_originalName : string;
  e_savedName : string;
  e_timestamp : string;
  e_hash : string;
  e_deduped : bool;
}.

Record world : Type := {
  uploads : gmap string node;            (* uploadDir *)
  tmpFiles : gmap string (list byte);    (* tmpUploadDir *)
  chunkFiles : gmap string (list byte);  (* chunkDir *)
  manifests : gmap string mfile;         (* manifestDir *)
  hashIndex : gmap string string;        (* sha256 -> savedName *)
  uploadLog : list log_entry;            (* in memory *)
  logFile : list log_entry;              (* as last written to disk *)
}.

Inductive response : Type :=
  | RNoAnswer                       (* the handler never replies *)
  | RError (status : Z) (error : string)
  | RStatus (received : list (option Z))
  | RChunkOk (index : option Z)
  | RDeduped (existing : string)
  | RSaved (savedAs sha256 : string)
  | RFiles (files : list string).

(** [getChunkPath] and [getManifestPath]: the entry name inside [chunkDir]
    and [manifestDir].  For an id without a path separator [path.join] has
    nothing to resolve and the name is the template's text. *)
Definition getChunkPath (uploadId : string) (index : jsnum) : string :=
  uploadId +:+ "_chunk_" +:+ String_of_jsnum index.

Definition getManifestPath (id : string) : string := id +:+ ".json".

(** [fs.promises.rename(src, dst)] inside one directory of plain files;
    [None] when [src] does not exist. *)
Definition rename_file {A} (src dst : string) (d : gmap string A) : option (gmap string A) :=
  match d !! src with
  | Some v => Some (<[dst := v]> (delete src d))
  | None => None
  end.

(** [writeJsonAtomic]: write [file.tmp], then rename it over [file]. *)
Definition writeJsonAtomic {A} (file : string) (obj : A) (d : gmap string A) : gmap string A :=
  let tmp := file +:+ ".tmp" in
  let d1 := <[tmp := obj]> d in
  match rename_file tmp file d1 with
  | Some d2 => d2
  | None => d1
  end.

(** [JSON.stringify] of a number: [NaN] becomes [null]. *)
Definition json_of_jsval (v : jsval) : option Z :=
  match v with
  | VNum (JInt z) => Some z
  | VNum JNaN => None
  | VNull => None
  end.

(** [JSON.parse] of an array element. *)
Definition jsval_of_json (j : option Z) : jsval :=
  match j with
  | Some z => VNum (JInt z)
  | None => VNull
  end.

(** ** Resume status *)

(** [GET /upload-status]; [id] is [(req.query?.hash || '').toString()]. *)
Definition uploadStatus (id : string) (w : world) : response :=
  if negb (truthy (Some id)) then RError 400 "Missing id"
  else
    match manifests w !! getManifestPath id with
    | None => RStatus []
    | Some (MJson m) =>
        match m_received m with
        | Some r => RStatus r
        | None => RStatus []
        end
    | Some MCorrupt => RError 500 "Failed to read manifest"
    end.

(** ** Chunk receiver *)

Inductive part : Type :=
  | PField (fieldname value : string)
  | PFile (fieldname filename mimetype : string) (data : list byte).

(** The local variables of the [POST /upload-chunk] handler. *)
Record chunk_vars : Type := {
  v_authKey : option string;
  v_uploadId : option string;
  v_index : option jsnum;
  v_totalChunks : option jsnum;
  v_filename : option string;
  v_isVideo : bool;
  v_wrotePath : option string;
  v_wroteTemp : bool;
  v_sawFile : bool;
}.

Definition chunk_vars0 : chunk_vars :=
  {| v_authKey := None; v_uploadId := None; v_index := None; v_totalChunks := None;
     v_filename := None; v_isVideo := false;
     v_wrotePath := None; v_wroteTemp := false; v_sawFile := false |}.

(** The [switch (part.fieldname)] of the field branch. *)
Definition setField (fieldname val : string) (v : chunk_vars) : chunk_vars :=
  if String.eqb fieldname "authKey" then
    {| v_authKey := Some (trim val); v_uploadId := v_uploadId v; v_index := v_index v;
       v_totalChunks := v_totalChunks v; v_filename := v_filename v; v_isVideo := v_isVideo v;
       v_wrotePath := v_wrotePath v; v_wroteTemp := v_wroteTemp v; v_sawFile := v_sawFile v |}
  else if String.eqb fieldname "uploadId" then
    {| v_authKey := v_authKey v; v_uploadId := Some (trim val); v_index := v_index v;
       v_totalChunks := v_totalChunks v; v_filename := v_filename v; v_isVideo := v_isVideo v;
       v_wrotePath := v_wrotePath v; v_wroteTemp := v_wroteTemp v; v_sawFile := v_sawFile v |}
  else if String.eqb fieldname "index" then
    {| v_authKey := v_authKey v; v_uploadId := v_uploadId v; v_index := Some (parseInt10 val);
       v_totalChunks := v_totalChunks v; v_filename := v_filename v; v_isVideo := v_isVideo v;
       v_wrotePath := v_wrotePath v; v_wroteTemp := v_wroteTemp v; v_sawFile := v_sawFile v |}
  else if String.eqb fieldname "totalChunks" then
    {| v_authKey := v_authKey v; v_uploadId := v_uploadId v; v_index := v_index v;
       v_totalChunks := Some (parseInt10 val); v_filename := v_filename v; v_isVideo := v_isVideo v;
       v_wrotePath := v_wrotePath v; v_wroteTemp := v_wroteTemp v; v_sawFile := v_sawFile v |}
  else if String.eqb fieldname "filename" then
    {| v_authKey := v_authKey v; v_uploadId := v_uploadId v; v_index := v_index v;
       v_totalChunks := v_totalChunks v; v_filename := Some val; v_isVideo := v_isVideo v;
       v_wrotePath := v_wrotePath v; v_wroteTemp := v_wroteTemp v; v_sawFile := v_sawFile v |}
  else if String.eqb fieldname "isVideo" then
    {| v_authKey := v_authKey v; v_uploadId := v_uploadId v; v_index := v_index v;
       v_totalChunks := v_totalChunks v; v_filename := v_filename v;
       v_isVideo := String.eqb (toLowerCase val) "true";
       v_wrotePath := v_wrotePath v; v_wroteTemp := v_wroteTemp v; v_sawFile := v_sawFile v |}
  else v.

(** The file branch: write the payload straight to the chunk path when
    [uploadId && index != null], else to a fresh staging name of [chunkDir]. *)
Definition writeChunkPart (e : env) (k : nat) (data : list byte)
    (st : chunk_vars * gmap string (list byte)) : chunk_vars * gmap string (list byte) :=
  let '(v, cf) := st in
  match v_index v with
  | Some idx =>
      if truthy (v_uploadId v) then
        let p := getChunkPath (default "" (v_uploadId v)) idx in
        ({| v_authKey := v_authKey v; v_uploadId := v_uploadId v; v_index := v_index v;
            v_totalChunks := v_totalChunks v; v_filename := v_filename v; v_isVideo := v_isVideo v;
            v_wrotePath := Some p; v_wroteTemp := v_wroteTemp v; v_sawFile := true |},
         <[p := data]> cf)
      else
        let p := inflightName e k in
        ({| v_authKey := v_authKey v; v_uploadId := v_uploadId v; v_index := v_index v;
            v_totalChunks := v_totalChunks v; v_filename := v_filename v; v_isVideo := v_isVideo v;
            v_wrotePath := Some p; v_wroteTemp := true; v_sawFile := true |},
         <[p := data]> cf)
  | None =>
      let p := inflightName e k in
      ({| v_authKey := v_authKey v; v_uploadId := v_uploadId v; v_index := v_index v;
          v_totalChunks := v_totalChunks v; v_filename := v_filename v; v_isVideo := v_isVideo v;
          v_wrotePath := Some p; v_wroteTemp := true; v_sawFile := true |},
       <[p := data]> cf)
  end.

(** One turn of [for await (const part of parts)]; [k] is the part's position.
    A file part under another field name meets no branch. *)
Definition chunkPart (e : env) (k : nat) (p : part)
    (st : chunk_vars * gmap string (list byte)) : chunk_vars * gmap string (list byte) :=
  match p with
  | PField f val => (setField f val st.1, st.2)
  | PFile f _ _ data =>
      if String.eqb f "chunk" then writeChunkPart e k data st else st
  end.

Fixpoint chunkParts (e : env) (k : nat) (ps : list part)
    (st : chunk_vars * gmap string (list byte)) : chunk_vars * gmap string (list byte) :=
  match ps with
  | [] => st
  | p :: ps' => chunkParts e (S k) ps' (chunkPart e k p st)
  end.

(** [Array.prototype.includes] (SameValueZero) on [received]. *)
Definition includes (r : list jsval) (x : jsnum) : bool :=
  existsb (fun y => bool_decide (y = VNum x)) r.

Definition set_chunkFiles (cf : gmap string (list byte)) (w : world) : world :=
  {| uploads := uploads w; tmpFiles := tmpFiles w; chunkFiles := cf;
     manifests := manifests w; hashIndex := hashIndex w;
     uploadLog := uploadLog w; logFile := logFile w |}.

Definition set_manifests (ms : gmap string mfile) (w : world) : world :=
  {| uploads := uploads w; tmpFiles := tmpFiles w; chunkFiles := chunkFiles w;
     manifests := ms; hashIndex := hashIndex w;
     uploadLog := uploadLog w; logFile := logFile w |}.

(** The manifest update that ends the handler: read or create, mark [index],
    stamp, write atomically, answer.  A manifest without a [received] array
    makes [manifest.received.includes] throw, which the handler's [catch]
    turns into a 500. *)
Definition markReceived (e : env) (uploadId : string) (index totalChunks : jsnum)
    (filename : option string) (isVideo : bool) (w : world) : world * response :=
  let manifestPath := getManifestPath uploadId in
  let fresh := {| m_uploadId := uploadId; m_filename := filename;
                  m_totalChunks := json_of_jsval (VNum totalChunks);
                  m_isVideo := isVideo; m_received := Some []; m_mtime := now e |} in
  let m := match manifests w !! manifestPath with
           | Some (MJson m) => m
           | Some MCorrupt => fresh
           | None => fresh
           end in
  match m_received m with
  | None => (w, RError 500 "Chunk upload failed")
  | Some rj =>
      let r : list jsval := jsval_of_json <$> rj in
      let r' := if includes r index then r else r ++ [VNum index] in
      let m' := {| m_uploadId := m_uploadId m; m_filename := m_filename m;
                   m_totalChunks := m_totalChunks m; m_isVideo := m_isVideo m;
                   m_received := Some (json_of_jsval <$> r'); m_mtime := now e |} in
      (set_manifests (writeJsonAtomic manifestPath (MJson m') (manifests w)) w,
       RChunkOk (json_of_jsval (VNum index)))
  end.

(** A file part under a field name other than [chunk]: no branch of the loop
    body reads its stream. *)
Definition unreadFile (p : part) : bool :=
  match p with
  | PFile f _ _ _ => negb (String.eqb f "chunk")
  | PField _ _ => false
  end.

(** The position of the first part for which [f] holds. *)
Fixpoint findPart (f : part → bool) (ps : list part) : option nat :=
  match ps with
  | [] => None
  | p :: ps' => if f p then Some O else S <$> findPart f ps'
  end.

(** [POST /upload-chunk].  While a file part is unread the multipart parser
    cannot come to the end of the body: [for await (const part of parts)]
    handles the parts the parser still hands over and then waits for ever,
    and the request is never answered. *)
Definition uploadChunk (users : gmap string string) (e : env) (ps : list part)
    (w : world) : world * response :=
  match findPart unreadFile ps with
  | Some i =>
      (set_chunkFiles
         (chunkParts e 0 (take (S i + readAhead e) ps) (chunk_vars0, chunkFiles w)).2 w,
       RNoAnswer)
  | None =>
  let '(v, cf) := chunkParts e 0 ps (chunk_vars0, chunkFiles w) in
  let w1 := set_chunkFiles cf w in
  match v_authKey v with
  | None => (w1, RError 403 "Invalid authKey")
  | Some authKey =>
      if negb (truthy (Some authKey)) then (w1, RError 403 "Invalid authKey")
      else
        match lookupUser users authKey with
        | None => (w1, RError 403 "Invalid authKey")
        | Some _ =>
            match v_uploadId v, v_index v, v_totalChunks v with
            | Some uploadId, Some index, Some totalChunks =>
                if (negb (truthy (Some uploadId)) || negb (v_sawFile v))%bool
                then (w1, RError 400 "Missing fields for chunk")
                else if v_wroteTemp v then
                  match rename_file (default "" (v_wrotePath v))
                          (getChunkPath uploadId index) cf with
                  | Some cf' =>
                      markReceived e uploadId index totalChunks
                        (v_filename v) (v_isVideo v) (set_chunkFiles cf' w)
                  | None => (w1, RError 500 "Chunk upload failed")
                  end
                else
                  markReceived e uploadId index totalChunks
                    (v_filename v) (v_isVideo v) w1
            | _, _, _ => (w1, RError 400 "Missing fields for chunk")
            end
        end
  end
  end.

(** ** Chunk assembly: merge to temp and hash in one pass *)

(** [crypto.createHash('sha256')]: the state of the accumulator is the byte
    sequence fed to it so far; [digest('hex')] applies the platform's SHA-256. *)
Definition hasher : Type := list byte.
Definition createHash : hasher := [].
Definition hasher_update (h : hasher) (c : list byte) : hasher := h ++ c.
Definition hasher_digest (P : platform) (h : hasher) : string := sha256hex P h.

(** The state the merge loop works on: [chunkDir], the bytes written to the
    output stream so far, and the hash accumulator. *)
Record merge_state : Type := {
  ms_chunks : gmap string (list byte);
  ms_out : list byte;
  ms_hasher : hasher;
}.

(** [for (let i = ...; i < totalChunks; i++)] with [left] iterations to go:
    [inl i] is [throw new Error(`Missing chunk #${i}`)]. *)
Fixpoint mergeLoop (uploadId : string) (left : nat) (i : N) (st : merge_state)
    : merge_state * (N + unit) :=
  match left with
  | O => (st, inr tt)
  | S left' =>
      let part := getChunkPath uploadId (JInt (Z.of_N i)) in
      match ms_chunks st !! part with
      | None => (st, inl i)
      | Some c =>
          mergeLoop uploadId left' (i + 1)%N
            {| ms_chunks := delete part (ms_chunks st);
               ms_out := ms_out st ++ c;
               ms_hasher := hasher_update (ms_hasher st) c |}
      end
  end.

(** [assembleChunksToTemp]: the files of [chunkDir] and [tmpUploadDir]
    afterwards, and the digest or the index of the missing chunk. *)
Definition assembleChunksToTemp (P : platform) (uploadId : string) (totalChunks : Z)
    (tmpOutPath : string) (cf tf : gmap string (list byte))
    : gmap string (list byte) * gmap string (list byte) * (N + string) :=
  let '(st, r) := mergeLoop uploadId (Z.to_nat totalChunks) 0%N
                    {| ms_chunks := cf; ms_out := []; ms_hasher := createHash |} in
  let tf' := <[tmpOutPath := ms_out st]> tf in
  match r with
  | inr _ => (ms_chunks st, tf', inr (hasher_digest P (ms_hasher st)))
  | inl i => (ms_chunks st, tf', inl i)
  end.

(** [finalizeReservation]: move the staged file to the reserved path (rename,
    or copy and unlink), and release the marker in every case.  The flag tells
    whether the move succeeded; it fails when the source is gone or the
    destination is a directory. *)
Definition finalizeReservation (t : Z) (tmpPath finalPath lockDir : string)
    (tf : gmap string (list byte)) (up : gmap string node)
    : gmap string (list byte) * gmap string node * bool :=
  match tf !! tmpPath with
  | None => (tf, rmrf lockDir up, false)
  | Some data =>
      match up !! finalPath with
      | Some (NDir _) => (tf, rmrf lockDir up, false)
      | _ => (delete tmpPath tf, rmrf lockDir (<[finalPath := NFile data t]> up), true)
      end
  end.

(** ** Finalize: assemble, dedupe, reserve, store, log *)

(** The parsed [manifest] field of [POST /upload-manifest]. *)
Record finalize_req : Type := {
  f_uploadId : string;
  f_totalChunks : Z;
  f_filename : string;
  f_authKey : string;
  f_isVideo : bool;
}.

(** The [manifest] form field: text that [JSON.parse] rejects, or its value. *)
Inductive manifest_field : Type :=
  | FBadJson
  | FJson (m : finalize_req).

Definition mkEntry (e : env) (authKey user originalName savedName hash : string)
    (deduped : bool) : log_entry :=
  {| e_authKey := authKey; e_fullName := user; e_originalName := originalName;
     e_savedName := savedName; e_timestamp := isoTime e; e_hash := hash;
     e_deduped := deduped |}.

(** [hashIndex.get(sha256)] under the [if (existing)] test. *)
Definition dedupeLookup (hi : gmap string string) (sha : string) : option string :=
  match hi !! sha with
  | Some existing => if truthy (Some existing) then Some existing else None
  | None => None
  end.

(** [POST /upload-manifest]; [field] is what the parts loop leaves in
    [manifest] for a request made of fields ([None]: no field of that name).
    The fields of the manifest are taken at the types the client sends. *)
Definition uploadManifest (P : platform) (users : gmap string string) (e : env)
    (field : option manifest_field) (w : world) : world * response :=
  match field with
  | Some FBadJson => (w, RError 400 "Invalid manifest JSON")
  | None => (w, RError 400 "Missing manifest fields")
  | Some (FJson m) =>
      if (negb (truthy (Some (f_uploadId m))) || (f_totalChunks m =? 0)
          || negb (truthy (Some (f_filename m))) || negb (truthy (Some (f_authKey m))))%bool
      then (w, RError 400 "Missing manifest fields")
      else
        match lookupUser users (f_authKey m) with
        | None => (w, RError 403 "Invalid authKey")
        | Some user =>
            let ext := extname P (f_filename m) in
            let tempOut := ".merge." +:+ uuid e +:+ ext in
            let '(cf, tf, r) :=
              assembleChunksToTemp P (f_uploadId m) (f_totalChunks m) tempOut
                (chunkFiles w) (tmpFiles w) in
            match r with
            | inl _ =>
                ({| uploads := uploads w; tmpFiles := tf; chunkFiles := cf;
                    manifests := manifests w; hashIndex := hashIndex w;
                    uploadLog := uploadLog w; logFile := logFile w |},
                 RError 500 "Assembly failed")
            | inr sha =>
                match dedupeLookup (hashIndex w) sha with
                | Some existing =>
                    let log' := uploadLog w ++
                      [mkEntry e (f_authKey m) user (f_filename m) existing sha true] in
                    ({| uploads := uploads w; tmpFiles := delete tempOut tf;
                        chunkFiles := cf;
                        manifests := delete (getManifestPath (f_uploadId m)) (manifests w);
                        hashIndex := hashIndex w;
                        uploadLog := log'; logFile := log' |},
                     RDeduped existing)
                | None =>
                    match reserveSerialPath (lockTtl e) (clock e) (uploads w) user
                            (f_isVideo m) ext with
                    | (up, None) =>
                        ({| uploads := up; tmpFiles := tf; chunkFiles := cf;
                            manifests := manifests w; hashIndex := hashIndex w;
                            uploadLog := uploadLog w; logFile := logFile w |},
                         RError 500 "Assembly failed")
                    | (up, Some rsv) =>
                        match finalizeReservation (now e) tempOut (res_finalPath rsv)
                                (res_lockDir rsv) tf up with
                        | (tf', up', false) =>
                            ({| uploads := up'; tmpFiles := tf'; chunkFiles := cf;
                                manifests := manifests w; hashIndex := hashIndex w;
                                uploadLog := uploadLog w; logFile := logFile w |},
                             RError 500 "Assembly failed")
                        | (tf', up', true) =>
                            let savedName := res_finalPath rsv in
                            let log' := uploadLog w ++
                              [mkEntry e (f_authKey m) user (f_filename m) savedName sha false] in
                            ({| uploads := up'; tmpFiles := tf'; chunkFiles := cf;
                                manifests := delete (getManifestPath (f_uploadId m)) (manifests w);
                                hashIndex := <[sha := savedName]> (hashIndex w);
                                uploadLog := log'; logFile := log' |},
                             RSaved savedName sha)
                        end
                    end
                end
            end
        end
  end.

(** ** Direct multipart upload *)

Record staged : Type := {
  s_tmpPath : string;
  s_sha256 : string;
  s_ext : string;
  s_isVideo : bool;
  s_originalName : string;
}.

Definition videoExts : list string :=
  [".mp4"; ".mov"; ".avi"; ".mkv"; ".webm"; ".flv"; ".ogv"].

(** The local variables of the first loop of [POST /upload]. *)
Record direct_vars : Type := {
  d_authKey : option string;
  d_user : option string;
  d_staged : list staged;
}.

(** One turn of the first loop: remember the key and its owner, or stage the
    file in [tmpUploadDir] while hashing it. *)
Definition directPart (P : platform) (users : gmap string string) (e : env) (k : nat)
    (p : part) (st : direct_vars * gmap string (list byte))
    : direct_vars * gmap string (list byte) :=
  let '(v, tf) := st in
  match p with
  | PField f val =>
      if String.eqb f "authKey" then
        ({| d_authKey := Some (trim val); d_user := lookupUser users (trim val);
            d_staged := d_staged v |}, tf)
      else st
  | PFile _ filename mimetype data =>
      let ext := extname P filename in
      let isVideo := (startsWith mimetype "video/"
                      || existsb (String.eqb (toLowerCase ext)) videoExts)%bool in
      let tmpPath := stageName e k in
      let sha := hasher_digest P (hasher_update createHash data) in
      ({| d_authKey := d_authKey v; d_user := d_user v;
          d_staged := d_staged v ++
            [{| s_tmpPath := tmpPath; s_sha256 := sha; s_ext := ext;
                s_isVideo := isVideo; s_originalName := filename |}] |},
       <[tmpPath := data]> tf)
  end.

Fixpoint directParts (P : platform) (users : gmap string string) (e : env) (k : nat)
    (ps : list part) (st : direct_vars * gmap string (list byte))
    : direct_vars * gmap string (list byte) :=
  match ps with
  | [] => st
  | p :: ps' => directParts P users e (S k) ps' (directPart P users e k p st)
  end.

(** The body of [for (const s of staged)]: [None] is a [throw]. *)
Definition storeStaged (e : env) (authKey user : string) (s : staged)
    (st : world * list string) : world * option (list string) :=
  let '(w, savedFiles) := st in
  match dedupeLookup (hashIndex w) (s_sha256 s) with
  | Some existing =>
      ({| uploads := uploads w; tmpFiles := delete (s_tmpPath s) (tmpFiles w);
          chunkFiles := chunkFiles w; manifests := manifests w;
          hashIndex := hashIndex w;
          uploadLog := uploadLog w ++
            [mkEntry e authKey user (s_originalName s) existing (s_sha256 s) true];
          logFile := logFile w |},
       Some savedFiles)
  | None =>
      match reserveSerialPath (lockTtl e) (clock e) (uploads w) user
              (s_isVideo s) (s_ext s) with
      | (up, None) =>
          ({| uploads := up; tmpFiles := tmpFiles w; chunkFiles := chunkFiles w;
              manifests := manifests w; hashIndex := hashIndex w;
              uploadLog := uploadLog w; logFile := logFile w |}, None)
      | (up, Some rsv) =>
          match finalizeReservation (now e) (s_tmpPath s) (res_finalPath rsv)
                  (res_lockDir rsv) (tmpFiles w) up with
          | (tf', up', false) =>
              ({| uploads := up'; tmpFiles := tf'; chunkFiles := chunkFiles w;
                  manifests := manifests w; hashIndex := hashIndex w;
                  uploadLog := uploadLog w; logFile := logFile w |}, None)
          | (tf', up', true) =>
              let savedName := res_finalPath rsv in
              ({| uploads := up'; tmpFiles := tf'; chunkFiles := chunkFiles w;
                  manifests := manifests w;
                  hashIndex := <[s_sha256 s := savedName]> (hashIndex w);
                  uploadLog := uploadLog w ++
                    [mkEntry e authKey user (s_originalName s) savedName (s_sha256 s) false];
                  logFile := logFile w |},
               Some (savedFiles ++ [savedName]))
          end
      end
  end.

Fixpoint storeAll (e : env) (authKey user : string) (ss : list staged)
    (st : world * list string) : world * option (list string) :=
  match ss with
  | [] => (st.1, Some st.2)
  | s :: ss' =>
      match storeStaged e authKey user s st with
      | (w1, Some saved) => storeAll e authKey user ss' (w1, saved)
      | (w1, None) => (w1, None)
      end
  end.

Definition set_tmpFiles (tf : gmap string (list byte)) (w : world) : world :=
  {| uploads := uploads w; tmpFiles := tf; chunkFiles := chunkFiles w;
     manifests := manifests w; hashIndex := hashIndex w;
     uploadLog := uploadLog w; logFile := logFile w |}.

(** [POST /upload]. *)
Definition upload (P : platform) (users : gmap string string) (e : env)
    (ps : list part) (w : world) : world * response :=
  let '(v, tf) := directParts P users e 0 ps
                    ({| d_authKey := None; d_user := None; d_staged := [] |}, tmpFiles w) in
  match (if truthy (d_authKey v) then d_user v else None) with
  | None =>
      (set_tmpFiles (foldr (fun s m => delete (s_tmpPath s) m) tf (d_staged v)) w,
       RError 403 "Invalid or missing authKey")
  | Some user =>
      match storeAll e (default "" (d_authKey v)) user (d_staged v) (set_tmpFiles tf w, []) with
      | (w1, Some savedFiles) =>
          ({| uploads := uploads w1; tmpFiles := tmpFiles w1; chunkFiles := chunkFiles w1;
              manifests := manifests w1; hashIndex := hashIndex w1;
              uploadLog := uploadLog w1; logFile := uploadLog w1 |},
           RFiles savedFiles)
      | (w1, None) => (w1, RError 500 "Upload failed")
      end
  end.

(** ** Start-up *)

(** The rebuild of the index from the log at process start: the first entry
    of a hash wins, entries without hash or saved name are skipped. *)
Definition loadHashIndex (log : list log_entry) : gmap string string :=
  fold_left
    (fun hi e =>
       if (truthy (Some (e_hash e)) && truthy (Some (e_savedName e))
           && negb (bool_decide (is_Some (hi !! e_hash e))))%bool
       then <[e_hash e := e_savedName e]> hi else hi)
    log ∅.

(** ** Notions used by the statements *)

(** Every saved name in the index is a non-empty string, so that the
    [if (existing)] test of the deduper is a membership test. *)
Definition hashIndexOk (hi : gmap string string) : Prop :=
  ∀ h s, hi !! h = Some s → s ≠ "".


(** Strings without a dot: what the digits of a serial are. *)
Fixpoint nodot (s : string) : Prop :=
  match s with
  | EmptyString => True
  | String c r => c ≠ "."%char ∧ nodot r
  end.

(** The handler's variables once only fields have been read. *)
Definition readFields (fs : list part) (v : chunk_vars) : chunk_vars :=
  fold_left (fun v p => match p with PField f val => setField f val v | PFile _ _ _ _ => v end) fs v.

Definition isField (p : part) : Prop :=
  match p with PField _ _ => True | PFile _ _ _ _ => False end.

Definition fieldNames (ps : list part) : list string :=
  omap (fun p => match p with PField f _ => Some f | PFile _ _ _ _ => None end) ps.

(** [v] with the three bookkeeping variables of the file branch replaced. *)
Definition withWrote (p : option string) (t s : bool) (v : chunk_vars) : chunk_vars :=
  {| v_authKey := v_authKey v; v_uploadId := v_uploadId v; v_index := v_index v;
     v_totalChunks := v_totalChunks v; v_filename := v_filename v; v_isVideo := v_isVideo v;
     v_wrotePath := p; v_wroteTemp := t; v_sawFile := s |}.

(** The names of the reservation markers of one owner and prefix. *)
Definition isLockName (name : string) (isVideo : bool) (ext : string) (nm : string) : Prop :=
  ∃ k, nm = lockDir (serialPaths name (prefixOf isVideo) k ext).

(** ** Concrete inputs for the examples *)

(** A stand-in platform: the digest is the byte string itself, the extension
    is fixed. *)
Definition samplePlatform : platform :=
  {| sha256hex := String.string_of_list_byte; extname := fun _ => ".jpg" |}.

Definition sampleEnv : env :=
  {| now := 700000; clock := fun _ => 700000; isoTime := "2025-01-01T00:00:00.000Z";
     uuid := "0000"; inflightName := fun _ => ".inflight.1-a";
     stageName := fun _ => "1_a_pic.jpg"; lockTtl := LOCK_TTL_DEFAULT;
     readAhead := 0 |}.

Definition sampleUsers : gmap string string := {[ "k1" := "Bob" ]}.

Definition emptyWorld : world :=
  {| uploads := ∅; tmpFiles := ∅; chunkFiles := ∅; manifests := ∅;
     hashIndex := ∅; uploadLog := []; logFile := [] |}.

(** A directory with a ten-minute-old marker for serial 0 and a stored file
    at serial 1. *)
Definition sampleDir : gmap string node :=
  <["Bob_IMG-0000.lock" := NDir 0]> (<["Bob_IMG-0001.jpg" := NFile [] 5]> ∅).

(** A directory holding only a stale marker for serial 0. *)
Definition staleDir : gmap string node := {[ "Bob_IMG-0000.lock" := NDir 0 ]}.

(** A directory whose only entry continues serial 0's name without a dot. *)
Definition suffixDir : gmap string node := {[ "Bob_IMG-0000_v2.jpg" := NFile ["A"%byte] 0 ]}.

Definition sampleManifest (received : list (option Z)) : manifest :=
  {| m_uploadId := "u1"; m_filename := Some "a.jpg"; m_totalChunks := Some 2;
     m_isVideo := false; m_received := Some received; m_mtime := 1 |}.

(** Upload [u1] of two chunks, both recorded as received, of which only
    chunk 0 is on disk. *)
Definition missingWorld : world :=
  {| uploads := ∅; tmpFiles := ∅;
     chunkFiles := {[ "u1_chunk_0" := ["A"%byte] ]};
     manifests := {[ "u1.json" := MJson (sampleManifest [Some 0; Some 1]) ]};
     hashIndex := ∅; uploadLog := []; logFile := [] |}.

(** The same upload with chunk 1 on disk but of length zero. *)
Definition emptyChunkWorld : world :=
  {| uploads := ∅; tmpFiles := ∅;
     chunkFiles := <["u1_chunk_1" := []]> {[ "u1_chunk_0" := ["A"%byte] ]};
     manifests := {[ "u1.json" := MJson (sampleManifest [Some 0; Some 1]) ]};
     hashIndex := ∅; uploadLog := []; logFile := [] |}.

(** The same upload complete: chunk 0 is [A], chunk 1 is [B]. *)
Definition completeWorld : world :=
  {| uploads := ∅; tmpFiles := ∅;
     chunkFiles := <["u1_chunk_1" := ["B"%byte]]> {[ "u1_chunk_0" := ["A"%byte] ]};
     manifests := {[ "u1.json" := MJson (sampleManifest [Some 0; Some 1]) ]};
     hashIndex := ∅; uploadLog := []; logFile := [] |}.

(** The complete upload when another owner has already stored the bytes [AB]. *)
Definition dupWorld : world :=
  {| uploads := {[ "Alice_IMG-0000.jpg" := NFile ["A"%byte; "B"%byte] 3 ]};
     tmpFiles := ∅;
     chunkFiles := <["u1_chunk_1" := ["B"%byte]]> {[ "u1_chunk_0" := ["A"%byte] ]};
     manifests := {[ "u1.json" := MJson (sampleManifest [Some 0; Some 1]) ]};
     hashIndex := {[ "AB" := "Alice_IMG-0000.jpg" ]};
     uploadLog := []; logFile := [] |}.

Definition sampleFinalize : finalize_req :=
  {| f_uploadId := "u1"; f_totalChunks := 2; f_filename := "a.jpg";
     f_authKey := "k1"; f_isVideo := false |}.

Definition sampleData (i : nat) : list byte :=
  match i with O => ["A"%byte] | _ => ["B"%byte] end.

(** The client's chunk submission: fields first, payload last. *)
Definition sampleChunkParts (authKey index : string) (data : list byte) : list part :=
  [PField "authKey" authKey; PField "uploadId" "u1"; PField "index" index;
   PField "totalChunks" "2"; PField "hash" "u1"; PField "filename" "a.jpg";
   PField "isVideo" "false"; PFile "chunk" "a.jpg.part" "application/octet-stream" data].

(** ** Notions used by the further statements *)

(** The number a string of decimal digits denotes, leading zeros allowed. *)
Definition digitsValue (s : string) : option N :=
  N.of_uint <$> NilEmpty.uint_of_string s.

(** Candidate [n] is free in [d] for an owner and a prefix: no entry uses the
    serial and no reservation marker of it exists. *)
Definition isFree (d : gmap string node) (name : string) (isVideo : bool) (n : N) : bool :=
  let sp := serialPaths name (prefixOf isVideo) n "" in
  (negb (isRealSerialUsed d (baseNoExt sp))
   && match d !! lockDir sp with None => true | Some _ => false end)%bool.

(** The state of the loop of [reserveSerialPath] when it reaches candidate
    [n]: only markers of smaller candidates differ from the directory [d] of
    the start. *)
Definition loopInv (name : string) (isVideo : bool) (ext : string)
    (d : gmap string node) (n : N) (dn : gmap string node) : Prop :=
  (∀ nm, ¬ isLockName name isVideo ext nm → dn !! nm = d !! nm)
  ∧ (∀ j, (n ≤ j)%N →
       dn !! lockDir (serialPaths name (prefixOf isVideo) j ext)
       = d !! lockDir (serialPaths name (prefixOf isVideo) j ext)).

(** What [path.extname] can return: nothing, or a dot and the extension. *)
Definition isExtension (ext : string) : Prop :=
  ext = "" ∨ ∃ e, ext = "." +:+ e.

(** Does [s] start with white space? *)
Definition leadSpace (s : string) : bool :=
  match s with
  | EmptyString => false
  | String c r =>
      (is_space c
       || match r with
          | String c2 r2 =>
              (is_space2 c c2
               || match r2 with
                  | String c3 r3 => is_space3 c c2 c3
                  | EmptyString => false
                  end)%bool
          | EmptyString => false
          end)%bool
  end.

(** ** The client's side of a chunked upload *)

(** [Blob.prototype.slice(a, b)] for [0 <= a <= b]. *)
Definition blob_slice (a b : nat) (file : list byte) : list byte :=
  take (b - a) (drop a file).

(** [sliceBlob(file, size)] of the client's chunked-upload module:
    [for (let offset = 0; offset < file.size; offset += size)], run for at
    most [fuel] iterations; [None] when the loop has not come to its end by
    then. *)
Fixpoint sliceBlob_loop (fuel : nat) (file : list byte) (size offset : nat)
    : option (list (list byte)) :=
  if (offset <? length file)%nat then
    match fuel with
    | O => None
    | S fuel' =>
        cons (blob_slice offset (Nat.min (offset + size) (length file)) file)
          <$> sliceBlob_loop fuel' file size (offset + size)
    end
  else Some [].

Definition sliceBlob (fuel : nat) (file : list byte) (size : nat)
    : option (list (list byte)) :=
  sliceBlob_loop fuel file size 0.

(** The form the client's [uploadChunk(item, index, total)] posts. *)
Definition clientChunkForm (authKey uploadId filename : string) (isVideo : bool)
    (index total : nat) (data : list byte) : list part :=
  [PField "authKey" authKey;
   PField "uploadId" uploadId;
   PField "index" (String_of_jsnum (JInt (Z.of_nat index)));
   PField "totalChunks" (String_of_jsnum (JInt (Z.of_nat total)));
   PField "hash" uploadId;
   PField "filename" filename;
   PField "isVideo" (if isVideo then "true" else "false");
   PFile "chunk" (filename +:+ ".part" +:+ String_of_jsnum (JInt (Z.of_nat index)))
     "application/octet-stream" data].

(** A run of chunk submissions of one upload: each step posts the chunk of
    the given index under its own environment. *)
Fixpoint submitChunks (users : gmap string string) (authKey uploadId filename : string)
    (isVideo : bool) (chunks : list (list byte)) (steps : list (nat * env)) (w : world)
    : world :=
  match steps with
  | [] => w
  | (i, e) :: steps' =>
      submitChunks users authKey uploadId filename isVideo chunks steps'
        (uploadChunk users e
           (clientChunkForm authKey uploadId filename isVideo i (length chunks)
              (default [] (chunks !! i))) w).1
  end.

(** The [received] array the chunk receiver starts from for an upload: the
    one of the manifest on disk, the empty one when there is no manifest or
    it does not parse, and nothing when the manifest has no such array. *)
Definition receivedBefore (w : world) (uploadId : string) : option (list (option Z)) :=
  match manifests w !! getManifestPath uploadId with
  | Some (MJson m) => m_received m
  | Some MCorrupt => Some []
  | None => Some []
  end.

(** The array written back after [index] has been marked. *)
Definition addReceived (r : list (option Z)) (index : jsnum) : list (option Z) :=
  match index with
  | JInt z => if bool_decide (Some z ∈ r) then r else r ++ [Some z]
  | JNaN => r ++ [None]
  end.

(** ** The janitor *)

(** [s.endsWith(suffix)]. *)
Definition endsWith (s suffix : string) : bool :=
  ((String.length suffix <=? String.length s)%nat
   && String.eqb (slice_from (String.length s - String.length suffix) s) suffix)%bool.

(** [Dirent.isDirectory()] and [Dirent.isFile()]. *)
Definition isDirectory (x : node) : bool :=
  match x with NDir _ => true | NFile _ _ => false end.

Definition isFile (x : node) : bool :=
  match x with NFile _ _ => true | NDir _ => false end.

Definition ONE_HOUR : Z := 60 * 60 * 1000.

(** [TMP_TTL]'s default, forty-eight hours in milliseconds. *)
Definition TMP_TTL_DEFAULT : Z := 48 * ONE_HOUR.

(** [const st = await stat(fp).catch(() => null);
     if (st && (now - st.mtimeMs > ttl)) await rmrf(fp);] *)
Definition removeIfOlder (ttl now : Z) (nm : string) (d : gmap string node)
    : gmap string node :=
  match d !! nm with
  | Some st => if ttl <? now - node_mtime st then rmrf nm d else d
  | None => d
  end.

(** [for await (const d of await fs.promises.opendir(dir))]: the body runs
    once for every entry the directory held when it was opened, in whatever
    order, on the directory as the earlier turns left it. *)
Definition forEachEntry (body : gmap string node → string * node → gmap string node)
    (d : gmap string node) : gmap string node :=
  fold_left body (map_to_list d) d.

(** The body of the first loop of [cleanupOnce], over [uploadDir]. *)
Definition cleanUploadEntry (lockTtl now : Z) (acc : gmap string node)
    (ent : string * node) : gmap string node :=
  let acc1 :=
    if (isDirectory ent.2 && endsWith ent.1 ".lock")%bool
    then removeIfOlder lockTtl now ent.1 acc else acc in
  if (isFile ent.2 && endsWith ent.1 ".serial")%bool
  then removeIfOlder lockTtl now ent.1 acc1 else acc1.

(** The body of the second and third loops, over [tmpUploadDir] and [chunkDir]. *)
Definition cleanTempEntry (tmpTtl now : Z) (acc : gmap string node)
    (ent : string * node) : gmap string node :=
  removeIfOlder tmpTtl now ent.1 acc.

(** The body of the fourth loop, over [manifestDir]. *)
Definition cleanManifestEntry (tmpTtl now : Z) (acc : gmap string node)
    (ent : string * node) : gmap string node :=
  if negb (endsWith ent.1 ".json") then acc
  else removeIfOlder tmpTtl now ent.1 acc.

(** The four directories the janitor walks, each entry with its [mtimeMs]. *)
Record janitor_dirs : Type := {
  jd_uploads : gmap string node;    (* uploadDir *)
  jd_tmp : gmap string node;        (* tmpUploadDir *)
  jd_chunks : gmap string node;     (* chunkDir *)
  jd_manifests : gmap string node;  (* manifestDir *)
}.

(** [cleanupOnce]; [now] is the [Date.now()] read once at its start. *)
Definition cleanupOnce (lockTtl tmpTtl now : Z) (jd : janitor_dirs) : janitor_dirs :=
  {| jd_uploads := forEachEntry (cleanUploadEntry lockTtl now) (jd_uploads jd);
     jd_tmp := forEachEntry (cleanTempEntry tmpTtl now) (jd_tmp jd);
     jd_chunks := forEachEntry (cleanTempEntry tmpTtl now) (jd_chunks jd);
     jd_manifests := forEachEntry (cleanManifestEntry tmpTtl now) (jd_manifests jd) |}.

(** What the first loop removes: a directory named [*.lock] or a file named
    [*.serial], older than the lock threshold. *)
Definition staleMarker (lockTtl now : Z) (nm : string) (x : node) : bool :=
  ((isDirectory x && endsWith nm ".lock" || isFile x && endsWith nm ".serial")
   && (lockTtl <? now - node_mtime x))%bool.

(** ** Key checks outside the upload routes *)

(** The request of [POST /auth-check], by the branch its content type
    selects.
    - [AJson raw]: the content type names [application/json] and the body
      has been parsed; [raw] is the string
      [(req.body?.authKey || '').toString()].
    - [AMultipart ps]: it names [multipart/form-data]; [ps] are the parts.
    - [AOther]: any other content type that reaches the handler.  The server
      parses JSON, plain text and multipart bodies only (a form-encoded body
      is turned away with 415 before the handler runs), so [req.body] is then
      a string or undefined and [req.body?.authKey] is undefined. *)
Inductive auth_req : Type :=
  | AJson (raw : string)
  | AMultipart (ps : list part)
  | AOther.

(** [for await (const p of parts)] up to its [break]: the trimmed value of
    the first field named [authKey], if the loop meets one. *)
Fixpoint firstAuthKey (ps : list part) : option string :=
  match ps with
  | [] => None
  | PField f v :: r => if String.eqb f "authKey" then Some (trim v) else firstAuthKey r
  | PFile _ _ _ _ :: r => firstAuthKey r
  end.

Definition isFilePart (p : part) : bool :=
  match p with
  | PFile _ _ _ _ => true
  | PField _ _ => false
  end.

(** The handler's [key]; nothing when the handler never gets that far.  The
    multipart branch reads no file part: once the body holds one, the loop
    can only be left by the [break], at a key field among the parts the
    parser still hands over. *)
Definition authKeyOf (e : env) (r : auth_req) : option string :=
  match r with
  | AJson raw => Some (trim raw)
  | AMultipart ps =>
      match findPart isFilePart ps with
      | Some i => firstAuthKey (take (S i + readAhead e) ps)
      | None => Some (default "" (firstAuthKey ps))
      end
  | AOther => Some ""
  end.

(** The answers: [{ valid: true, fullName }] with the value found (in the
    JSON sent a method is dropped from the object), [{ valid: false }], or
    none. *)
Inductive auth_answer : Type :=
  | AuthValid (fullName : userval)
  | AuthInvalid
  | AuthNoAnswer.

(** [POST /auth-check]. *)
Definition authCheck (users : gmap string string) (e : env) (r : auth_req) : auth_answer :=
  match authKeyOf e r with
  | None => AuthNoAnswer
  | Some key =>
      match getUser users key with
      | Some fullName => AuthValid fullName
      | None => AuthInvalid
      end
  end.

(** [GET /]: the value of [injected], the replacement the handler passes to
    [html.replace] for the page's key placeholder; [raw] is the string
    [(req.query?.authKey || '').toString()]. *)
Definition injectedKey (users : gmap string string) (raw : string) : string :=
  let urlKey := trim raw in
  if (truthy (Some urlKey)
      && match lookupUser users urlKey with Some _ => true | None => false end)%bool
  then urlKey else "UNAUTHENTICATED".

(** The file parts of a multipart body, by file name and bytes, in order. *)
Definition fileParts (ps : list part) : list (string * list byte) :=
  omap (fun p => match p with
                 | PFile _ filename _ data => Some (filename, data)
                 | PField _ _ => None
                 end) ps.

(** ** Concrete inputs for the further statements *)

(** What an allocation for Bob at time 700000 leaves of [sampleDir]: the
    stale marker of serial 0 is gone, serial 2 is reserved. *)
Definition sampleDirReserved : gmap string node :=
  <["Bob_IMG-0002.lock" := NDir 700000]> (<["Bob_IMG-0001.jpg" := NFile [] 5]> ∅).

(** A three-byte file, cut by the client into chunks of two bytes. *)
Definition sampleFile : list byte := ["A"; "B"; "C"]%byte.

(** The client posts chunk 1, then chunk 0, then chunk 1 again. *)
Definition sampleSteps : list (nat * env) :=
  [(1%nat, sampleEnv); (0%nat, sampleEnv); (1%nat, sampleEnv)].

(** A stand-in platform whose digests are never empty. *)
Definition taggedPlatform : platform :=
  {| sha256hex := fun bs => String "h" (String.string_of_list_byte bs);
     extname := fun _ => ".jpg" |}.

(** A direct upload of one picture. *)
Definition sampleDirectParts (authKey : string) : list part :=
  [PField "authKey" authKey; PFile "file" "pic.jpg" "image/jpeg" ["A"%byte]].

(** The directories as a janitor pass at time 200000000 finds them: a stale
    marker and an old stored file, an old staged file, a chunk half as old,
    an old manifest and the leftover of an interrupted manifest write. *)
Definition sampleJanitorDirs : janitor_dirs :=
  {| jd_uploads := sampleDir;
     jd_tmp := {[ "1_a_pic.jpg" := NFile ["A"%byte] 0 ]};
     jd_chunks := {[ "u1_chunk_0" := NFile ["A"%byte] 100000000 ]};
     jd_manifests := <["u1.json.tmp" := NFile [] 0]> {[ "u1.json" := NFile [] 0 ]} |}.

(** * Properties *)

(** ** The model on small inputs *)

Example serialTag_3 : serialTag "IMG" 3 = "IMG-0003".
Proof. reflexivity. Qed.

Example serialTag_big : serialTag "VID" 123456 = "VID-123456".
Proof. reflexivity. Qed.

Example parseInt_ex :
  parseInt10 " 42px" = JInt 42 ∧ parseInt10 "-7" = JInt (-7) ∧ parseInt10 "abc" = JNaN
  ∧ parseInt10 "" = JNaN ∧ String_of_jsnum (JInt (-7)) = "-7" ∧ trim "  a b  " = "a b".
Proof. repeat split; reflexivity. Qed.

Example reserve_sample :
  (reserveSerialPath LOCK_TTL_DEFAULT (fun _ => 700000) sampleDir "Bob" false ".png").2
  = Some {| res_finalPath := "Bob_IMG-0002.png"; res_lockDir := "Bob_IMG-0002.lock"; res_n := 2 |}.
Proof. vm_compute. reflexivity. Qed.

(** The used-check asks for a dot after the base: serial 10000 does not use
    serial 1000, a marker in any letter case is a control file, and any other
    extension uses the serial. *)
Example used_check_ex :
  nameUsesSerial "Bob_IMG-1000" "Bob_IMG-10000.jpg" = false
  ∧ nameUsesSerial "Bob_IMG-1000" "Bob_IMG-1000.LOCK" = false
  ∧ nameUsesSerial "Bob_IMG-1000" "Bob_IMG-1000.serial" = false
  ∧ nameUsesSerial "Bob_IMG-1000" "Bob_IMG-1000.tar.gz" = true
  ∧ nameUsesSerial "Bob_IMG-1000" "Bob_IMG-1000" = true.
Proof. repeat split; reflexivity. Qed.

Example lock_ttl_ex :
  LOCK_TTL_of "" = 600000 ∧ LOCK_TTL_of "0" = 600000 ∧ LOCK_TTL_of "5000" = 5000.
Proof. repeat split; reflexivity. Qed.

(** A first chunk creates the manifest; an index that is not a number is
    accepted and recorded as [null]. *)
Example first_chunk_ex :
  (uploadChunk sampleUsers sampleEnv (sampleChunkParts "k1" "0" ["A"%byte]) emptyWorld).2
  = RChunkOk (Some 0)
  ∧ (uploadChunk sampleUsers sampleEnv (sampleChunkParts "k1" "zero" ["A"%byte]) emptyWorld).2
    = RChunkOk None.
Proof. split; vm_compute; reflexivity. Qed.

(** The letters and the white space outside ASCII, and the keys every plain
    object answers to. *)
Example unicode_ex :
  toLowerCase (String "L" (String "O" (String "C" (String "226" (String "132"
                 (String "170" ""))))))
  = "lock"
  ∧ nameUsesSerial "Bob_IMG-0000"
      ("Bob_IMG-0000." +:+ String "L" (String "O" (String "C" (String "226" (String "132"
                              (String "170" ""))))))
    = false
  ∧ trim (String "194" (String "160" ("k1" +:+ String "226" (String "128" (String "168" "")))))
    = "k1"
  ∧ parseInt10 (String "239" (String "187" (String "191" "12"))) = JInt 12.
Proof. repeat split; vm_compute; reflexivity. Qed.

Example inherited_keys_ex :
  lookupUser ∅ "constructor" = Some "function Object() { [native code] }"
  ∧ lookupUser (<["toString" := ""]> ∅) "toString" = None
  ∧ lookupUser (<["__proto__" := "Eve"]> ∅) "__proto__" = Some "[object Object]"
  ∧ lookupUser sampleUsers "k1" = Some "Bob"
  ∧ lookupUser sampleUsers "nope" = None.
Proof. repeat split; vm_compute; reflexivity. Qed.

(** ** Strings *)

Lemma append_cons (x : ascii) (a b : string) : String x a +:+ b = String x (a +:+ b).
Proof. reflexivity. Qed.

Lemma append_nil (b : string) : "" +:+ b = b.
Proof. reflexivity. Qed.

Ltac str_simpl := rewrite ?append_cons, ?append_nil in *; simpl in *.

Lemma append_assoc (a b c : string) : (a +:+ b) +:+ c = a +:+ (b +:+ c).
Proof. induction a as [|x a IH]; str_simpl; [reflexivity | f_equal; exact IH]. Qed.

Lemma append_inv_head (p a b : string) : p +:+ a = p +:+ b → a = b.
Proof. induction p as [|x p IH]; str_simpl; intros H; [done | injection H; auto]. Qed.

Lemma prefix_append (p s : string) : String.prefix p (p +:+ s) = true.
Proof.
  induction p as [|x p IH]; str_simpl; [by destruct s |].
  destruct (ascii_dec x x); [apply IH | done].
Qed.

Lemma prefix_inv (p s : string) : String.prefix p s = true → ∃ r, s = p +:+ r.
Proof.
  revert s. induction p as [|x p IH]; intros s H; simpl in *.
  - exists s. reflexivity.
  - destruct s as [|y s]; simpl in H; [discriminate |].
    destruct (ascii_dec x y) as [->|]; [| discriminate].
    destruct (IH _ H) as [r ->]. exists r. reflexivity.
Qed.

Lemma slice_from_append (p s : string) : slice_from (String.length p) (p +:+ s) = s.
Proof. induction p as [|x p IH]; str_simpl; [by destruct s | apply IH]. Qed.

Lemma length_append (a b : string) :
  String.length (a +:+ b) = (String.length a + String.length b)%nat.
Proof. induction a as [|x a IH]; str_simpl; [done | by rewrite IH]. Qed.

Lemma append_dot_ne (b e : string) : b +:+ "." +:+ e ≠ b.
Proof.
  intros H. apply (f_equal String.length) in H.
  rewrite !length_append in H. simpl in H. lia.
Qed.

Lemma nodot_append (a b : string) : nodot a → nodot b → nodot (a +:+ b).
Proof. induction a as [|x a IH]; str_simpl; [done | intros [? ?] ?; auto]. Qed.

Lemma nodot_split (a b x y : string) :
  nodot a → nodot b → a +:+ "." +:+ x = b +:+ "." +:+ y → a = b ∧ x = y.
Proof.
  revert b. induction a as [|c a IH]; intros [|c' b]; str_simpl; intros Ha Hb H.
  - injection H as ->. done.
  - injection H as <- _. by destruct Hb.
  - injection H as -> _. by destruct Ha.
  - injection H as -> H. destruct Ha, Hb.
    destruct (IH b) as [-> ->]; done.
Qed.

Lemma nodot_no_dot_inside (a x : string) : nodot (a +:+ "." +:+ x) → False.
Proof. induction a as [|c a IH]; str_simpl; intros [? ?]; [done | auto]. Qed.

Lemma nodot_uint (u : Decimal.uint) : nodot (NilEmpty.string_of_uint u).
Proof. induction u; simpl; try done; split; done. Qed.

Lemma nodot_String_of_N (n : N) : nodot (String_of_N n).
Proof.
  unfold String_of_N, NilZero.string_of_uint.
  destruct (N.to_uint n) eqn:E; try apply nodot_uint. simpl. done.
Qed.

Lemma nodot_zeros (k : nat) : nodot (String.concat "" (replicate k "0")).
Proof.
  induction k as [|k IH]; simpl; [done |].
  destruct (replicate k "0") eqn:E; str_simpl; [done |]. split; [done | apply IH].
Qed.

Lemma nodot_padStart4 (s : string) : nodot s → nodot (padStart4 s).
Proof. intros H. unfold padStart4. apply nodot_append; [apply nodot_zeros | done]. Qed.

(** ** The used-check *)

Lemma nameUsesSerial_exact (b : string) : nameUsesSerial b b = true.
Proof. unfold nameUsesSerial. by rewrite String.eqb_refl. Qed.

Lemma nameUsesSerial_ext (b e : string) :
  toLowerCase e ≠ "lock" → toLowerCase e ≠ "serial" →
  nameUsesSerial b (b +:+ "." +:+ e) = true.
Proof.
  intros Hl Hs. unfold nameUsesSerial, startsWith.
  destruct (String.eqb_spec (b +:+ "." +:+ e) b) as [H|_]; [done |].
  rewrite <- append_assoc, prefix_append. simpl negb. cbv iota.
  replace (String.length b + 1)%nat with (String.length (b +:+ ".")).
  2:{ rewrite length_append. reflexivity. }
  rewrite slice_from_append.
  apply String.eqb_neq in Hl, Hs. rewrite Hl, Hs. reflexivity.
Qed.

(** The loop returns [true] only on the names the amended claim lists. *)
Lemma nameUsesSerial_inv (b nm : string) :
  nameUsesSerial b nm = true →
  nm = b ∨ ∃ e, nm = b +:+ "." +:+ e ∧ toLowerCase e ≠ "lock" ∧ toLowerCase e ≠ "serial".
Proof.
  unfold nameUsesSerial, startsWith.
  destruct (String.eqb_spec nm b) as [->|_]; [by left |].
  destruct (String.prefix (b +:+ ".") nm) eqn:Hp; simpl; [| done].
  destruct (prefix_inv _ _ Hp) as [e ->].
  replace (String.length b + 1)%nat with (String.length (b +:+ ".")).
  2:{ rewrite length_append. reflexivity. }
  rewrite slice_from_append.
  destruct (String.eqb_spec (toLowerCase e) "lock"); simpl; [done |].
  destruct (String.eqb_spec (toLowerCase e) "serial"); simpl; [done |].
  intros _. right. exists e. by rewrite append_assoc.
Qed.

Lemma isRealSerialUsed_false (d : gmap string node) (b : string) :
  isRealSerialUsed d b = false →
  ∀ nm, is_Some (d !! nm) → nameUsesSerial b nm = false.
Proof.
  unfold isRealSerialUsed, readdir. intros H nm [x Hx].
  destruct (nameUsesSerial b nm) eqn:E; [| done].
  assert (existsb (nameUsesSerial b) (map_to_list d).*1 = true) as Ht; [| congruence].
  apply existsb_exists. exists nm. split; [| done].
  apply list_elem_of_In, list_elem_of_fmap. exists (nm, x). split; [done |].
  by apply elem_of_map_to_list.
Qed.

Lemma isRealSerialUsed_true (d : gmap string node) (b : string) :
  isRealSerialUsed d b = true →
  ∃ nm, is_Some (d !! nm) ∧ nameUsesSerial b nm = true.
Proof.
  unfold isRealSerialUsed, readdir. intros H.
  apply existsb_exists in H as (nm & Hin & Hu).
  apply list_elem_of_In, list_elem_of_fmap in Hin as ([nm' x] & -> & Hx).
  apply elem_of_map_to_list in Hx. exists nm'. eauto.
Qed.

(** ** The serial allocator *)

Section allocator.
Variables (ttl : Z) (clock : N → Z) (name : string) (isVideo : bool) (ext : string).

Let sp (n : N) : serial_paths := serialPaths name (prefixOf isVideo) n ext.

Lemma baseNoExt_split (n : N) :
  baseNoExt (sp n)
  = (name +:+ "_" +:+ prefixOf isVideo +:+ "-") +:+ padStart4 (String_of_N n).
Proof.
  unfold sp, serialPaths, serialTag. simpl.
  rewrite !append_assoc. reflexivity.
Qed.

(** A reservation marker, of whatever candidate, never counts as a use of a
    serial. *)
Lemma lock_not_real (n k : N) : nameUsesSerial (baseNoExt (sp n)) (lockDir (sp k)) = false.
Proof.
  destruct (nameUsesSerial _ _) eqn:E; [| done]. exfalso.
  pose proof (nodot_padStart4 _ (nodot_String_of_N n)) as Hn.
  pose proof (nodot_padStart4 _ (nodot_String_of_N k)) as Hk.
  apply nameUsesSerial_inv in E.
  change (lockDir (sp k)) with (baseNoExt (sp k) +:+ "." +:+ "lock") in E.
  rewrite !baseNoExt_split in E.
  set (Q := name +:+ "_" +:+ prefixOf isVideo +:+ "-") in E.
  destruct E as [E | (e & E & Hl & _)]; rewrite !(append_assoc Q) in E.
  - apply append_inv_head in E. rewrite <- E in Hn.
    by apply nodot_no_dot_inside in Hn.
  - apply append_inv_head in E.
    destruct (nodot_split _ _ _ _ Hk Hn E) as [_ <-]. by apply Hl.
Qed.

Lemma tryRemoveStaleLock_frame (t : Z) (l : string) (d d1 : gmap string node) (b : bool) :
  tryRemoveStaleLock ttl t l d = (d1, b) → ∀ nm, nm ≠ l → d1 !! nm = d !! nm.
Proof.
  unfold tryRemoveStaleLock, rmrf. intros H nm Hne.
  destruct (d !! l); [destruct (_ <? _) |]; injection H as <- <-;
    by rewrite ?lookup_delete_ne.
Qed.

(** An iteration touches no entry but the candidate's own marker. *)
Lemma probe_frame (n : N) (d : gmap string node) :
  ∀ nm, nm ≠ lockDir (sp n) →
    match probe ttl clock name isVideo ext n d with
    | inl d1 => d1 !! nm = d !! nm
    | inr (d1, _) => d1 !! nm = d !! nm
    end.
Proof.
  intros nm Hne. unfold probe. fold (sp n).
  destruct (isRealSerialUsed d _); [done |].
  unfold mkdir. destruct (d !! lockDir (sp n)) eqn:El.
  - destruct (tryRemoveStaleLock _ _ _ _) as [d1 b] eqn:Et.
    eapply tryRemoveStaleLock_frame; eauto.
  - destruct (isRealSerialUsed (<[_ := _]> d) _); unfold rmrf;
      by rewrite ?lookup_delete_ne, ?lookup_insert_ne.
Qed.

(** What a returning iteration establishes. *)
Lemma probe_returns (n : N) (d d1 : gmap string node) (r : reservation) :
  probe ttl clock name isVideo ext n d = inr (d1, r) →
  isRealSerialUsed d (baseNoExt (sp n)) = false
  ∧ d !! lockDir (sp n) = None
  ∧ d1 = <[lockDir (sp n) := NDir (clock n)]> d
  ∧ r = {| res_finalPath := finalPath (sp n); res_lockDir := lockDir (sp n); res_n := n |}.
Proof.
  unfold probe. fold (sp n).
  destruct (isRealSerialUsed d _) eqn:Eu; [done |].
  unfold mkdir. destruct (d !! lockDir (sp n)) eqn:El.
  - by destruct (tryRemoveStaleLock _ _ _ _).
  - destruct (isRealSerialUsed (<[_ := _]> d) _); [done |]. intros ?; simplify_eq. done.
Qed.

Lemma reserveLoop_returns (left : nat) :
  ∀ (n : N) (d d' : gmap string node) (r : reservation),
    reserveLoop ttl clock name isVideo ext left n d = (d', Some r) →
    (n ≤ res_n r < n + N.of_nat left)%N
    ∧ r = {| res_finalPath := finalPath (sp (res_n r));
             res_lockDir := lockDir (sp (res_n r)); res_n := res_n r |}
    ∧ ∃ dn, isRealSerialUsed dn (baseNoExt (sp (res_n r))) = false
            ∧ d' = <[lockDir (sp (res_n r)) := NDir (clock (res_n r))]> dn
            ∧ ∀ nm, ¬ isLockName name isVideo ext nm → dn !! nm = d !! nm.
Proof.
  induction left as [|left IH]; intros n d d' r H; simpl in H; [done |].
  pose proof (probe_frame n d) as Hf.
  destruct (probe ttl clock name isVideo ext n d) as [d1 | [d1 r1]] eqn:Ep.
  - apply IH in H as (Hr & Hq & dn & Hu & Hd & Hfr).
    split; [lia |]. split; [done |]. exists dn. split; [done |]. split; [done |].
    intros nm Hnm. rewrite Hfr by done. apply Hf. intros ->. apply Hnm. by exists n.
  - injection H as <- <-. apply probe_returns in Ep as (Hu & Hl & -> & ->). simpl.
    split; [lia |]. split; [done |]. exists d. done.
Qed.

Lemma reserveLoop_count (left : nat) :
  ∀ (n : N) (d : gmap string node),
    let k := probeCount ttl clock name isVideo ext left n d in
    (k ≤ left)%nat
    ∧ match (reserveLoop ttl clock name isVideo ext left n d).2 with
      | Some r => res_n r = (n + N.of_nat k - 1)%N ∧ (1 ≤ k)%nat
      | None => k = left
      end.
Proof.
  induction left as [|left IH]; intros n d; simpl; [done |].
  destruct (probe ttl clock name isVideo ext n d) as [d1 | [d1 r1]] eqn:Ep.
  - destruct (IH (n + 1)%N d1) as [Hk Hr]. split; [lia |].
    destruct (reserveLoop _ _ _ _ _ _ _ _).2; [| lia].
    destruct Hr as [-> ?]. split; lia.
  - apply probe_returns in Ep as (_ & _ & _ & ->). simpl. split; [lia |].
    split; lia.
Qed.
End allocator.

(** C4 (as amended).  When the lock-creation attempt for candidate [n] fails
    because a marker already exists, a marker older than the staleness
    threshold is forcibly removed and a younger one is left alone; in both
    cases the allocator goes on with candidate [n + 1].  The serial freed by
    the removal is not retried within the same call. *)
Theorem stale_marker_removed_then_next_candidate
    (ttl : Z) (clock : N → Z) (name : string) (isVideo : bool) (ext : string)
    (left : nat) (n : N) (d : gmap string node) (st : node) :
  let sp := serialPaths name (prefixOf isVideo) n ext in
  isRealSerialUsed d (baseNoExt sp) = false →
  d !! lockDir sp = Some st →
  reserveLoop ttl clock name isVideo ext (S left) n d
  = reserveLoop ttl clock name isVideo ext left (n + 1)%N
      (if ttl <? clock n - node_mtime st then delete (lockDir sp) d else d).
Proof.
  intros sp Hu Hl. simpl. unfold probe. fold sp. rewrite Hu.
  unfold mkdir, tryRemoveStaleLock, rmrf. rewrite Hl.
  by destruct (ttl <? clock n - node_mtime st).
Qed.

(** C8 (as amended).  The allocator never returns a serial number [n] for which
    the directory already holds an entry named [<owner>_<PREFIX>-<NNNN>]
    exactly, or that name followed by a dot and an extension which, in lower
    case, is neither [lock] nor [serial]; the extension asked for plays no
    part, so a serial used under one such extension is never handed out again
    under another. *)
Theorem reserved_serial_not_in_use
    (ttl : Z) (clock : N → Z) (d d' : gmap string node) (name : string)
    (isVideo : bool) (ext : string) (r : reservation) :
  reserveSerialPath ttl clock d name isVideo ext = (d', Some r) →
  let base := name +:+ "_" +:+ serialTag (prefixOf isVideo) (res_n r) in
  res_finalPath r = base +:+ ext
  ∧ d !! base = None
  ∧ ∀ e, toLowerCase e ≠ "lock" → toLowerCase e ≠ "serial" →
         d !! (base +:+ "." +:+ e) = None.
Proof.
  intros H base. unfold reserveSerialPath in H.
  apply reserveLoop_returns in H as (_ & Hr & dn & Hu & _ & Hfr).
  change (baseNoExt (serialPaths name (prefixOf isVideo) (res_n r) ext)) with base in Hu.
  assert (∀ nm, nameUsesSerial base nm = true → d !! nm = None) as Hnone.
  { intros nm Hnm. rewrite <- Hfr.
    - destruct (dn !! nm) eqn:E; [| done].
      rewrite (isRealSerialUsed_false _ _ Hu nm) in Hnm; [done | by eexists].
    - intros [k ->]. unfold base in Hnm.
      change (name +:+ "_" +:+ serialTag (prefixOf isVideo) (res_n r))
        with (baseNoExt (serialPaths name (prefixOf isVideo) (res_n r) ext)) in Hnm.
      by rewrite lock_not_real in Hnm. }
  split; [by rewrite Hr |]. split.
  - apply Hnone, nameUsesSerial_exact.
  - intros e Hl Hs. by apply Hnone, nameUsesSerial_ext.
Qed.

(** C9.  [reserveSerialPath] terminates on every input (it is a total function
    whose loop is bounded by the candidate count): it examines at most one
    million candidates, returns a reservation whose serial is below one million
    after examining exactly the candidates up to it, or fails with the
    exhaustion error after examining exactly one million. *)
Theorem reserveSerialPath_bounded
    (ttl : Z) (clock : N → Z) (d : gmap string node) (name : string)
    (isVideo : bool) (ext : string) :
  let probes := probeCount ttl clock name isVideo ext (N.to_nat MAX_SERIAL) 0%N d in
  (N.of_nat probes ≤ 1000000)%N
  ∧ match (reserveSerialPath ttl clock d name isVideo ext).2 with
    | Some r => (res_n r < 1000000)%N ∧ N.of_nat probes = (res_n r + 1)%N
    | None => N.of_nat probes = 1000000%N
    end.
Proof.
  intros probes. unfold reserveSerialPath.
  destruct (reserveLoop_count ttl clock name isVideo ext (N.to_nat MAX_SERIAL) 0%N d)
    as [Hk Hr].
  fold probes in Hk, Hr.
  assert (N.of_nat (N.to_nat MAX_SERIAL) = 1000000%N) as Hm by apply N2Nat.id.
  split; [lia |].
  destruct (reserveLoop _ _ _ _ _ _ _ _).2 as [r|].
  - destruct Hr as [-> ?]. split; lia.
  - rewrite Hr. exact Hm.
Qed.

(** ** Chunk paths *)

Lemma Z_to_int_proper (z : Z) : Z.to_int z ≠ Decimal.Pos Decimal.Nil ∧ Z.to_int z ≠ Decimal.Neg Decimal.Nil.
Proof.
  split; intros H; pose proof (DecimalZ.of_to z) as Hz;
    rewrite H in Hz; simpl in Hz; subst z; discriminate H.
Qed.

Lemma String_of_jsnum_int_inj (a b : Z) :
  String_of_jsnum (JInt a) = String_of_jsnum (JInt b) → a = b.
Proof.
  simpl. intros H. apply DecimalZ.to_int_inj.
  destruct (Z_to_int_proper a), (Z_to_int_proper b).
  apply (f_equal NilZero.int_of_string) in H.
  rewrite !NilZero.isi in H by done. by injection H.
Qed.

Lemma getChunkPath_inj (u : string) (a b : Z) :
  getChunkPath u (JInt a) = getChunkPath u (JInt b) → a = b.
Proof.
  unfold getChunkPath. intros H.
  apply append_inv_head, append_inv_head in H. by apply String_of_jsnum_int_inj.
Qed.

(** ** The merge loop *)

Section merge.
Variables (uploadId : string) (data : nat → list byte).

Let key (i : nat) : string := getChunkPath uploadId (JInt (Z.of_nat i)).

Lemma key_inj (i j : nat) : key i = key j → i = j.
Proof. intros H. apply getChunkPath_inj in H. lia. Qed.

(** With chunks [i .. i + left - 1] on disk the loop consumes them in index
    order, appending each to the output and to the hash input alike. *)
Lemma mergeLoop_present (left : nat) :
  ∀ (i : nat) (st : merge_state),
    (∀ j, (i ≤ j < i + left)%nat → ms_chunks st !! key j = Some (data j)) →
    ∃ cf',
      mergeLoop uploadId left (N.of_nat i) st
      = ({| ms_chunks := cf';
            ms_out := ms_out st ++ mjoin (data <$> seq i left);
            ms_hasher := ms_hasher st ++ mjoin (data <$> seq i left) |}, inr tt)
      ∧ (∀ j, (i ≤ j < i + left)%nat → cf' !! key j = None)
      ∧ (∀ k, (∀ j, (i ≤ j < i + left)%nat → k ≠ key j) → cf' !! k = ms_chunks st !! k).
Proof.
  induction left as [|left IH]; intros i st Hall; simpl.
  - exists (ms_chunks st). rewrite !app_nil_r. destruct st; simpl.
    split; [done |]. split; [intros; lia | done].
  - rewrite nat_N_Z. fold (key i). rewrite (Hall i) by lia.
    replace (N.of_nat i + 1)%N with (N.of_nat (S i)) by lia.
    destruct (IH (S i) {| ms_chunks := delete (key i) (ms_chunks st);
                          ms_out := ms_out st ++ data i;
                          ms_hasher := hasher_update (ms_hasher st) (data i) |})
      as (cf' & -> & Hgone & Hkeep).
    { intros j Hj. simpl. rewrite lookup_delete_ne; [apply Hall; lia |].
      intros E. apply key_inj in E. lia. }
    simpl in *. exists cf'. unfold hasher_update. rewrite <- !app_assoc.
    split; [done |]. split.
    + intros j Hj. destruct (decide (j = i)) as [->|].
      * rewrite Hkeep; [apply lookup_delete_eq |].
        intros j' Hj' E. apply key_inj in E. lia.
      * apply Hgone. lia.
    + intros k Hk. rewrite Hkeep.
      * apply lookup_delete_ne. intros E. apply (Hk i); [lia | done].
      * intros j Hj. apply Hk. lia.
Qed.

(** The first missing chunk stops the loop; the chunks before it are gone
    from [chunkDir] by then and their bytes are in the output stream. *)
Lemma mergeLoop_missing (left : nat) :
  ∀ (i m : nat) (st : merge_state),
    (i ≤ m < i + left)%nat →
    (∀ j, (i ≤ j < m)%nat → ms_chunks st !! key j = Some (data j)) →
    ms_chunks st !! key m = None →
    ∃ cf',
      mergeLoop uploadId left (N.of_nat i) st
      = ({| ms_chunks := cf';
            ms_out := ms_out st ++ mjoin (data <$> seq i (m - i));
            ms_hasher := ms_hasher st ++ mjoin (data <$> seq i (m - i)) |},
         inl (N.of_nat m))
      ∧ (∀ j, (i ≤ j < m)%nat → cf' !! key j = None)
      ∧ (∀ k, (∀ j, (i ≤ j < m)%nat → k ≠ key j) → cf' !! k = ms_chunks st !! k).
Proof.
  induction left as [|left IH]; intros i m st Hm Hall Hmiss; [lia |].
  simpl. rewrite nat_N_Z. fold (key i).
  destruct (decide (i = m)) as [->|Hne].
  - rewrite Hmiss. exists (ms_chunks st). rewrite Nat.sub_diag. simpl.
    rewrite !app_nil_r. destruct st; simpl.
    split; [done |]. split; [intros; lia | done].
  - rewrite (Hall i) by lia.
    replace (N.of_nat i + 1)%N with (N.of_nat (S i)) by lia.
    destruct (IH (S i) m {| ms_chunks := delete (key i) (ms_chunks st);
                            ms_out := ms_out st ++ data i;
                            ms_hasher := hasher_update (ms_hasher st) (data i) |})
      as (cf' & -> & Hgone & Hkeep).
    { lia. }
    { intros j Hj. simpl. rewrite lookup_delete_ne; [apply Hall; lia |].
      intros E. apply key_inj in E. lia. }
    { simpl. rewrite lookup_delete_ne; [done |]. intros E. apply key_inj in E. lia. }
    simpl in *. exists cf'. unfold hasher_update.
    replace (m - i)%nat with (S (m - S i)) by lia. simpl. rewrite <- !app_assoc.
    split; [done |]. split.
    + intros j Hj. destruct (decide (j = i)) as [->|].
      * rewrite Hkeep; [apply lookup_delete_eq |].
        intros j' Hj' E. apply key_inj in E. lia.
      * apply Hgone. lia.
    + intros k Hk. rewrite Hkeep.
      * apply lookup_delete_ne. intros E. apply (Hk i); [lia | done].
      * intros j Hj. apply Hk. lia.
Qed.
End merge.

(** ** Assembly and finalize *)

Lemma truthy_nonempty (s : string) : s ≠ "" → truthy (Some s) = true.
Proof. by destruct s. Qed.

Lemma dedupeLookup_Some (hi : gmap string string) (sha existing : string) :
  dedupeLookup hi sha = Some existing ↔ hi !! sha = Some existing ∧ existing ≠ "".
Proof.
  unfold dedupeLookup. destruct (hi !! sha) as [[|c x]|]; simpl;
    split; try intros [? ?]; try intros ?; simplify_eq; done.
Qed.

Lemma assemble_present (P : platform) (uploadId : string) (total : Z) (tmpOut : string)
    (cf tf : gmap string (list byte)) (data : nat → list byte) :
  (∀ i : nat, Z.of_nat i < total →
     cf !! getChunkPath uploadId (JInt (Z.of_nat i)) = Some (data i)) →
  let whole := mjoin (data <$> seq 0 (Z.to_nat total)) in
  ∃ cf', assembleChunksToTemp P uploadId total tmpOut cf tf
         = (cf', <[tmpOut := whole]> tf, inr (sha256hex P whole))
         ∧ (∀ i : nat, Z.of_nat i < total →
              cf' !! getChunkPath uploadId (JInt (Z.of_nat i)) = None).
Proof.
  intros Hall whole. unfold assembleChunksToTemp.
  destruct (mergeLoop_present uploadId data (Z.to_nat total) 0
              {| ms_chunks := cf; ms_out := []; ms_hasher := createHash |})
    as (cf' & E & Hgone & _).
  { intros j Hj. apply Hall. lia. }
  change (N.of_nat 0) with 0%N in E. rewrite E. simpl.
  exists cf'. split; [done |]. intros i Hi. apply Hgone. lia.
Qed.

(** C1.  When the chunk files of indices [0 .. totalChunks - 1] are all on
    disk, the assembler writes to its output exactly the concatenation of the
    chunks in index order and returns the SHA-256 of that same byte sequence,
    taken from the accumulator fed during the merge (whatever the temp
    directory holds, the digest is the same: the merged file is not read
    back).  Finalize then reports that digest and stores those bytes: a saved
    answer carries the digest and the stored file is the concatenation, a
    deduplicated answer is the index's entry for the digest, and a failure
    after assembly leaves the assembled bytes in the temp file. *)
Theorem finalize_output_is_ordered_concatenation
    (P : platform) (users : gmap string string) (e : env) (m : finalize_req)
    (w : world) (user : string) (data : nat → list byte) :
  f_uploadId m ≠ "" → f_totalChunks m ≠ 0 → f_filename m ≠ "" → f_authKey m ≠ "" →
  lookupUser users (f_authKey m) = Some user →
  (∀ i : nat, Z.of_nat i < f_totalChunks m →
     chunkFiles w !! getChunkPath (f_uploadId m) (JInt (Z.of_nat i)) = Some (data i)) →
  let whole := mjoin (data <$> seq 0 (Z.to_nat (f_totalChunks m))) in
  let tempOut := ".merge." +:+ uuid e +:+ extname P (f_filename m) in
  (∃ cf', assembleChunksToTemp P (f_uploadId m) (f_totalChunks m) tempOut
            (chunkFiles w) (tmpFiles w)
          = (cf', <[tempOut := whole]> (tmpFiles w), inr (sha256hex P whole)))
  ∧ (∀ tf, (assembleChunksToTemp P (f_uploadId m) (f_totalChunks m) tempOut
              (chunkFiles w) tf).2 = inr (sha256hex P whole))
  ∧ match uploadManifest P users e (Some (FJson m)) w with
    | (w', RSaved savedAs sha) =>
        sha = sha256hex P whole
        ∧ uploads w' !! savedAs = Some (NFile whole (now e))
        ∧ e_hash <$> last (uploadLog w') = Some (sha256hex P whole)
    | (w', RDeduped existing) =>
        hashIndex w !! sha256hex P whole = Some existing
        ∧ e_hash <$> last (uploadLog w') = Some (sha256hex P whole)
    | (w', RError status _) =>
        status = 500 ∧ tmpFiles w' !! tempOut = Some whole
    | _ => False
    end.
Proof.
  intros Hid Htot Hfn Hak Huser Hall whole tempOut.
  destruct (assemble_present P (f_uploadId m) (f_totalChunks m) tempOut
              (chunkFiles w) (tmpFiles w) data Hall) as (cf' & Ea & _).
  fold whole in Ea.
  split; [by exists cf' |]. split.
  { intros tf.
    destruct (assemble_present P (f_uploadId m) (f_totalChunks m) tempOut
                (chunkFiles w) tf data Hall) as (cf2 & -> & _). done. }
  unfold uploadManifest.
  rewrite !truthy_nonempty by done.
  destruct (Z.eqb_spec (f_totalChunks m) 0) as [|_]; [done |]. simpl.
  rewrite Huser. fold tempOut. rewrite Ea.
  destruct (dedupeLookup (hashIndex w) (sha256hex P whole)) as [existing|] eqn:Ed.
  - apply dedupeLookup_Some in Ed as [Ed _]. simpl.
    split; [done |]. by rewrite last_snoc.
  - destruct (reserveSerialPath _ _ _ _ _ _) as [up [rsv|]] eqn:Er; simpl.
    2:{ split; [done |]. apply lookup_insert_eq. }
    unfold reserveSerialPath in Er.
    apply reserveLoop_returns in Er as (_ & Hr & dn & _ & Hup & _).
    unfold finalizeReservation. rewrite lookup_insert_eq.
    destruct (up !! res_finalPath rsv) as [[dat t|t]|] eqn:Ef; simpl;
      try (split; [done |]; split; [| by rewrite last_snoc]);
      try (split; [done | apply lookup_insert_eq]).
    all: unfold rmrf; rewrite lookup_delete_ne, ?lookup_insert_eq; [done |].
    all: intros E; rewrite <- E in Ef; rewrite Hr in Ef; simpl in Ef;
      rewrite Hup, lookup_insert_eq in Ef; done.
Qed.

(** C2 (the code at the failing input).  Upload [u1] has two chunks recorded
    and only chunk 0 on disk.  Finalize does not look at the chunks before it
    merges: the loop pipes chunk 0 into the output, then meets the missing
    chunk 1, and the caller gets the bare message [Assembly failed] with no
    list of indices.  A chunk file of length zero is not detected at all: the
    upload is stored. *)
Theorem finalize_checks_chunks_while_merging :
  mergeLoop "u1" 2 0%N
    {| ms_chunks := chunkFiles missingWorld; ms_out := []; ms_hasher := createHash |}
  = ({| ms_chunks := ∅; ms_out := ["A"%byte]; ms_hasher := ["A"%byte] |}, inl 1%N)
  ∧ (uploadManifest samplePlatform sampleUsers sampleEnv (Some (FJson sampleFinalize))
       missingWorld).2 = RError 500 "Assembly failed"
  ∧ (uploadManifest samplePlatform sampleUsers sampleEnv (Some (FJson sampleFinalize))
       emptyChunkWorld).2 = RSaved "Bob_IMG-0000.jpg" "A".
Proof. repeat split; vm_compute; reflexivity. Qed.

(** C3 (the code at the failing input).  On the same upload the failed
    finalize has unlinked chunk 0, which was on disk before the attempt, and
    has left the partial output file in the temp directory; only the manifest
    is as it was. *)
Theorem failed_merge_consumes_chunks :
  let w' := (uploadManifest samplePlatform sampleUsers sampleEnv
               (Some (FJson sampleFinalize)) missingWorld).1 in
  chunkFiles missingWorld !! "u1_chunk_0" = Some ["A"%byte]
  ∧ chunkFiles w' !! "u1_chunk_0" = None
  ∧ tmpFiles missingWorld !! ".merge.0000.jpg" = None
  ∧ is_Some (tmpFiles w' !! ".merge.0000.jpg")
  ∧ manifests w' = manifests missingWorld.
Proof.
  vm_compute. repeat split; try reflexivity. eexists. reflexivity.
Qed.

(** ** Deduplication *)

(** On a hit the loop body of the direct upload stores nothing. *)
Lemma storeStaged_hit (e : env) (authKey user existing : string) (s : staged)
    (w : world) (saved : list string) :
  hashIndex w !! s_sha256 s = Some existing → existing ≠ "" →
  storeStaged e authKey user s (w, saved)
  = ({| uploads := uploads w; tmpFiles := delete (s_tmpPath s) (tmpFiles w);
        chunkFiles := chunkFiles w; manifests := manifests w; hashIndex := hashIndex w;
        uploadLog := uploadLog w ++
          [mkEntry e authKey user (s_originalName s) existing (s_sha256 s) true];
        logFile := logFile w |}, Some saved).
Proof.
  intros Hh Hne. unfold storeStaged.
  by rewrite (proj2 (dedupeLookup_Some _ _ _) (conj Hh Hne)).
Qed.

Lemma directParts_one (P : platform) (users : gmap string string) (e : env)
    (key field filename mimetype : string) (data : list byte)
    (tf : gmap string (list byte)) :
  directParts P users e 0 [PField "authKey" key; PFile field filename mimetype data]
    ({| d_authKey := None; d_user := None; d_staged := [] |}, tf)
  = ({| d_authKey := Some (trim key); d_user := lookupUser users (trim key);
        d_staged := [{| s_tmpPath := stageName e 1; s_sha256 := sha256hex P data;
                        s_ext := extname P filename;
                        s_isVideo := (startsWith mimetype "video/"
                          || existsb (String.eqb (toLowerCase (extname P filename)))
                               videoExts)%bool;
                        s_originalName := filename |}] |},
     <[stageName e 1 := data]> tf).
Proof. reflexivity. Qed.

(** C6.  When the SHA-256 of the content is already in the hash index, under
    whatever owner and name, nothing is stored and no serial is reserved: the
    upload directory and the index are unchanged, the staged file is gone from
    the temp directory, and the log gains one entry with [deduped = true] and
    the existing saved name.  This holds for finalize, for the loop body of
    the direct upload at every staged file, and for a direct upload of one
    file. *)
Theorem duplicate_content_is_not_stored
    (P : platform) (users : gmap string string) (e : env) (w : world)
    (user existing : string) :
  existing ≠ "" →
  (* finalize *)
  (∀ (m : finalize_req) (data : nat → list byte),
     f_uploadId m ≠ "" → f_totalChunks m ≠ 0 → f_filename m ≠ "" → f_authKey m ≠ "" →
     lookupUser users (f_authKey m) = Some user →
     (∀ i : nat, Z.of_nat i < f_totalChunks m →
        chunkFiles w !! getChunkPath (f_uploadId m) (JInt (Z.of_nat i)) = Some (data i)) →
     let sha := sha256hex P (mjoin (data <$> seq 0 (Z.to_nat (f_totalChunks m)))) in
     hashIndex w !! sha = Some existing →
     ∃ w', uploadManifest P users e (Some (FJson m)) w = (w', RDeduped existing)
           ∧ uploads w' = uploads w
           ∧ hashIndex w' = hashIndex w
           ∧ tmpFiles w' !! (".merge." +:+ uuid e +:+ extname P (f_filename m)) = None
           ∧ uploadLog w' = uploadLog w ++
               [{| e_authKey := f_authKey m; e_fullName := user;
                  e_originalName := f_filename m; e_savedName := existing;
                  e_timestamp := isoTime e; e_hash := sha; e_deduped := true |}]
           ∧ logFile w' = uploadLog w')
  (* the loop body of the direct upload *)
  ∧ (∀ (authKey : string) (s : staged) (saved : list string),
       hashIndex w !! s_sha256 s = Some existing →
       ∃ w', storeStaged e authKey user s (w, saved) = (w', Some saved)
             ∧ uploads w' = uploads w
             ∧ hashIndex w' = hashIndex w
             ∧ tmpFiles w' !! s_tmpPath s = None
             ∧ uploadLog w' = uploadLog w ++
                 [{| e_authKey := authKey; e_fullName := user;
                    e_originalName := s_originalName s; e_savedName := existing;
                    e_timestamp := isoTime e; e_hash := s_sha256 s;
                    e_deduped := true |}])
  (* a direct upload of one file *)
  ∧ (∀ (key field filename mimetype : string) (data : list byte),
       trim key ≠ "" → lookupUser users (trim key) = Some user →
       hashIndex w !! sha256hex P data = Some existing →
       ∃ w', upload P users e [PField "authKey" key; PFile field filename mimetype data] w
             = (w', RFiles [])
             ∧ uploads w' = uploads w
             ∧ hashIndex w' = hashIndex w
             ∧ tmpFiles w' !! stageName e 1 = None
             ∧ uploadLog w' = uploadLog w ++
                 [{| e_authKey := trim key; e_fullName := user;
                    e_originalName := filename; e_savedName := existing;
                    e_timestamp := isoTime e; e_hash := sha256hex P data;
                    e_deduped := true |}]
             ∧ logFile w' = uploadLog w').
Proof.
  intros Hne. split; [| split].
  - intros m data Hid Htot Hfn Hak Huser Hall sha Hh.
    destruct (assemble_present P (f_uploadId m) (f_totalChunks m)
                (".merge." +:+ uuid e +:+ extname P (f_filename m))
                (chunkFiles w) (tmpFiles w) data Hall) as (cf' & Ea & _).
    unfold uploadManifest.
    rewrite !truthy_nonempty by done.
    destruct (Z.eqb_spec (f_totalChunks m) 0) as [|_]; [done |]. simpl.
    rewrite Huser, Ea. fold sha.
    rewrite (proj2 (dedupeLookup_Some _ _ _) (conj Hh Hne)).
    eexists. split; [reflexivity |]. simpl.
    repeat split. apply lookup_delete_eq.
  - intros authKey s saved Hh. rewrite (storeStaged_hit _ _ _ existing) by done.
    eexists. split; [reflexivity |]. simpl. repeat split. apply lookup_delete_eq.
  - intros key field filename mimetype data Hk Huser Hh.
    unfold upload. rewrite directParts_one.
    cbn [d_authKey d_user d_staged storeAll].
    rewrite Huser, (truthy_nonempty _ Hk).
    rewrite (storeStaged_hit _ _ _ existing) by done. cbn [fst snd].
    eexists. split; [reflexivity |]. simpl. repeat split. apply lookup_delete_eq.
Qed.

(** ** Resume status *)

(** C10.  A status query for an upload id that has no manifest on disk
    succeeds with [{received: []}], the very answer given for a manifest that
    lists no chunk; no not-found error is raised. *)
Theorem status_without_manifest_is_empty (id : string) (w : world) :
  id ≠ "" →
  manifests w !! getManifestPath id = None →
  uploadStatus id w = RStatus []
  ∧ ∀ m, m_received m = Some [] ∨ m_received m = None →
      uploadStatus id (set_manifests (<[getManifestPath id := MJson m]> (manifests w)) w)
      = uploadStatus id w.
Proof.
  intros Hid Hnone. unfold uploadStatus. rewrite (truthy_nonempty _ Hid). simpl.
  rewrite Hnone. split; [done |].
  intros m Hm. rewrite lookup_insert_eq. by destruct Hm as [-> | ->].
Qed.

(** ** The chunk receiver *)

Ltac case_fields :=
  repeat match goal with
         | |- context [String.eqb ?a ?b] => destruct (String.eqb_spec a b)
         end.

Lemma setField_withWrote (f val : string) (p : option string) (t s : bool) (v : chunk_vars) :
  setField f val (withWrote p t s v) = withWrote p t s (setField f val v).
Proof. unfold setField. case_fields; reflexivity. Qed.

Lemma readFields_withWrote (fs : list part) (p : option string) (t s : bool) (v : chunk_vars) :
  readFields fs (withWrote p t s v) = withWrote p t s (readFields fs v).
Proof.
  revert v. induction fs as [|[f val|? ? ? ?] fs IH]; intros v; simpl; [done | |apply IH].
  rewrite setField_withWrote. apply IH.
Qed.

Lemma setField_wrote (f val : string) (v : chunk_vars) :
  v_wrotePath (setField f val v) = v_wrotePath v
  ∧ v_wroteTemp (setField f val v) = v_wroteTemp v
  ∧ v_sawFile (setField f val v) = v_sawFile v.
Proof. unfold setField. case_fields; done. Qed.

Lemma readFields_wrote (fs : list part) (v : chunk_vars) :
  v_wrotePath (readFields fs v) = v_wrotePath v
  ∧ v_wroteTemp (readFields fs v) = v_wroteTemp v
  ∧ v_sawFile (readFields fs v) = v_sawFile v.
Proof.
  revert v. induction fs as [|[f val|? ? ? ?] fs IH]; intros v; simpl; [done | |apply IH].
  destruct (IH (setField f val v)) as (-> & -> & ->). apply setField_wrote.
Qed.

Lemma setField_other (f val : string) (v : chunk_vars) :
  (f ≠ "uploadId" → v_uploadId (setField f val v) = v_uploadId v)
  ∧ (f ≠ "index" → v_index (setField f val v) = v_index v).
Proof. unfold setField. case_fields; done. Qed.

Lemma readFields_uploadId (fs : list part) (v : chunk_vars) :
  "uploadId" ∉ fieldNames fs → v_uploadId (readFields fs v) = v_uploadId v.
Proof.
  revert v. induction fs as [|[f val|? ? ? ?] fs IH]; intros v; simpl; [done | |apply IH].
  intros Hn. apply not_elem_of_cons in Hn as [Hne Hn].
  rewrite IH by done. by apply setField_other.
Qed.

Lemma readFields_index (fs : list part) (v : chunk_vars) :
  "index" ∉ fieldNames fs → v_index (readFields fs v) = v_index v.
Proof.
  revert v. induction fs as [|[f val|? ? ? ?] fs IH]; intros v; simpl; [done | |apply IH].
  intros Hn. apply not_elem_of_cons in Hn as [Hne Hn].
  rewrite IH by done. by apply setField_other.
Qed.

Lemma fieldNames_app (a b : list part) : fieldNames (a ++ b) = fieldNames a ++ fieldNames b.
Proof. apply omap_app. Qed.

Lemma readFields_app (a b : list part) (v : chunk_vars) :
  readFields (a ++ b) v = readFields b (readFields a v).
Proof. apply fold_left_app. Qed.

Lemma chunkParts_app (e : env) (a b : list part) :
  ∀ k st, chunkParts e k (a ++ b) st = chunkParts e (k + length a) b (chunkParts e k a st).
Proof.
  induction a as [|p a IH]; intros k st; simpl.
  - by rewrite Nat.add_0_r.
  - rewrite IH. f_equal. lia.
Qed.

Lemma chunkParts_fields (e : env) (fs : list part) :
  Forall isField fs →
  ∀ k v cf, chunkParts e k fs (v, cf) = (readFields fs v, cf).
Proof.
  induction 1 as [|[f val|? ? ? ?] fs Hp _ IH]; intros k v cf; simpl; [done | apply IH | done].
Qed.

(** The body loop touches [chunkDir] only: whatever the answer, the other
    directories, the index and the log are those of the start, and an error
    answer leaves the manifests alone as well. *)
Lemma markReceived_frame (e : env) (u : string) (i t : jsnum) (fn : option string)
    (vid : bool) (w : world) :
  let r := markReceived e u i t fn vid w in
  uploads r.1 = uploads w ∧ tmpFiles r.1 = tmpFiles w ∧ chunkFiles r.1 = chunkFiles w
  ∧ hashIndex r.1 = hashIndex w ∧ uploadLog r.1 = uploadLog w ∧ logFile r.1 = logFile w
  ∧ (∀ st msg, r.2 = RError st msg → r.1 = w ∧ st = 500).
Proof.
  unfold markReceived.
  destruct (manifests w !! getManifestPath u) as [[m|]|]; simpl;
    try destruct (m_received m); simpl; repeat split; try done;
    try (intros; simplify_eq; done).
Qed.

Lemma writeChunkPart_cases (e : env) (k : nat) (data : list byte) (v : chunk_vars)
    (cf : gmap string (list byte)) :
  (∃ u idx, v_uploadId v = Some u ∧ u ≠ "" ∧ v_index v = Some idx
            ∧ writeChunkPart e k data (v, cf)
              = (withWrote (Some (getChunkPath u idx)) (v_wroteTemp v) true v,
                 <[getChunkPath u idx := data]> cf))
  ∨ ((truthy (v_uploadId v) = false ∨ v_index v = None)
     ∧ writeChunkPart e k data (v, cf)
       = (withWrote (Some (inflightName e k)) true true v,
          <[inflightName e k := data]> cf)).
Proof.
  unfold writeChunkPart, withWrote.
  destruct (v_index v) as [idx|] eqn:Ei; [| right; auto].
  destruct (v_uploadId v) as [[|c u]|] eqn:Eu; simpl.
  - right. auto.
  - left. exists (String c u), idx. done.
  - right. auto.
Qed.

Lemma chunkParts_cons_file (e : env) (k : nat) (fn mt : string) (data : list byte)
    (ps : list part) (st : chunk_vars * gmap string (list byte)) :
  chunkParts e k (PFile "chunk" fn mt data :: ps) st
  = chunkParts e (S k) ps (writeChunkPart e k data st).
Proof. reflexivity. Qed.

(** A request of fields around one [chunk] file part leaves no file unread. *)
Lemma findPart_unread_fields (ps : list part) :
  Forall isField ps → findPart unreadFile ps = None.
Proof.
  induction 1 as [|p ps Hp _ IH]; [done |].
  destruct p; [| done]. cbn [findPart unreadFile]. by rewrite IH.
Qed.

Lemma findPart_unread_form (before after : list part) (fn mt : string) (data : list byte) :
  Forall isField before → Forall isField after →
  findPart unreadFile (before ++ PFile "chunk" fn mt data :: after) = None.
Proof.
  intros Hb Ha. induction Hb as [|p ps Hp _ IH].
  - cbn [app findPart unreadFile]. change (String.eqb "chunk" "chunk") with true.
    cbn [negb]. by rewrite (findPart_unread_fields after Ha).
  - destruct p; [| done]. cbn [app findPart unreadFile]. by rewrite IH.
Qed.

(** Where the payload of the last file part ends up. *)
Lemma chunkParts_last_file (e : env) (before after : list part) (fn mt : string)
    (data : list byte) (cf : gmap string (list byte)) :
  Forall isField before → Forall isField after →
  let v1 := readFields before chunk_vars0 in
  let v := readFields (before ++ after) chunk_vars0 in
  chunkParts e 0 (before ++ PFile "chunk" fn mt data :: after) (chunk_vars0, cf)
  = (let r := writeChunkPart e (0 + length before) data (v1, cf) in
     (withWrote (v_wrotePath r.1) (v_wroteTemp r.1) (v_sawFile r.1) v, r.2)).
Proof.
  intros Hb Ha v1 v.
  rewrite chunkParts_app, (chunkParts_fields e before Hb), chunkParts_cons_file.
  fold v1. destruct (writeChunkPart e (0 + length before) data (v1, cf)) as [v2 cf2] eqn:Ew.
  rewrite (chunkParts_fields e after Ha). cbn [fst snd]. f_equal.
  unfold v. rewrite readFields_app. fold v1.
  destruct (writeChunkPart_cases e (0 + length before) data v1 cf)
    as [(u & idx & _ & _ & _ & E) | [_ E]]; rewrite E in Ew; injection Ew as <- <-;
    by rewrite readFields_withWrote.
Qed.

Lemma json_roundtrip (r : list (option Z)) : json_of_jsval <$> (jsval_of_json <$> r) = r.
Proof.
  induction r as [|x r IH]; [done |].
  rewrite !fmap_cons. f_equal; [by destruct x | exact IH].
Qed.

Lemma includes_received (r : list (option Z)) (i : Z) :
  Some i ∈ r → includes (jsval_of_json <$> r) (JInt i) = true.
Proof.
  intros Hin. unfold includes. apply existsb_exists.
  exists (VNum (JInt i)). split; [| by apply bool_decide_eq_true].
  apply list_elem_of_In, list_elem_of_fmap. by exists (Some i).
Qed.

Lemma writeJsonAtomic_lookup {A} (file : string) (obj : A) (d : gmap string A) :
  writeJsonAtomic file obj d !! file = Some obj.
Proof.
  unfold writeJsonAtomic, rename_file. rewrite lookup_insert_eq. apply lookup_insert_eq.
Qed.

(** Marking an index that the manifest already lists rewrites the manifest
    with the same [received] array. *)
Lemma markReceived_known (e : env) (u : string) (i : Z) (t : jsnum) (fn : option string)
    (vid : bool) (w : world) (m : manifest) (r : list (option Z)) :
  manifests w !! getManifestPath u = Some (MJson m) → m_received m = Some r → Some i ∈ r →
  ∃ w', markReceived e u (JInt i) t fn vid w = (w', RChunkOk (Some i))
        ∧ chunkFiles w' = chunkFiles w
        ∧ manifests w' !! getManifestPath u
          = Some (MJson {| m_uploadId := m_uploadId m; m_filename := m_filename m;
                           m_totalChunks := m_totalChunks m; m_isVideo := m_isVideo m;
                           m_received := Some r; m_mtime := now e |}).
Proof.
  intros Hm Hr Hin. unfold markReceived. rewrite Hm, Hr.
  rewrite (includes_received _ _ Hin), json_roundtrip.
  eexists. split; [reflexivity |]. split; [done |]. apply writeJsonAtomic_lookup.
Qed.

(** C7.  Submitting a chunk whose index the manifest already lists as received
    overwrites the chunk file with the submitted payload and leaves the
    manifest's [received] array as it was, with no second entry for the index.
    The request is any sequence of fields, none repeated, around one [chunk]
    file part; the fields may come before or after the payload. *)
Theorem resubmitted_chunk_is_idempotent
    (users : gmap string string) (e : env) (w : world) (before after : list part)
    (fn mt : string) (data : list byte) (k owner u : string) (i : Z) (t : jsnum)
    (m : manifest) (r : list (option Z)) :
  Forall isField before → Forall isField after →
  NoDup (fieldNames (before ++ after)) →
  let v := readFields (before ++ after) chunk_vars0 in
  v_authKey v = Some k → k ≠ "" → lookupUser users k = Some owner →
  v_uploadId v = Some u → u ≠ "" →
  v_index v = Some (JInt i) → v_totalChunks v = Some t →
  manifests w !! getManifestPath u = Some (MJson m) →
  m_received m = Some r → Some i ∈ r →
  ∃ w', uploadChunk users e (before ++ PFile "chunk" fn mt data :: after) w
        = (w', RChunkOk (Some i))
        ∧ chunkFiles w' !! getChunkPath u (JInt i) = Some data
        ∧ manifests w' !! getManifestPath u
          = Some (MJson {| m_uploadId := m_uploadId m; m_filename := m_filename m;
                           m_totalChunks := m_totalChunks m; m_isVideo := m_isVideo m;
                           m_received := Some r; m_mtime := now e |}).
Proof.
  intros Hb Ha Hnd v Hk Hkne Howner Hu Hune Hi Ht Hm Hr Hin.
  unfold uploadChunk. rewrite findPart_unread_form by done.
  rewrite chunkParts_last_file by done. fold v. cbv zeta.
  set (v1 := readFields before chunk_vars0).
  assert (v = readFields after v1) as Hv by apply readFields_app.
  assert (v_wroteTemp v1 = false) as Hwt by apply (readFields_wrote before chunk_vars0).
  rewrite fieldNames_app in Hnd.
  destruct (writeChunkPart_cases e (0 + length before) data v1 (chunkFiles w))
    as [(u1 & idx & Eu1 & _ & Ei1 & ->) | [_ ->]];
    cbn [fst snd withWrote v_authKey v_uploadId v_index v_totalChunks v_filename
         v_isVideo v_wrotePath v_wroteTemp v_sawFile];
    rewrite Hk, (truthy_nonempty _ Hkne), Howner, Hu, Hi, Ht, (truthy_nonempty _ Hune);
    cbn [negb orb default].
  - (* the fields named the chunk before the payload came: written in place *)
    assert (u1 = u ∧ idx = JInt i) as [-> ->].
    { assert ("uploadId" ∈ fieldNames before) as Hinu.
      { destruct (decide ("uploadId" ∈ fieldNames before)) as [|Hn]; [done |].
        unfold v1 in Eu1. by rewrite readFields_uploadId in Eu1. }
      assert ("index" ∈ fieldNames before) as Hini.
      { destruct (decide ("index" ∈ fieldNames before)) as [|Hn]; [done |].
        unfold v1 in Ei1. by rewrite readFields_index in Ei1. }
      apply NoDup_app in Hnd as (_ & Hdis & _).
      rewrite Hv, readFields_uploadId in Hu by (by apply Hdis).
      rewrite Hv, readFields_index in Hi by (by apply Hdis).
      split; congruence. }
    rewrite Hwt.
    destruct (markReceived_known e u i t (v_filename v) (v_isVideo v)
                (set_chunkFiles (<[getChunkPath u (JInt i) := data]> (chunkFiles w)) w)
                m r Hm Hr Hin) as (w' & -> & Hcf & Hmf).
    exists w'. split; [done |]. split; [| done].
    rewrite Hcf. apply lookup_insert_eq.
  - (* staged under a private name, then renamed to the chunk path *)
    unfold rename_file, id. rewrite lookup_insert_eq.
    destruct (markReceived_known e u i t (v_filename v) (v_isVideo v)
                (set_chunkFiles
                   (<[getChunkPath u (JInt i) := data]>
                      (delete (inflightName e (0 + length before))
                         (<[inflightName e (0 + length before) := data]> (chunkFiles w)))) w)
                m r Hm Hr Hin) as (w' & -> & Hcf & Hmf).
    exists w'. split; [done |]. split; [| done].
    rewrite Hcf. apply lookup_insert_eq.
Qed.

(** * The statements at concrete inputs *)

Ltac by_compute := vm_compute; first [reflexivity | exact I | done].

(** Both chunks of upload [u1] are on disk in [completeWorld]. *)
Lemma completeWorld_chunks (w : world) :
  chunkFiles w = chunkFiles completeWorld →
  ∀ i : nat, Z.of_nat i < f_totalChunks sampleFinalize →
    chunkFiles w !! getChunkPath (f_uploadId sampleFinalize) (JInt (Z.of_nat i))
    = Some (sampleData i).
Proof.
  intros -> i Hi. destruct i as [|[|i]]; [reflexivity | reflexivity |].
  simpl in Hi. lia.
Qed.

(** Finalize of the complete two-chunk upload stores [AB] under the digest of
    [AB]. *)
Lemma finalize_output_witness :
  (∃ cf', assembleChunksToTemp samplePlatform "u1" 2 ".merge.0000.jpg"
            (chunkFiles completeWorld) (tmpFiles completeWorld)
          = (cf', <[".merge.0000.jpg" := ["A"; "B"]%byte]> ∅, inr "AB"))
  ∧ (uploadManifest samplePlatform sampleUsers sampleEnv (Some (FJson sampleFinalize))
       completeWorld).2 = RSaved "Bob_IMG-0000.jpg" "AB".
Proof.
  split; [| by_compute].
  exact (proj1 (finalize_output_is_ordered_concatenation samplePlatform sampleUsers
                  sampleEnv sampleFinalize completeWorld "Bob" sampleData
                  ltac:(done) ltac:(done) ltac:(done) ltac:(done) eq_refl
                  (completeWorld_chunks completeWorld eq_refl))).
Defined.

(** A stale marker for serial 0: the loop removes it and goes on at 1. *)
Lemma stale_marker_witness :
  isRealSerialUsed staleDir "Bob_IMG-0000" = false
  ∧ staleDir !! "Bob_IMG-0000.lock" = Some (NDir 0)
  ∧ reserveLoop LOCK_TTL_DEFAULT (fun _ => 700000) "Bob" false ".jpg" 3 0%N staleDir
    = reserveLoop LOCK_TTL_DEFAULT (fun _ => 700000) "Bob" false ".jpg" 2 1%N
        (delete "Bob_IMG-0000.lock" staleDir).
Proof.
  split; [by_compute |]. split; [reflexivity |].
  apply (stale_marker_removed_then_next_candidate LOCK_TTL_DEFAULT (fun _ => 700000)
           "Bob" false ".jpg" 2 0%N staleDir (NDir 0)); by_compute.
Defined.

(** C4 as stated fails: with nothing but a stale marker for serial 0 in the
    directory, the marker is removed, a fresh attempt at candidate 0 would
    reserve it, and yet the call returns serial 1. *)
Lemma stale_marker_candidate_not_retried :
  isRealSerialUsed staleDir "Bob_IMG-0000" = false
  ∧ mkdir 700000 "Bob_IMG-0000.lock" staleDir = MkdirEEXIST
  ∧ tryRemoveStaleLock LOCK_TTL_DEFAULT 700000 "Bob_IMG-0000.lock" staleDir = (∅, true)
  ∧ (∃ d1 r, probe LOCK_TTL_DEFAULT (fun _ => 700000) "Bob" false ".jpg" 0%N ∅ = inr (d1, r)
             ∧ res_n r = 0%N)
  ∧ res_n <$> (reserveSerialPath LOCK_TTL_DEFAULT (fun _ => 700000) staleDir
                 "Bob" false ".jpg").2 = Some 1%N
  ∧ res_n <$> (reserveSerialPath LOCK_TTL_DEFAULT (fun _ => 700000) staleDir
                 "Bob" false ".jpg").2 ≠ Some 0%N.
Proof.
  split; [by_compute |]. split; [by_compute |]. split; [by_compute |].
  split; [do 2 eexists; split; by_compute |].
  split; [by_compute |]. vm_compute. discriminate.
Qed.

(** C5.  The code departs from the claim.  A chunk submission under a key
    that is not in the owner lookup is answered 403 and writes no manifest,
    but the handler validates only after its parts loop, when the payload
    has been written to the chunk path.  On a fresh upload the rejected
    request has created the chunk file; on an upload in progress it has
    replaced the bytes of a chunk that an authorised client had sent.  The
    direct upload route, given the same key, unlinks what it staged before
    it answers 403.  A submission whose index field is not a number is not
    rejected at all: it is answered ok, and its payload is stored under the
    chunk name of [NaN]. *)
Theorem unauthorized_chunk_reaches_disk :
  lookupUser sampleUsers "nope" = None
  ∧ (uploadChunk sampleUsers sampleEnv (sampleChunkParts "nope" "0" ["Z"%byte])
       emptyWorld).2 = RError 403 "Invalid authKey"
  ∧ chunkFiles emptyWorld !! "u1_chunk_0" = None
  ∧ chunkFiles (uploadChunk sampleUsers sampleEnv (sampleChunkParts "nope" "0" ["Z"%byte])
                  emptyWorld).1 !! "u1_chunk_0" = Some ["Z"%byte]
  ∧ manifests (uploadChunk sampleUsers sampleEnv (sampleChunkParts "nope" "0" ["Z"%byte])
                 emptyWorld).1 !! "u1.json" = None
  ∧ (uploadChunk sampleUsers sampleEnv (sampleChunkParts "nope" "0" ["Z"%byte])
       completeWorld).2 = RError 403 "Invalid authKey"
  ∧ chunkFiles completeWorld !! "u1_chunk_0" = Some ["A"%byte]
  ∧ chunkFiles (uploadChunk sampleUsers sampleEnv (sampleChunkParts "nope" "0" ["Z"%byte])
                  completeWorld).1 !! "u1_chunk_0" = Some ["Z"%byte]
  ∧ manifests (uploadChunk sampleUsers sampleEnv (sampleChunkParts "nope" "0" ["Z"%byte])
                 completeWorld).1 !! "u1.json" = manifests completeWorld !! "u1.json"
  ∧ (upload samplePlatform sampleUsers sampleEnv (sampleDirectParts "nope") emptyWorld).2
    = RError 403 "Invalid or missing authKey"
  ∧ tmpFiles (upload samplePlatform sampleUsers sampleEnv (sampleDirectParts "nope")
                emptyWorld).1 !! "1_a_pic.jpg" = None
  ∧ (uploadChunk sampleUsers sampleEnv (sampleChunkParts "k1" "x" ["Z"%byte])
       emptyWorld).2 = RChunkOk None
  ∧ chunkFiles (uploadChunk sampleUsers sampleEnv (sampleChunkParts "k1" "x" ["Z"%byte])
                  emptyWorld).1 !! "u1_chunk_NaN" = Some ["Z"%byte].
Proof. repeat split; by_compute. Qed.

(** Bob finalizes bytes that Alice has stored. *)
Lemma duplicate_content_witness :
  ∃ w', uploadManifest samplePlatform sampleUsers sampleEnv (Some (FJson sampleFinalize))
          dupWorld = (w', RDeduped "Alice_IMG-0000.jpg")
        ∧ uploads w' = uploads dupWorld
        ∧ hashIndex w' = hashIndex dupWorld
        ∧ tmpFiles w' !! ".merge.0000.jpg" = None
        ∧ uploadLog w' = [{| e_authKey := "k1"; e_fullName := "Bob"; e_originalName := "a.jpg";
               e_savedName := "Alice_IMG-0000.jpg";
               e_timestamp := "2025-01-01T00:00:00.000Z"; e_hash := "AB";
               e_deduped := true |}]
        ∧ logFile w' = uploadLog w'.
Proof.
  exact (proj1 (duplicate_content_is_not_stored samplePlatform sampleUsers sampleEnv
                  dupWorld "Bob" "Alice_IMG-0000.jpg" ltac:(done))
           sampleFinalize sampleData
           ltac:(done) ltac:(done) ltac:(done) ltac:(done) eq_refl
           (completeWorld_chunks dupWorld eq_refl) eq_refl).
Defined.

(** Chunk 1 of upload [u1] sent again, with other bytes. *)
Lemma resubmitted_chunk_witness :
  ∃ w', uploadChunk sampleUsers sampleEnv (sampleChunkParts "k1" "1" ["Z"%byte]) completeWorld
        = (w', RChunkOk (Some 1))
        ∧ chunkFiles w' !! "u1_chunk_1" = Some ["Z"%byte]
        ∧ manifests w' !! "u1.json"
          = Some (MJson {| m_uploadId := "u1"; m_filename := Some "a.jpg";
                           m_totalChunks := Some 2; m_isVideo := false;
                           m_received := Some [Some 0; Some 1]; m_mtime := 700000 |}).
Proof.
  apply (resubmitted_chunk_is_idempotent sampleUsers sampleEnv completeWorld
           [PField "authKey" "k1"; PField "uploadId" "u1"; PField "index" "1";
            PField "totalChunks" "2"; PField "hash" "u1"; PField "filename" "a.jpg";
            PField "isVideo" "false"] []
           "a.jpg.part" "application/octet-stream" ["Z"%byte]
           "k1" "Bob" "u1" 1 (JInt 2) (sampleManifest [Some 0; Some 1]) [Some 0; Some 1]).
  - repeat constructor.
  - constructor.
  - apply (bool_decide_unpack _). by_compute.
  - reflexivity.
  - done.
  - reflexivity.
  - reflexivity.
  - done.
  - reflexivity.
  - reflexivity.
  - reflexivity.
  - reflexivity.
  - apply (bool_decide_unpack _). by_compute.
Defined.

(** The allocation on [sampleDir] returns serial 2, which nothing uses. *)
Lemma reserved_serial_witness :
  sampleDir !! "Bob_IMG-0002" = None
  ∧ ∀ e, toLowerCase e ≠ "lock" → toLowerCase e ≠ "serial" →
         sampleDir !! ("Bob_IMG-0002" +:+ "." +:+ e) = None.
Proof.
  assert (reserveSerialPath LOCK_TTL_DEFAULT (fun _ => 700000) sampleDir "Bob" false ".png"
          = (<["Bob_IMG-0002.lock" := NDir 700000]> (<["Bob_IMG-0001.jpg" := NFile [] 5]> ∅),
             Some {| res_finalPath := "Bob_IMG-0002.png";
                     res_lockDir := "Bob_IMG-0002.lock"; res_n := 2 |})) as H
    by by_compute.
  exact (proj2 (reserved_serial_not_in_use _ _ _ _ _ _ _ _ H)).
Defined.

(** C8 as stated fails: the directory holds an entry named after serial 0
    followed by a suffix that is neither [.lock] nor [.serial], and serial 0
    is returned. *)
Lemma serial_returned_despite_suffixed_entry :
  is_Some (suffixDir !! ("Bob_IMG-0000" +:+ "_v2.jpg"))
  ∧ "_v2.jpg" ≠ ".lock" ∧ "_v2.jpg" ≠ ".serial"
  ∧ (reserveSerialPath LOCK_TTL_DEFAULT (fun _ => 700000) suffixDir "Bob" false ".png").2
    = Some {| res_finalPath := "Bob_IMG-0000.png"; res_lockDir := "Bob_IMG-0000.lock";
              res_n := 0 |}.
Proof.
  split; [eexists; by_compute |]. split; [done |]. split; [done |]. by_compute.
Qed.

(** A resume probe for an upload nobody has started. *)
Lemma status_without_manifest_witness :
  uploadStatus "u9" emptyWorld = RStatus []
  ∧ uploadStatus "u9" (set_manifests {[ "u9.json" := MJson (sampleManifest []) ]} emptyWorld)
    = uploadStatus "u9" emptyWorld.
Proof.
  destruct (status_without_manifest_is_empty "u9" emptyWorld ltac:(done) eq_refl)
    as [H1 H2].
  split; [exact H1 |]. exact (H2 (sampleManifest []) (or_introl eq_refl)).
Defined.

(** * Further facts about the model *)

(** ** Saved names in the hash index are never empty *)

Lemma hashIndexOk_insert (hi : gmap string string) (h s : string) :
  hashIndexOk hi → s ≠ "" → hashIndexOk (<[h := s]> hi).
Proof.
  intros Hok Hs h' s'. rewrite lookup_insert. case_decide; [congruence | apply Hok].
Qed.

Lemma loadHashIndex_ok (log : list log_entry) : hashIndexOk (loadHashIndex log).
Proof.
  unfold loadHashIndex.
  assert (∀ hi, hashIndexOk hi →
    hashIndexOk (fold_left
      (fun hi e =>
         if (truthy (Some (e_hash e)) && truthy (Some (e_savedName e))
             && negb (bool_decide (is_Some (hi !! e_hash e))))%bool
         then <[e_hash e := e_savedName e]> hi else hi) log hi)) as H.
  { induction log as [|e log IH]; intros hi Hok; cbn [fold_left]; [done |].
    apply IH. destruct (truthy (Some (e_hash e))); cbn [andb]; [| done].
    destruct (truthy (Some (e_savedName e))) eqn:Et; cbn [andb]; [| done].
    destruct (negb _); [| done]. apply hashIndexOk_insert; [done |].
    intros E. by rewrite E in Et. }
  apply H. intros h s. by rewrite lookup_empty.
Qed.

Lemma finalPath_nonempty (name prefix ext : string) (n : N) :
  finalPath (serialPaths name prefix n ext) ≠ "".
Proof.
  intros H. apply (f_equal String.length) in H. simpl in H.
  rewrite !length_append in H. simpl in H. lia.
Qed.

Lemma reserveSerialPath_finalPath_nonempty (ttl : Z) (clock : N → Z)
    (d d' : gmap string node) (name : string) (isVideo : bool) (ext : string)
    (r : reservation) :
  reserveSerialPath ttl clock d name isVideo ext = (d', Some r) → res_finalPath r ≠ "".
Proof.
  intros H. apply reserveLoop_returns in H as (_ & -> & _). apply finalPath_nonempty.
Qed.

Lemma uploadManifest_hashIndexOk (P : platform) (users : gmap string string) (e : env)
    (field : option manifest_field) (w : world) :
  hashIndexOk (hashIndex w) → hashIndexOk (hashIndex (uploadManifest P users e field w).1).
Proof.
  intros Hok. unfold uploadManifest.
  destruct field as [[|m]|]; [done | | done].
  destruct (_ || _ || _ || _)%bool; [done |].
  destruct (lookupUser users (f_authKey m)); [| done].
  destruct (assembleChunksToTemp _ _ _ _ _ _) as [[cf tf] [i|sha]]; [done |].
  destruct (dedupeLookup _ _); [done |].
  destruct (reserveSerialPath _ _ _ _ _ _) as [up [rsv|]] eqn:Er; [| done].
  destruct (finalizeReservation _ _ _ _ _ _) as [[tf' up'] [|]]; [| done].
  simpl. apply hashIndexOk_insert; [done |].
  by eapply reserveSerialPath_finalPath_nonempty.
Qed.

Lemma storeStaged_hashIndexOk (e : env) (authKey user : string) (s : staged)
    (w : world) (saved : list string) :
  hashIndexOk (hashIndex w) →
  hashIndexOk (hashIndex (storeStaged e authKey user s (w, saved)).1).
Proof.
  intros Hok. unfold storeStaged.
  destruct (dedupeLookup _ _); [done |].
  destruct (reserveSerialPath _ _ _ _ _ _) as [up [rsv|]] eqn:Er; [| done].
  destruct (finalizeReservation _ _ _ _ _ _) as [[tf' up'] [|]]; [| done].
  simpl. apply hashIndexOk_insert; [done |].
  by eapply reserveSerialPath_finalPath_nonempty.
Qed.

Lemma storeAll_hashIndexOk (e : env) (authKey user : string) (ss : list staged) :
  ∀ (w : world) (saved : list string),
    hashIndexOk (hashIndex w) →
    hashIndexOk (hashIndex (storeAll e authKey user ss (w, saved)).1).
Proof.
  induction ss as [|s ss IH]; intros w saved Hok; cbn [storeAll fst]; [done |].
  pose proof (storeStaged_hashIndexOk e authKey user s w saved Hok) as H1.
  destruct (storeStaged e authKey user s (w, saved)) as [w1 [saved1|]]; [| done].
  by apply IH.
Qed.

Lemma upload_hashIndexOk (P : platform) (users : gmap string string) (e : env)
    (ps : list part) (w : world) :
  hashIndexOk (hashIndex w) → hashIndexOk (hashIndex (upload P users e ps w).1).
Proof.
  intros Hok. unfold upload.
  destruct (directParts _ _ _ _ _ _) as [v tf].
  destruct (if truthy (d_authKey v) then d_user v else None) as [user|]; [| done].
  pose proof (storeAll_hashIndexOk e (default "" (d_authKey v)) user (d_staged v)
                (set_tmpFiles tf w) [] Hok) as H1.
  by destruct (storeAll _ _ _ _ _) as [w1 [saved|]].
Qed.

(** ** What a failed merge leaves behind, in general *)

(** When chunks [0 .. m - 1] are on disk and chunk [m] is not, the assembler
    reports chunk [m] after unlinking every chunk before it; the output file
    exists and holds what was merged so far. *)
Lemma assemble_missing (P : platform) (uploadId : string) (total : Z) (tmpOut : string)
    (cf tf : gmap string (list byte)) (data : nat → list byte) (m : nat) :
  Z.of_nat m < total →
  (∀ i : nat, (i < m)%nat →
     cf !! getChunkPath uploadId (JInt (Z.of_nat i)) = Some (data i)) →
  cf !! getChunkPath uploadId (JInt (Z.of_nat m)) = None →
  ∃ cf', assembleChunksToTemp P uploadId total tmpOut cf tf
         = (cf', <[tmpOut := mjoin (data <$> seq 0 m)]> tf, inl (N.of_nat m))
         ∧ (∀ i : nat, (i < m)%nat →
              cf' !! getChunkPath uploadId (JInt (Z.of_nat i)) = None).
Proof.
  intros Hm Hall Hmiss. unfold assembleChunksToTemp.
  destruct (mergeLoop_missing uploadId data (Z.to_nat total) 0 m
              {| ms_chunks := cf; ms_out := []; ms_hasher := createHash |})
    as (cf' & E & Hgone & _).
  { lia. }
  { intros j Hj. apply Hall. lia. }
  { done. }
  change (N.of_nat 0) with 0%N in E. rewrite E, Nat.sub_0_r. simpl.
  exists cf'. split; [done |]. intros i Hi. apply Hgone. lia.
Qed.

(** * Further properties of the code *)

(** ** Serial tags are injective *)

Lemma N_to_uint_nonnil (n : N) : N.to_uint n ≠ Decimal.Nil.
Proof.
  intros H. pose proof (DecimalN.Unsigned.of_to n) as Hn.
  rewrite H in Hn. simpl in Hn. subst n. discriminate H.
Qed.

Lemma digitsValue_String_of_N (n : N) : digitsValue (String_of_N n) = Some n.
Proof.
  unfold digitsValue, String_of_N, NilZero.string_of_uint.
  pose proof (N_to_uint_nonnil n) as Hn.
  destruct (N.to_uint n) eqn:E; try done;
    rewrite <- E, NilEmpty.usu; simpl; by rewrite DecimalN.Unsigned.of_to.
Qed.

Lemma digitsValue_zero (s : string) : digitsValue (String "0" s) = digitsValue s.
Proof.
  unfold digitsValue. simpl. by destruct (NilEmpty.uint_of_string s).
Qed.

Lemma digitsValue_padStart4 (s : string) : digitsValue (padStart4 s) = digitsValue s.
Proof.
  unfold padStart4. generalize (4 - String.length s)%nat. intros k.
  induction k as [|k IH]; [done |].
  replace (String.concat "" (replicate (S k) "0") +:+ s)
    with (String "0" (String.concat "" (replicate k "0") +:+ s)).
  - by rewrite digitsValue_zero.
  - simpl. destruct (replicate k "0") eqn:E; [by destruct k | done].
Qed.

Lemma serialTag_inj (prefix : string) (n k : N) :
  serialTag prefix n = serialTag prefix k → n = k.
Proof.
  unfold serialTag. intros H. apply append_inv_head, append_inv_head in H.
  apply (f_equal digitsValue) in H.
  rewrite !digitsValue_padStart4, !digitsValue_String_of_N in H. congruence.
Qed.

Lemma lockDir_inj (name prefix ext ext' : string) (n k : N) :
  lockDir (serialPaths name prefix n ext) = lockDir (serialPaths name prefix k ext') → n = k.
Proof.
  simpl. intros H.
  assert (String.length (name +:+ "_" +:+ serialTag prefix n)
          = String.length (name +:+ "_" +:+ serialTag prefix k)) as Hl.
  { apply (f_equal String.length) in H. rewrite !length_append in H.
    rewrite !length_append. simpl in *. lia. }
  assert (name +:+ "_" +:+ serialTag prefix n = name +:+ "_" +:+ serialTag prefix k) as Hb.
  { revert Hl H. generalize (name +:+ "_" +:+ serialTag prefix n),
      (name +:+ "_" +:+ serialTag prefix k).
    intros a. induction a as [|c a IH]; intros [|c' b]; str_simpl; try done.
    intros Hl H. injection H as -> H. f_equal. apply IH; [lia | done]. }
  apply append_inv_head, append_inv_head in Hb. by apply serialTag_inj in Hb.
Qed.

(** ** The allocator returns the least free candidate *)

Section least.
Variables (ttl : Z) (clock : N → Z) (name : string) (isVideo : bool) (ext : string).
Variable d : gmap string node.

Let sp (n : N) : serial_paths := serialPaths name (prefixOf isVideo) n ext.

(** The used-check only looks at entries that are not reservation markers. *)
Lemma used_agree (d1 d2 : gmap string node) (n : N) :
  (∀ nm, ¬ isLockName name isVideo ext nm → d1 !! nm = d2 !! nm) →
  isRealSerialUsed d1 (baseNoExt (sp n)) = isRealSerialUsed d2 (baseNoExt (sp n)).
Proof.
  assert (∀ a b : gmap string node,
            (∀ nm, ¬ isLockName name isVideo ext nm → a !! nm = b !! nm) →
            isRealSerialUsed a (baseNoExt (sp n)) = true →
            isRealSerialUsed b (baseNoExt (sp n)) = true) as Hmono.
  { intros a b Hab Ha. apply isRealSerialUsed_true in Ha as (nm & Hin & Hu).
    destruct (isRealSerialUsed b (baseNoExt (sp n))) eqn:Eb; [done |].
    rewrite (isRealSerialUsed_false _ _ Eb nm) in Hu; [done |].
    rewrite <- Hab; [done |]. intros [k ->].
    unfold sp in Hu. by rewrite lock_not_real in Hu. }
  intros H.
  destruct (isRealSerialUsed d1 _) eqn:E1, (isRealSerialUsed d2 _) eqn:E2; try done.
  - apply (Hmono d1 d2) in E1; [congruence | done].
  - apply (Hmono d2 d1) in E2; [congruence |]. intros nm Hnm. symmetry. by apply H.
Qed.

Lemma probe_free (n : N) (dn : gmap string node) :
  loopInv name isVideo ext d n dn →
  match probe ttl clock name isVideo ext n dn with
  | inr _ => isFree d name isVideo n = true
  | inl d1 => isFree d name isVideo n = false ∧ loopInv name isVideo ext d (n + 1) d1
  end.
Proof.
  intros [Hnl Hl].
  change (∀ j, (n ≤ j)%N → dn !! lockDir (sp j) = d !! lockDir (sp j)) in Hl.
  unfold probe, isFree. fold (sp n).
  change (baseNoExt (serialPaths name (prefixOf isVideo) n "")) with (baseNoExt (sp n)).
  change (lockDir (serialPaths name (prefixOf isVideo) n "")) with (lockDir (sp n)).
  rewrite (used_agree dn d n Hnl).
  destruct (isRealSerialUsed d (baseNoExt (sp n))) eqn:Eu.
  { split; [done |]. split; [done |]. intros j Hj. apply Hl. lia. }
  unfold mkdir. rewrite <- (Hl n) by lia.
  destruct (dn !! lockDir (sp n)) as [st|] eqn:El.
  - destruct (tryRemoveStaleLock ttl (clock n) (lockDir (sp n)) dn) as [d1 b] eqn:Et.
    pose proof (tryRemoveStaleLock_frame ttl _ _ _ _ _ Et) as Hf.
    split; [done |]. split.
    + intros nm Hnm. rewrite Hf; [by apply Hnl |]. intros ->. apply Hnm. by exists n.
    + intros j Hj. rewrite Hf; [apply Hl; lia |].
      intros E. apply lockDir_inj in E. lia.
  - rewrite (used_agree (<[lockDir (sp n) := NDir (clock n)]> dn) d n), Eu; [done |].
    intros nm Hnm. rewrite lookup_insert_ne; [by apply Hnl |].
    intros <-. apply Hnm. by exists n.
Qed.

Lemma reserveLoop_least (left : nat) :
  ∀ (n : N) (dn : gmap string node),
    loopInv name isVideo ext d n dn →
    match (reserveLoop ttl clock name isVideo ext left n dn).2 with
    | Some r =>
        (n ≤ res_n r < n + N.of_nat left)%N
        ∧ isFree d name isVideo (res_n r) = true
        ∧ ∀ k, (n ≤ k < res_n r)%N → isFree d name isVideo k = false
    | None => ∀ k, (n ≤ k < n + N.of_nat left)%N → isFree d name isVideo k = false
    end.
Proof.
  induction left as [|left IH]; intros n dn Hinv; simpl; [intros; lia |].
  pose proof (probe_free n dn Hinv) as Hp.
  destruct (probe ttl clock name isVideo ext n dn) as [d1 | [d1 r1]] eqn:Ep.
  - destruct Hp as [Hnf Hinv1]. specialize (IH (n + 1)%N d1 Hinv1).
    destruct (reserveLoop ttl clock name isVideo ext left (n + 1) d1).2 as [r|].
    + destruct IH as (Hr & Hfree & Hleast). split; [lia |]. split; [done |].
      intros k Hk. destruct (decide (k = n)) as [->|]; [done |]. apply Hleast. lia.
    + intros k Hk. destruct (decide (k = n)) as [->|]; [done |]. apply IH. lia.
  - apply probe_returns in Ep as (_ & _ & _ & ->). simpl.
    split; [lia |]. split; [done |]. intros; lia.
Qed.

Lemma loopInv_start : loopInv name isVideo ext d 0 d.
Proof. split; done. Qed.

(** What one iteration does to the directory. *)
Lemma probe_effect (n : N) (dn : gmap string node) :
  match probe ttl clock name isVideo ext n dn with
  | inl d1 =>
      d1 = dn
      ∨ ∃ st, dn !! lockDir (sp n) = Some st ∧ ttl < clock n - node_mtime st
              ∧ d1 = delete (lockDir (sp n)) dn
  | inr (d1, _) =>
      dn !! lockDir (sp n) = None ∧ d1 = <[lockDir (sp n) := NDir (clock n)]> dn
  end.
Proof.
  unfold probe. fold (sp n).
  destruct (isRealSerialUsed dn (baseNoExt (sp n))); [by left |].
  unfold mkdir, tryRemoveStaleLock, rmrf.
  destruct (dn !! lockDir (sp n)) as [st|] eqn:El.
  - destruct (Z.ltb_spec ttl (clock n - node_mtime st)) as [Hs|_]; [| by left].
    right. exists st. split; [done |]. split; [exact Hs | done].
  - destruct (isRealSerialUsed (<[_ := _]> dn) _); [| done].
    left. by rewrite delete_insert_eq, delete_id.
Qed.

(** The only changes of a whole run: stale markers of candidates the loop
    passed are removed, and the marker of the returned serial is created. *)
Lemma reserveLoop_effect (left : nat) :
  ∀ (n : N) (dn : gmap string node) (nm : string),
    let res := reserveLoop ttl clock name isVideo ext left n dn in
    res.1 !! nm = dn !! nm
    ∨ (∃ k st, (n ≤ k)%N ∧ nm = lockDir (sp k) ∧ dn !! nm = Some st
               ∧ ttl < clock k - node_mtime st ∧ res.1 !! nm = None)
    ∨ (∃ r, res.2 = Some r ∧ (n ≤ res_n r)%N ∧ nm = lockDir (sp (res_n r))
            ∧ dn !! nm = None ∧ res.1 !! nm = Some (NDir (clock (res_n r)))).
Proof.
  induction left as [|left IH]; intros n dn nm; cbv zeta; cbn [reserveLoop]; [by left |].
  pose proof (probe_effect n dn) as He. pose proof (probe_frame ttl clock name isVideo ext n dn nm) as Hf.
  destruct (probe ttl clock name isVideo ext n dn) as [d1 | [d1 r1]] eqn:Ep.
  - specialize (IH (n + 1)%N d1 nm). cbv zeta in IH.
    destruct (decide (nm = lockDir (sp n))) as [->|Hne].
    + (* later iterations leave this marker alone *)
      assert ((reserveLoop ttl clock name isVideo ext left (n + 1) d1).1 !! lockDir (sp n)
              = d1 !! lockDir (sp n)) as Hsame.
      { destruct IH as [H | [(k & st & Hk & E & _) | (r & _ & Hk & E & _)]]; [done | |];
          apply lockDir_inj in E; lia. }
      rewrite Hsame. destruct He as [-> | (st & Hst & Hstale & ->)]; [by left |].
      right. left. exists n, st. rewrite lookup_delete_eq. repeat split; done.
    + rewrite <- (Hf Hne).
      destruct IH as [H | [(k & st & Hk & E & H1 & H2 & H3) | (r & Hr & Hk & E & H1 & H2)]].
      * by left.
      * right. left. exists k, st. repeat split; try done. lia.
      * right. right. exists r. repeat split; try done. lia.
  - cbn [fst snd]. apply probe_returns in Ep as (_ & Hl & -> & ->).
    destruct (decide (nm = lockDir (sp n))) as [->|Hne].
    + right. right. eexists. rewrite lookup_insert_eq. cbn [res_n].
      repeat split; done.
    + left. by rewrite lookup_insert_ne.
Qed.
End least.

Lemma isRealSerialUsed_intro (d : gmap string node) (b nm : string) :
  is_Some (d !! nm) → nameUsesSerial b nm = true → isRealSerialUsed d b = true.
Proof.
  intros Hin Hu. destruct (isRealSerialUsed d b) eqn:E; [done |].
  by rewrite (isRealSerialUsed_false d b E nm Hin) in Hu.
Qed.

Lemma append_empty_r (s : string) : s +:+ "" = s.
Proof. induction s as [|c s IH]; str_simpl; [done | by rewrite IH]. Qed.

(** A final path made of the base and a real extension counts as a use. *)
Lemma nameUsesSerial_finalPath (b ext : string) :
  isExtension ext →
  (∀ e, ext = "." +:+ e → toLowerCase e ≠ "lock" ∧ toLowerCase e ≠ "serial") →
  nameUsesSerial b (b +:+ ext) = true.
Proof.
  intros [-> | [e ->]] Hc.
  - rewrite append_empty_r. apply nameUsesSerial_exact.
  - destruct (Hc e eq_refl). by apply nameUsesSerial_ext.
Qed.

(** X1.  The serial [reserveSerialPath] returns is free in the directory it
    was given (no entry uses it, no marker of it exists), and no smaller
    candidate is: the allocator hands out the least free serial. *)
Theorem reserve_returns_least_free
    (ttl : Z) (clock : N → Z) (d d' : gmap string node) (name : string)
    (isVideo : bool) (ext : string) (r : reservation) :
  reserveSerialPath ttl clock d name isVideo ext = (d', Some r) →
  isFree d name isVideo (res_n r) = true
  ∧ ∀ k, (k < res_n r)%N → isFree d name isVideo k = false.
Proof.
  intros H. unfold reserveSerialPath in H.
  pose proof (reserveLoop_least ttl clock name isVideo ext d (N.to_nat MAX_SERIAL) 0 d
                (loopInv_start name isVideo ext d)) as Hl.
  rewrite H in Hl. cbn [snd] in Hl. destruct Hl as (_ & Hfree & Hleast).
  split; [done |]. intros k Hk. apply Hleast. lia.
Qed.

(** X2.  [reserveSerialPath] fails with the exhaustion error exactly when none
    of the candidates 0 .. 999999 is free: as long as one serial below one
    million is neither used nor marked, the allocation succeeds. *)
Theorem reserve_fails_iff_full
    (ttl : Z) (clock : N → Z) (d : gmap string node) (name : string)
    (isVideo : bool) (ext : string) :
  (reserveSerialPath ttl clock d name isVideo ext).2 = None
  ↔ ∀ k, (k < 1000000)%N → isFree d name isVideo k = false.
Proof.
  unfold reserveSerialPath.
  pose proof (reserveLoop_least ttl clock name isVideo ext d (N.to_nat MAX_SERIAL) 0 d
                (loopInv_start name isVideo ext d)) as Hl.
  assert (N.of_nat (N.to_nat MAX_SERIAL) = 1000000%N) as Hm by apply N2Nat.id.
  rewrite Hm in Hl. clear Hm.
  destruct (reserveLoop ttl clock name isVideo ext (N.to_nat MAX_SERIAL) 0 d).2 as [r|].
  - destruct Hl as (Hr & Hfree & _). split; [done |].
    intros Hall. rewrite Hall in Hfree; [done | lia].
  - split; [| done]. intros _ k Hk. apply Hl. lia.
Qed.

(** X3.  [reserveSerialPath] changes the directory in two ways only: it
    removes markers of this owner and prefix that are older than the
    threshold, and it creates the marker of the serial it returns.  Entries
    that are not such markers, stored files among them, are never touched, a
    marker younger than the threshold is never removed, and no entry is ever
    modified in place. *)
Theorem reserve_changes_only_markers
    (ttl : Z) (clock : N → Z) (d : gmap string node) (name : string)
    (isVideo : bool) (ext : string) (nm : string) :
  let res := reserveSerialPath ttl clock d name isVideo ext in
  res.1 !! nm = d !! nm
  ∨ (∃ k st, nm = lockDir (serialPaths name (prefixOf isVideo) k ext)
             ∧ d !! nm = Some st ∧ ttl < clock k - node_mtime st ∧ res.1 !! nm = None)
  ∨ (∃ r, res.2 = Some r ∧ nm = res_lockDir r ∧ d !! nm = None
          ∧ res.1 !! nm = Some (NDir (clock (res_n r)))).
Proof.
  intros res. unfold res, reserveSerialPath.
  destruct (reserveLoop_effect ttl clock name isVideo ext (N.to_nat MAX_SERIAL) 0 d nm)
    as [H | [(k & st & _ & E & H1 & H2 & H3) | (r & Hr & _ & E & H1 & H2)]].
  - by left.
  - right. left. by exists k, st.
  - right. right. exists r. repeat split; try done.
    destruct (reserveLoop ttl clock name isVideo ext (N.to_nat MAX_SERIAL) 0 d)
      as [d' o] eqn:El.
    cbn [snd] in Hr. subst o.
    destruct (reserveLoop_returns ttl clock name isVideo ext _ _ _ _ _ El) as (_ & -> & _).
    exact E.
Qed.

(** X4.  Two allocations in a row for the same owner and prefix, with no
    finalize in between and whatever the extensions, the clocks and the
    thresholds, return different serial numbers: the marker of the first
    keeps the second away. *)
Theorem consecutive_reservations_differ
    (ttl ttl' : Z) (clock clock' : N → Z) (d d1 d2 : gmap string node) (name : string)
    (isVideo : bool) (ext ext' : string) (r1 r2 : reservation) :
  reserveSerialPath ttl clock d name isVideo ext = (d1, Some r1) →
  reserveSerialPath ttl' clock' d1 name isVideo ext' = (d2, Some r2) →
  res_n r1 ≠ res_n r2.
Proof.
  intros H1 H2 E. unfold reserveSerialPath in H1, H2.
  apply reserveLoop_returns in H1 as (_ & _ & dn & _ & Hd1 & _).
  pose proof (reserveLoop_least ttl' clock' name isVideo ext' d1 (N.to_nat MAX_SERIAL) 0 d1
                (loopInv_start name isVideo ext' d1)) as Hl.
  rewrite H2 in Hl. cbn [snd] in Hl. destruct Hl as (_ & Hfree & _).
  unfold isFree in Hfree. rewrite <- E in Hfree.
  change (lockDir (serialPaths name (prefixOf isVideo) (res_n r1) ""))
    with (lockDir (serialPaths name (prefixOf isVideo) (res_n r1) ext)) in Hfree.
  rewrite Hd1, lookup_insert_eq, andb_false_r in Hfree. done.
Qed.

(** X5.  Reserving and then finalizing stores the staged bytes: when the
    extension is empty or a dot followed by something other than [lock] or
    [serial], [finalizeReservation] on a fresh reservation always succeeds,
    the reserved path then holds the staged bytes, the staged file and the
    marker are gone, every other entry is as the reservation left it, and the
    serial is no longer free for any later allocation. *)
Theorem reserve_then_finalize_stores
    (ttl : Z) (clock : N → Z) (d d1 : gmap string node) (name : string)
    (isVideo : bool) (ext : string) (r : reservation)
    (t : Z) (tmpPath : string) (tf : gmap string (list byte)) (data : list byte) :
  reserveSerialPath ttl clock d name isVideo ext = (d1, Some r) →
  isExtension ext →
  (∀ e, ext = "." +:+ e → toLowerCase e ≠ "lock" ∧ toLowerCase e ≠ "serial") →
  tf !! tmpPath = Some data →
  ∃ up', finalizeReservation t tmpPath (res_finalPath r) (res_lockDir r) tf d1
         = (delete tmpPath tf, up', true)
         ∧ up' !! res_finalPath r = Some (NFile data t)
         ∧ up' !! res_lockDir r = None
         ∧ (∀ nm, nm ≠ res_finalPath r → nm ≠ res_lockDir r → up' !! nm = d1 !! nm)
         ∧ isFree up' name isVideo (res_n r) = false.
Proof.
  intros H Hext Hctl Htmp. unfold reserveSerialPath in H.
  apply reserveLoop_returns in H as (_ & Hr & dn & Hu & Hd1 & _).
  set (sp := serialPaths name (prefixOf isVideo) (res_n r) ext) in *.
  assert (res_finalPath r = finalPath sp ∧ res_lockDir r = lockDir sp) as [Hf Hl]
    by (by rewrite Hr).
  pose proof (nameUsesSerial_finalPath (baseNoExt sp) ext Hext Hctl) as Huse.
  change (baseNoExt sp +:+ ext) with (finalPath sp) in Huse.
  assert (finalPath sp ≠ lockDir sp) as Hne.
  { intros E. rewrite E in Huse. unfold sp in Huse. by rewrite lock_not_real in Huse. }
  assert (d1 !! finalPath sp = None) as Hnone.
  { rewrite Hd1, lookup_insert_ne by done.
    destruct (dn !! finalPath sp) eqn:E; [| done].
    rewrite (isRealSerialUsed_false dn _ Hu (finalPath sp)) in Huse; [done | by eexists]. }
  unfold finalizeReservation, rmrf. rewrite Htmp, Hf, Hl, Hnone.
  eexists. split; [reflexivity |].
  split; [by rewrite lookup_delete_ne, lookup_insert_eq |].
  split; [apply lookup_delete_eq |].
  split; [intros nm H1 H2; by rewrite lookup_delete_ne, lookup_insert_ne |].
  unfold isFree.
  change (baseNoExt (serialPaths name (prefixOf isVideo) (res_n r) "")) with (baseNoExt sp).
  rewrite (isRealSerialUsed_intro _ (baseNoExt sp) (finalPath sp)); [done | | done].
  rewrite lookup_delete_ne, lookup_insert_eq by done. by eexists.
Qed.

(** ** Slicing on the client *)

Lemma sliceBlob_loop_spec (size : nat) :
  (0 < size)%nat →
  ∀ (fuel : nat) (file : list byte) (offset : nat),
    (length file ≤ offset + fuel * size)%nat →
    ∃ chunks,
      sliceBlob_loop fuel file size offset = Some chunks
      ∧ mjoin chunks = drop offset file
      ∧ Forall (fun c => (0 < length c ≤ size)%nat) chunks
      ∧ (length chunks * size < length file - offset + size)%nat
      ∧ (length file - offset ≤ length chunks * size)%nat.
Proof.
  intros Hsize. induction fuel as [|fuel IH]; intros file offset Hfuel; simpl.
  - destruct (Nat.ltb_spec offset (length file)) as [Hlt|Hge]; [lia |].
    exists []. rewrite drop_ge by lia. repeat split; [constructor | simpl; lia | simpl; lia].
  - destruct (Nat.ltb_spec offset (length file)) as [Hlt|Hge].
    + destruct (IH file (offset + size)%nat) as (chunks & -> & Hj & Hall & Hn1 & Hn2); [lia |].
      eexists. split; [reflexivity |]. simpl. rewrite Hj. unfold blob_slice.
      split.
      { destruct (Nat.le_ge_cases (offset + size) (length file)) as [Hle|Hle'].
        - rewrite Nat.min_l by lia.
          replace (offset + size - offset)%nat with size by lia.
          rewrite <- (drop_drop file size offset). apply take_drop.
        - rewrite Nat.min_r by lia.
          rewrite (drop_ge file (offset + size)) by lia. rewrite app_nil_r.
          apply take_ge. rewrite length_drop. lia. }
      split.
      { constructor; [| done]. rewrite length_take, length_drop. lia. }
      cbn [length].
      destruct (Nat.le_ge_cases (offset + size) (length file)) as [Hle|Hle']; [lia |].
      assert (length chunks = 0)%nat as -> by nia. lia.
    + exists []. rewrite drop_ge by lia. repeat split; [constructor | simpl; lia | simpl; lia].
Qed.

Lemma sliceBlob_loop_stuck (fuel : nat) (file : list byte) (offset : nat) :
  (offset < length file)%nat → sliceBlob_loop fuel file 0 offset = None.
Proof.
  intros Hlt. induction fuel as [|fuel IH]; simpl;
    destruct (Nat.ltb_spec offset (length file)); try lia; [done |].
  by rewrite Nat.add_0_r, IH.
Qed.

(** ** Numbers in form fields *)

Lemma parse_digits_acc (d : Decimal.uint) :
  ∀ acc : positive,
    parse_digits (NilEmpty.string_of_uint d) true (Z.pos acc)
    = Some (Z.pos (Pos.of_uint_acc d acc)).
Proof.
  induction d; intros acc; cbn; [done | ..]; rewrite <- IHd; f_equal; simpl; lia.
Qed.

Lemma parse_digits_seen (d : Decimal.uint) :
  parse_digits (NilEmpty.string_of_uint d) true 0 = Some (Z.of_N (Pos.of_uint d)).
Proof.
  induction d; cbn; [done | exact IHd | ..];
    rewrite <- parse_digits_acc; f_equal.
Qed.

Lemma parse_digits_uint (d : Decimal.uint) :
  d ≠ Decimal.Nil →
  parse_digits (NilEmpty.string_of_uint d) false 0 = Some (Z.of_N (Pos.of_uint d)).
Proof.
  destruct d; intros Hd; cbn; [done | apply parse_digits_seen | ..];
    rewrite <- parse_digits_acc; f_equal.
Qed.

(** Nothing is trimmed from a string that starts with an ASCII character
    other than white space. *)
Lemma trimStart_ascii (c : ascii) (r : string) :
  is_space c = false → (nat_of_ascii c < 128)%nat → trimStart (String c r) = String c r.
Proof.
  intros Hs Hc. cbn [trimStart]. rewrite Hs.
  destruct r as [|c2 r2]; [done |].
  assert (is_space2 c c2 = false) as ->.
  { unfold is_space2. apply andb_false_iff. left. apply Nat.eqb_neq. lia. }
  destruct r2 as [|c3 r3]; [done |].
  assert (is_space3 c c2 c3 = false) as ->; [| done].
  unfold is_space3. cbv zeta.
  replace (nat_of_ascii c =? 225)%nat with false by (symmetry; apply Nat.eqb_neq; lia).
  replace (nat_of_ascii c =? 226)%nat with false by (symmetry; apply Nat.eqb_neq; lia).
  replace (nat_of_ascii c =? 227)%nat with false by (symmetry; apply Nat.eqb_neq; lia).
  replace (nat_of_ascii c =? 239)%nat with false by (symmetry; apply Nat.eqb_neq; lia).
  reflexivity.
Qed.

Lemma parseInt10_uint (d : Decimal.uint) :
  d ≠ Decimal.Nil →
  parseInt10 (NilEmpty.string_of_uint d) = JInt (Z.of_N (Pos.of_uint d)).
Proof.
  intros Hd. pose proof (parse_digits_uint d Hd) as Hp.
  unfold parseInt10. destruct d; try done; cbn [NilEmpty.string_of_uint] in *;
    (rewrite trimStart_ascii by (first [reflexivity | vm_compute; lia]));
    by rewrite Hp.
Qed.

(** The server reads back the number the client wrote. *)
Lemma parseInt10_String_of_jsnum (z : Z) : parseInt10 (String_of_jsnum (JInt z)) = JInt z.
Proof.
  pose proof (DecimalZ.of_to z) as Hz. simpl.
  destruct (Z_to_int_proper z) as [Hp Hn].
  destruct (Z.to_int z) as [d|d] eqn:E; simpl in *.
  - assert (d ≠ Decimal.Nil) as Hd by congruence.
    replace (NilZero.string_of_uint d) with (NilEmpty.string_of_uint d)
      by (by destruct d).
    rewrite parseInt10_uint by done. by rewrite <- Hz.
  - assert (d ≠ Decimal.Nil) as Hd by congruence.
    replace (NilZero.string_of_uint d) with (NilEmpty.string_of_uint d)
      by (by destruct d).
    unfold parseInt10.
    rewrite trimStart_ascii by (first [reflexivity | vm_compute; lia]).
    rewrite parse_digits_uint by done.
    by rewrite <- Hz.
Qed.

(** ** The client's form at the chunk receiver *)

Lemma setField_eval (val : string) (v : chunk_vars) :
  setField "authKey" val v
  = {| v_authKey := Some (trim val); v_uploadId := v_uploadId v; v_index := v_index v;
       v_totalChunks := v_totalChunks v; v_filename := v_filename v; v_isVideo := v_isVideo v;
       v_wrotePath := v_wrotePath v; v_wroteTemp := v_wroteTemp v; v_sawFile := v_sawFile v |}
  ∧ setField "uploadId" val v
    = {| v_authKey := v_authKey v; v_uploadId := Some (trim val); v_index := v_index v;
         v_totalChunks := v_totalChunks v; v_filename := v_filename v; v_isVideo := v_isVideo v;
         v_wrotePath := v_wrotePath v; v_wroteTemp := v_wroteTemp v; v_sawFile := v_sawFile v |}
  ∧ setField "index" val v
    = {| v_authKey := v_authKey v; v_uploadId := v_uploadId v; v_index := Some (parseInt10 val);
         v_totalChunks := v_totalChunks v; v_filename := v_filename v; v_isVideo := v_isVideo v;
         v_wrotePath := v_wrotePath v; v_wroteTemp := v_wroteTemp v; v_sawFile := v_sawFile v |}
  ∧ setField "totalChunks" val v
    = {| v_authKey := v_authKey v; v_uploadId := v_uploadId v; v_index := v_index v;
         v_totalChunks := Some (parseInt10 val); v_filename := v_filename v;
         v_isVideo := v_isVideo v;
         v_wrotePath := v_wrotePath v; v_wroteTemp := v_wroteTemp v; v_sawFile := v_sawFile v |}
  ∧ setField "filename" val v
    = {| v_authKey := v_authKey v; v_uploadId := v_uploadId v; v_index := v_index v;
         v_totalChunks := v_totalChunks v; v_filename := Some val; v_isVideo := v_isVideo v;
         v_wrotePath := v_wrotePath v; v_wroteTemp := v_wroteTemp v; v_sawFile := v_sawFile v |}
  ∧ setField "isVideo" val v
    = {| v_authKey := v_authKey v; v_uploadId := v_uploadId v; v_index := v_index v;
         v_totalChunks := v_totalChunks v; v_filename := v_filename v;
         v_isVideo := String.eqb (toLowerCase val) "true";
         v_wrotePath := v_wrotePath v; v_wroteTemp := v_wroteTemp v; v_sawFile := v_sawFile v |}
  ∧ setField "hash" val v = v.
Proof. repeat split; reflexivity. Qed.

Lemma chunkParts_clientForm (e : env) (authKey uploadId filename : string) (isVideo : bool)
    (index total : nat) (data : list byte) (cf : gmap string (list byte)) :
  truthy (Some (trim uploadId)) = true →
  chunkParts e 0 (clientChunkForm authKey uploadId filename isVideo index total data)
    (chunk_vars0, cf)
  = ({| v_authKey := Some (trim authKey); v_uploadId := Some (trim uploadId);
        v_index := Some (JInt (Z.of_nat index));
        v_totalChunks := Some (JInt (Z.of_nat total));
        v_filename := Some filename; v_isVideo := isVideo;
        v_wrotePath := Some (getChunkPath (trim uploadId) (JInt (Z.of_nat index)));
        v_wroteTemp := false; v_sawFile := true |},
     <[getChunkPath (trim uploadId) (JInt (Z.of_nat index)) := data]> cf).
Proof.
  intros Hu. unfold clientChunkForm.
  cbn [chunkParts chunkPart fst snd].
  change (String.eqb "chunk" "chunk") with true. cbv iota.
  repeat match goal with
         | |- context [setField ?f ?val ?v] =>
             first
               [ rewrite (proj1 (setField_eval val v))
               | rewrite (proj1 (proj2 (setField_eval val v)))
               | rewrite (proj1 (proj2 (proj2 (setField_eval val v))))
               | rewrite (proj1 (proj2 (proj2 (proj2 (setField_eval val v)))))
               | rewrite (proj1 (proj2 (proj2 (proj2 (proj2 (setField_eval val v))))))
               | rewrite (proj1 (proj2 (proj2 (proj2 (proj2 (proj2 (setField_eval val v)))))))
               | rewrite (proj2 (proj2 (proj2 (proj2 (proj2 (proj2 (setField_eval val v))))))) ];
             cbn [v_authKey v_uploadId v_index v_totalChunks v_filename v_isVideo
                  v_wrotePath v_wroteTemp v_sawFile chunk_vars0]
         end.
  rewrite !parseInt10_String_of_jsnum.
  unfold writeChunkPart.
  cbn [v_authKey v_uploadId v_index v_totalChunks v_filename v_isVideo
       v_wrotePath v_wroteTemp v_sawFile default].
  rewrite Hu. by destruct isVideo.
Qed.

(** With a known key and a clean upload id the client's form passes the
    validation: what is left is the manifest update on the world that holds
    the payload at the chunk path. *)
Lemma uploadChunk_clientForm (users : gmap string string) (e : env)
    (authKey uploadId filename owner : string) (isVideo : bool)
    (index total : nat) (data : list byte) (w : world) :
  trim authKey ≠ "" → lookupUser users (trim authKey) = Some owner →
  uploadId ≠ "" → trim uploadId = uploadId →
  uploadChunk users e (clientChunkForm authKey uploadId filename isVideo index total data) w
  = markReceived e uploadId (JInt (Z.of_nat index)) (JInt (Z.of_nat total))
      (Some filename) isVideo
      (set_chunkFiles (<[getChunkPath uploadId (JInt (Z.of_nat index)) := data]> (chunkFiles w)) w).
Proof.
  intros Hk Howner Hu Htrim. unfold uploadChunk.
  rewrite chunkParts_clientForm by (rewrite Htrim; by apply truthy_nonempty).
  cbn [v_authKey v_uploadId v_index v_totalChunks v_filename v_isVideo
       v_wrotePath v_wroteTemp v_sawFile].
  rewrite (truthy_nonempty _ Hk), Howner, Htrim, (truthy_nonempty _ Hu). reflexivity.
Qed.

(** ** The manifest update *)

Lemma includes_spec (r : list (option Z)) (index : jsnum) :
  includes (jsval_of_json <$> r) index
  = match index with JInt z => bool_decide (Some z ∈ r) | JNaN => false end.
Proof.
  unfold includes. destruct index as [|z].
  - apply not_true_is_false. intros H. apply existsb_exists in H as (y & Hin & Hy).
    apply bool_decide_eq_true in Hy. subst y.
    apply list_elem_of_In, list_elem_of_fmap in Hin as ([z|] & E & _); done.
  - destruct (bool_decide (Some z ∈ r)) eqn:E.
    + apply bool_decide_eq_true in E. by apply includes_received.
    + apply bool_decide_eq_false in E. apply not_true_is_false. intros H. apply E.
      apply existsb_exists in H as (y & Hin & Hy).
      apply bool_decide_eq_true in Hy. subst y.
      apply list_elem_of_In, list_elem_of_fmap in Hin as ([z'|] & E' & Hin); [| done].
      by injection E' as ->.
Qed.

(** The whole effect of the manifest update, in terms of the array it starts
    from. *)
Lemma markReceived_spec (e : env) (u : string) (index t : jsnum) (fn : option string)
    (vid : bool) (w : world) :
  match receivedBefore w u with
  | None => markReceived e u index t fn vid w = (w, RError 500 "Chunk upload failed")
  | Some r =>
      ∃ m', markReceived e u index t fn vid w
            = (set_manifests (writeJsonAtomic (getManifestPath u) (MJson m') (manifests w)) w,
               RChunkOk (json_of_jsval (VNum index)))
            ∧ m_received m' = Some (addReceived r index)
            ∧ m_mtime m' = now e
            ∧ match manifests w !! getManifestPath u with
              | Some (MJson m) =>
                  m_uploadId m' = m_uploadId m ∧ m_filename m' = m_filename m
                  ∧ m_totalChunks m' = m_totalChunks m ∧ m_isVideo m' = m_isVideo m
              | _ =>
                  m_uploadId m' = u ∧ m_filename m' = fn
                  ∧ m_totalChunks m' = json_of_jsval (VNum t) ∧ m_isVideo m' = vid
              end
  end.
Proof.
  unfold receivedBefore, markReceived.
  assert (∀ r, json_of_jsval <$>
                 (if includes (jsval_of_json <$> r) index
                  then jsval_of_json <$> r else (jsval_of_json <$> r) ++ [VNum index])
               = addReceived r index) as Hadd.
  { intros r. rewrite includes_spec. unfold addReceived.
    destruct index as [|z]; [by rewrite fmap_app, json_roundtrip |].
    destruct (bool_decide (Some z ∈ r)); [apply json_roundtrip |].
    by rewrite fmap_app, json_roundtrip. }
  destruct (manifests w !! getManifestPath u) as [[m|]|] eqn:Em.
  - destruct (m_received m) as [r|]; [| done].
    eexists. split; [reflexivity |]. cbn. by rewrite Hadd.
  - eexists. split; [reflexivity |]. cbn. by rewrite <- (Hadd []).
  - eexists. split; [reflexivity |]. cbn. by rewrite <- (Hadd []).
Qed.

Lemma addReceived_elem (r : list (option Z)) (index : jsnum) :
  json_of_jsval (VNum index) ∈ addReceived r index.
Proof.
  destruct index as [|z]; simpl; [set_solver |].
  case_bool_decide; [done | set_solver].
Qed.

Lemma addReceived_prefix (r : list (option Z)) (index : jsnum) :
  r `prefix_of` addReceived r index.
Proof.
  destruct index as [|z]; simpl; [by eexists |].
  case_bool_decide; [done | by eexists].
Qed.

Lemma addReceived_NoDup (r : list (option Z)) (z : Z) :
  NoDup r → NoDup (addReceived r (JInt z)).
Proof.
  intros Hnd. simpl. case_bool_decide; [done |].
  apply NoDup_app. split; [done |]. split; [| apply NoDup_singleton].
  intros x Hx Hx'. apply list_elem_of_singleton in Hx'. by subst x.
Qed.

Lemma uploadStatus_receivedBefore (u : string) (w : world) :
  u ≠ "" →
  uploadStatus u w
  = match manifests w !! getManifestPath u with
    | Some MCorrupt => RError 500 "Failed to read manifest"
    | _ => RStatus (default [] (receivedBefore w u))
    end.
Proof.
  intros Hu. unfold uploadStatus, receivedBefore. rewrite (truthy_nonempty _ Hu).
  destruct (manifests w !! getManifestPath u) as [[m|]|]; try done.
  by destruct (m_received m).
Qed.

Lemma uploadStatus_after_write (u : string) (w : world) (m : manifest) :
  u ≠ "" →
  uploadStatus u (set_manifests (writeJsonAtomic (getManifestPath u) (MJson m) (manifests w)) w)
  = RStatus (default [] (m_received m)).
Proof.
  intros Hu. unfold uploadStatus. rewrite (truthy_nonempty _ Hu). cbn.
  rewrite writeJsonAtomic_lookup. by destruct (m_received m).
Qed.

(** Every path of the handler that reaches the manifest update does so on a
    world whose manifests are those of the start. *)
Lemma uploadChunk_reaches_markReceived (users : gmap string string) (e : env)
    (ps : list part) (w w' : world) (j : option Z) :
  uploadChunk users e ps w = (w', RChunkOk j) →
  let v := (chunkParts e 0 ps (chunk_vars0, chunkFiles w)).1 in
  ∃ u index t cf,
    v_uploadId v = Some u ∧ u ≠ "" ∧ v_index v = Some index ∧ v_totalChunks v = Some t
    ∧ markReceived e u index t (v_filename v) (v_isVideo v) (set_chunkFiles cf w)
      = (w', RChunkOk j).
Proof.
  unfold uploadChunk.
  destruct (findPart unreadFile ps); [by intros [=] |].
  destruct (chunkParts e 0 ps (chunk_vars0, chunkFiles w)) as [v cf]. cbn [fst].
  destruct (v_authKey v) as [k|]; [| done].
  destruct (negb (truthy (Some k))); [done |].
  destruct (lookupUser users k); [| done].
  destruct (v_uploadId v) as [u|]; [| done].
  destruct (v_index v) as [index|]; [| done].
  destruct (v_totalChunks v) as [t|]; [| done].
  destruct (truthy (Some u)) eqn:Eu; [| done]. cbn [negb orb].
  assert (u ≠ "") as Hu by (by destruct u).
  destruct (negb (v_sawFile v)); [done |].
  destruct (v_wroteTemp v).
  - destruct (rename_file _ _ cf) as [cf'|]; [| done].
    intros H. exists u, index, t, cf'. done.
  - intros H. exists u, index, t, cf. done.
Qed.

Lemma receivedBefore_set_chunkFiles (cf : gmap string (list byte)) (w : world) (u : string) :
  receivedBefore (set_chunkFiles cf w) u = receivedBefore w u.
Proof. reflexivity. Qed.

(** What an accepted submission has done to the manifest, read through the
    status query. *)
Lemma uploadChunk_accepted (users : gmap string string) (e : env)
    (ps : list part) (w w' : world) (j : option Z) :
  uploadChunk users e ps w = (w', RChunkOk j) →
  let v := (chunkParts e 0 ps (chunk_vars0, chunkFiles w)).1 in
  ∃ u index r,
    v_uploadId v = Some u ∧ u ≠ "" ∧ v_index v = Some index
    ∧ j = json_of_jsval (VNum index)
    ∧ receivedBefore w u = Some r
    ∧ uploadStatus u w' = RStatus (addReceived r index).
Proof.
  intros H v.
  destruct (uploadChunk_reaches_markReceived users e ps w w' j H)
    as (u & index & t & cf & Hu & Hne & Hi & Ht & Hm).
  fold v in Hu, Hi, Ht, Hm.
  pose proof (markReceived_spec e u index t (v_filename v) (v_isVideo v)
                (set_chunkFiles cf w)) as Hs.
  rewrite receivedBefore_set_chunkFiles in Hs.
  destruct (receivedBefore w u) as [r|] eqn:Eb; [| congruence].
  destruct Hs as (m' & Heq & Hr & _). rewrite Heq in Hm. injection Hm as <- <-.
  exists u, index, r. repeat split; try done.
  etransitivity; [exact (uploadStatus_after_write u (set_chunkFiles cf w) m' Hne) |].
  by rewrite Hr.
Qed.

(** X6.  After a chunk submission has been accepted, the status query for its
    upload id lists the submitted index, and everything the query listed
    before the submission is still listed, in the same order: the received
    array only grows. *)
Theorem accepted_chunk_shows_in_status
    (users : gmap string string) (e : env) (ps : list part) (w w' : world) (j : option Z) :
  uploadChunk users e ps w = (w', RChunkOk j) →
  ∃ u r, v_uploadId (chunkParts e 0 ps (chunk_vars0, chunkFiles w)).1 = Some u
         ∧ uploadStatus u w' = RStatus r
         ∧ j ∈ r
         ∧ ∀ r0, uploadStatus u w = RStatus r0 → r0 `prefix_of` r.
Proof.
  intros H.
  destruct (uploadChunk_accepted users e ps w w' j H)
    as (u & index & r & Hu & Hne & _ & -> & Hb & Hs).
  exists u, (addReceived r index). split; [done |]. split; [done |].
  split; [apply addReceived_elem |].
  intros r0 H0. rewrite (uploadStatus_receivedBefore u w Hne), Hb in H0.
  destruct (manifests w !! getManifestPath u) as [[m|]|]; simplify_eq;
    apply addReceived_prefix.
Qed.

(** X7.  Accepting a chunk with a numeric index keeps the received array free
    of duplicates: if the status query listed no index twice before the
    submission, it lists none twice after it. *)
Theorem received_stays_duplicate_free
    (users : gmap string string) (e : env) (ps : list part) (w w' : world) (i : Z) :
  uploadChunk users e ps w = (w', RChunkOk (Some i)) →
  ∃ u r, v_uploadId (chunkParts e 0 ps (chunk_vars0, chunkFiles w)).1 = Some u
         ∧ uploadStatus u w' = RStatus r
         ∧ ((∀ r0, uploadStatus u w = RStatus r0 → NoDup r0) → NoDup r).
Proof.
  intros H.
  destruct (uploadChunk_accepted users e ps w w' (Some i) H)
    as (u & index & r & Hu & Hne & _ & Hj & Hb & Hs).
  exists u, (addReceived r index). split; [done |]. split; [done |].
  intros Hnd. destruct index as [|z]; [done |].
  apply addReceived_NoDup.
  rewrite (uploadStatus_receivedBefore u w Hne), Hb in Hnd.
  destruct (manifests w !! getManifestPath u) as [[m|]|] eqn:Em.
  - by apply Hnd.
  - unfold receivedBefore in Hb. rewrite Em in Hb. injection Hb as <-. constructor.
  - by apply Hnd.
Qed.

Lemma markReceived_nan (e : env) (u : string) (t : jsnum) (fn : option string)
    (vid : bool) (cf : gmap string (list byte)) (w : world) (r0 : list (option Z)) :
  u ≠ "" → receivedBefore w u = Some r0 →
  ∃ w', markReceived e u JNaN t fn vid (set_chunkFiles cf w) = (w', RChunkOk None)
        ∧ uploadStatus u w' = RStatus (r0 ++ [None]).
Proof.
  intros Hu Hb.
  pose proof (markReceived_spec e u JNaN t fn vid (set_chunkFiles cf w)) as Hs.
  rewrite receivedBefore_set_chunkFiles, Hb in Hs.
  destruct Hs as (m' & Heq & Hr & _).
  eexists. split; [exact Heq |].
  etransitivity; [exact (uploadStatus_after_write u (set_chunkFiles cf w) m' Hu) |].
  by rewrite Hr.
Qed.

(** X8.  An index field that is not a number does not get the submission
    rejected.  A request of fields around one [chunk] file part, otherwise
    valid, whose index field does not parse ([parseInt] gives [NaN]) is
    answered ok with a null index, and one more [null] is appended to the
    received array, also when a [null] is already there.  (Only a manifest on
    disk that has no [received] array stands in the way of any submission.) *)
Theorem non_numeric_index_appends_null
    (users : gmap string string) (e : env) (w : world) (before after : list part)
    (fn mt : string) (data : list byte) (k owner u : string) (t : jsnum)
    (r0 : list (option Z)) :
  Forall isField before → Forall isField after →
  let v := readFields (before ++ after) chunk_vars0 in
  v_authKey v = Some k → k ≠ "" → lookupUser users k = Some owner →
  v_uploadId v = Some u → u ≠ "" →
  v_index v = Some JNaN → v_totalChunks v = Some t →
  receivedBefore w u = Some r0 →
  ∃ w', uploadChunk users e (before ++ PFile "chunk" fn mt data :: after) w
        = (w', RChunkOk None)
        ∧ uploadStatus u w' = RStatus (r0 ++ [None]).
Proof.
  intros Hb Ha v Hk Hkne Howner Hu Hune Hi Ht Hr.
  unfold uploadChunk. rewrite findPart_unread_form by done.
  rewrite chunkParts_last_file by done. fold v. cbv zeta.
  set (v1 := readFields before chunk_vars0).
  assert (v_wroteTemp v1 = false) as Hwt by apply (readFields_wrote before chunk_vars0).
  destruct (writeChunkPart_cases e (0 + length before) data v1 (chunkFiles w))
    as [(u1 & idx & _ & _ & _ & ->) | [_ ->]];
    cbn [fst snd withWrote v_authKey v_uploadId v_index v_totalChunks v_filename
         v_isVideo v_wrotePath v_wroteTemp v_sawFile];
    rewrite Hk, (truthy_nonempty _ Hkne), Howner, Hu, Hi, Ht, (truthy_nonempty _ Hune);
    cbn [negb orb default].
  - rewrite Hwt. by apply markReceived_nan.
  - unfold rename_file, id. rewrite lookup_insert_eq. by apply markReceived_nan.
Qed.

(** X9.  When the upload has no manifest, or one that does not parse, the
    client's chunk submission creates it anew from the fields of the request
    with [received] holding just the submitted index: a manifest that cannot
    be read is overwritten, and what it had recorded is forgotten. *)
Theorem chunk_creates_manifest
    (users : gmap string string) (e : env) (authKey uploadId filename owner : string)
    (isVideo : bool) (index total : nat) (data : list byte) (w : world) :
  trim authKey ≠ "" → lookupUser users (trim authKey) = Some owner →
  uploadId ≠ "" → trim uploadId = uploadId →
  manifests w !! getManifestPath uploadId = None
  ∨ manifests w !! getManifestPath uploadId = Some MCorrupt →
  ∃ w', uploadChunk users e
          (clientChunkForm authKey uploadId filename isVideo index total data) w
        = (w', RChunkOk (Some (Z.of_nat index)))
        ∧ manifests w' !! getManifestPath uploadId
          = Some (MJson {| m_uploadId := uploadId; m_filename := Some filename;
                           m_totalChunks := Some (Z.of_nat total); m_isVideo := isVideo;
                           m_received := Some [Some (Z.of_nat index)];
                           m_mtime := now e |})
        ∧ chunkFiles w' !! getChunkPath uploadId (JInt (Z.of_nat index)) = Some data.
Proof.
  intros Hk Howner Hu Htrim Hm.
  rewrite (uploadChunk_clientForm users e authKey uploadId filename owner) by done.
  unfold markReceived. cbn [manifests set_chunkFiles].
  eexists. destruct Hm as [-> | ->]; (split; [reflexivity |]);
    cbn; rewrite writeJsonAtomic_lookup, lookup_insert_eq; done.
Qed.

(** ** Atomic JSON writes *)

Lemma append_tmp_ne (file : string) : file +:+ ".tmp" ≠ file.
Proof.
  intros H. apply (f_equal String.length) in H. rewrite length_append in H.
  simpl in H. lia.
Qed.

(** X10.  [writeJsonAtomic] leaves the new value at the target, leaves no
    [.tmp] file next to it (an old one is consumed by the rename), and
    touches no other entry. *)
Theorem writeJsonAtomic_effect {A} (file : string) (obj : A) (d : gmap string A) (k : string) :
  writeJsonAtomic file obj d !! k
  = if decide (k = file) then Some obj
    else if decide (k = file +:+ ".tmp") then None
    else d !! k.
Proof.
  unfold writeJsonAtomic, rename_file. rewrite lookup_insert_eq.
  pose proof (append_tmp_ne file).
  destruct (decide (k = file)) as [->|]; [apply lookup_insert_eq |].
  rewrite lookup_insert_ne by done.
  destruct (decide (k = file +:+ ".tmp")) as [->|]; [apply lookup_delete_eq |].
  by rewrite lookup_delete_ne, lookup_insert_ne.
Qed.

(** ** From the client's slices back to the file *)

Lemma sliceBlob_loop_join (size : nat) :
  ∀ (fuel : nat) (file : list byte) (offset : nat) (chunks : list (list byte)),
    sliceBlob_loop fuel file size offset = Some chunks →
    mjoin chunks = drop offset file.
Proof.
  induction fuel as [|fuel IH]; intros file offset chunks; simpl;
    destruct (Nat.ltb_spec offset (length file)) as [Hlt|Hge]; try done.
  - intros [= <-]. by rewrite drop_ge by lia.
  - destruct (sliceBlob_loop fuel file size (offset + size)) as [rest|] eqn:E; [| done].
    intros [= <-]. simpl. rewrite (IH _ _ _ E). unfold blob_slice.
    destruct (Nat.le_ge_cases (offset + size) (length file)) as [Hle|Hle'].
    + rewrite Nat.min_l by lia.
      replace (offset + size - offset)%nat with size by lia.
      rewrite <- (drop_drop file size offset). apply take_drop.
    + rewrite Nat.min_r by lia.
      rewrite (drop_ge file (offset + size)) by lia. rewrite app_nil_r.
      apply take_ge. rewrite length_drop. lia.
  - intros [= <-]. by rewrite drop_ge by lia.
Qed.

(** When the loop ends, the iterations allowed beyond that play no part. *)
Lemma sliceBlob_loop_fuel (file : list byte) (size : nat) (fuel : nat) :
  ∀ (fuel' offset : nat) (chunks chunks' : list (list byte)),
    sliceBlob_loop fuel file size offset = Some chunks →
    sliceBlob_loop fuel' file size offset = Some chunks' →
    chunks' = chunks.
Proof.
  induction fuel as [|fuel IH]; intros fuel' offset chunks chunks'.
  - simpl. destruct (Nat.ltb_spec offset (length file)) as [Hlt|Hge]; [done |].
    intros [= <-]. destruct fuel'; simpl;
      destruct (Nat.ltb_spec offset (length file)); try lia; by intros [= <-].
  - simpl. destruct (Nat.ltb_spec offset (length file)) as [Hlt|Hge].
    + destruct (sliceBlob_loop fuel file size (offset + size)) as [r0|] eqn:E0; [| done].
      intros [= <-]. destruct fuel'; simpl;
        destruct (Nat.ltb_spec offset (length file)); try lia; [done |].
      destruct (sliceBlob_loop fuel' file size (offset + size)) as [r1|] eqn:E1; [| done].
      intros [= <-]. f_equal. by eapply IH.
    + intros [= <-]. destruct fuel'; simpl;
        destruct (Nat.ltb_spec offset (length file)); try lia; by intros [= <-].
Qed.

(** X11.  [sliceBlob] with a positive chunk size comes to its end within as
    many iterations as the file has bytes, and returns chunks that joined in
    order give the file back, each of them non-empty and no longer than the
    chunk size, as many as the size divided by the chunk size, rounded up.
    With chunk size zero and a non-empty file the loop never ends. *)
Theorem sliceBlob_partitions_file (file : list byte) (size : nat) :
  ((0 < size)%nat →
   ∃ chunks,
     (∀ fuel, (length file ≤ fuel)%nat → sliceBlob fuel file size = Some chunks)
     ∧ mjoin chunks = file
     ∧ Forall (fun c => (0 < length c ≤ size)%nat) chunks
     ∧ (((length chunks - 1) * size < length file)%nat ∨ file = [])
     ∧ (length file ≤ length chunks * size)%nat)
  ∧ (size = 0%nat → file ≠ [] → ∀ fuel, sliceBlob fuel file size = None).
Proof.
  split.
  - intros Hsize.
    destruct (sliceBlob_loop_spec size Hsize (length file) file 0)
      as (chunks & E & Hj & Hall & Hn1 & Hn2); [nia |].
    exists chunks. rewrite drop_0 in Hj. rewrite Nat.sub_0_r in Hn1, Hn2.
    split.
    { intros fuel Hfuel.
      destruct (sliceBlob_loop_spec size Hsize fuel file 0)
        as (chunks' & E' & Hj' & Hall' & _); [nia |].
      unfold sliceBlob. rewrite E'. f_equal.
      by eapply sliceBlob_loop_fuel. }
    split; [done |]. split; [done |]. split; [| done].
    destruct file as [|b file]; [by right |]. left. simpl in *. nia.
  - intros -> Hne fuel. apply sliceBlob_loop_stuck. destruct file; [done | simpl; lia].
Qed.

Lemma lookup_default_seq {A} (l : list A) (x : A) :
  (fun i => default x (l !! i)) <$> seq 0 (length l) = l.
Proof.
  apply list_eq. intros i. rewrite list_lookup_fmap.
  destruct (decide (i < length l)%nat) as [Hlt|Hge].
  - rewrite lookup_seq_lt by done. simpl.
    destruct (lookup_lt_is_Some_2 l i Hlt) as [y Hy]. by rewrite Hy.
  - rewrite lookup_seq_ge by lia. simpl. symmetry. apply lookup_ge_None. lia.
Qed.

(** What a run of the client's submissions leaves in [chunkDir]. *)
Lemma submitChunks_chunkFiles (users : gmap string string)
    (authKey uploadId filename owner : string) (isVideo : bool) (chunks : list (list byte)) :
  trim authKey ≠ "" → lookupUser users (trim authKey) = Some owner →
  uploadId ≠ "" → trim uploadId = uploadId →
  ∀ (steps : list (nat * env)) (w : world) (i : nat),
    let w' := submitChunks users authKey uploadId filename isVideo chunks steps w in
    let key := getChunkPath uploadId (JInt (Z.of_nat i)) in
    (i ∈ steps.*1 → chunkFiles w' !! key = Some (default [] (chunks !! i)))
    ∧ (i ∉ steps.*1 → chunkFiles w' !! key = chunkFiles w !! key).
Proof.
  intros Hk Howner Hu Htrim.
  induction steps as [|[i0 e0] steps IH]; intros w i; cbn [submitChunks fmap list_fmap].
  - split; [by intros ?%not_elem_of_nil | done].
  - rewrite (uploadChunk_clientForm users e0 authKey uploadId filename owner) by done.
    set (w0 := set_chunkFiles _ w).
    pose proof (markReceived_frame e0 uploadId (JInt (Z.of_nat i0))
                  (JInt (Z.of_nat (length chunks))) (Some filename) isVideo w0)
      as (_ & _ & Hcf & _).
    destruct (IH (markReceived e0 uploadId (JInt (Z.of_nat i0))
                    (JInt (Z.of_nat (length chunks))) (Some filename) isVideo w0).1 i)
      as [Hin Hout].
    assert (∀ i', chunkFiles w0 !! getChunkPath uploadId (JInt (Z.of_nat i'))
                  = if decide (i0 = i') then Some (default [] (chunks !! i0))
                    else chunkFiles w !! getChunkPath uploadId (JInt (Z.of_nat i'))) as Hw0.
    { intros i'. unfold w0. cbn [chunkFiles set_chunkFiles].
      rewrite lookup_insert. repeat case_decide; try done.
      - apply getChunkPath_inj in H. lia.
      - subst. done. }
    split.
    + intros Hi. destruct (decide (i ∈ steps.*1)) as [Hr|Hr]; [by apply Hin |].
      rewrite (Hout Hr), Hcf, Hw0. apply elem_of_cons in Hi as [->|]; [| done].
      by rewrite decide_True.
    + intros Hi. apply not_elem_of_cons in Hi as [Hne Hr].
      rewrite (Hout Hr), Hcf, Hw0. by rewrite decide_False.
Qed.

(** X12.  A chunked upload ends in the file it started from: when the client
    has sliced a file, has posted every chunk under its index at least once,
    in any order and with any repeats, then the assembler run with the
    number of chunks as total writes exactly the file to its output and
    returns the digest of the file. *)
Theorem chunked_upload_reassembles_file
    (P : platform) (users : gmap string string)
    (authKey uploadId filename owner : string) (isVideo : bool)
    (file : list byte) (size fuel : nat) (chunks : list (list byte))
    (steps : list (nat * env)) (w : world)
    (tmpOut : string) (tf : gmap string (list byte)) :
  trim authKey ≠ "" → lookupUser users (trim authKey) = Some owner →
  uploadId ≠ "" → trim uploadId = uploadId →
  sliceBlob fuel file size = Some chunks →
  (∀ i, (i < length chunks)%nat → i ∈ steps.*1) →
  let w' := submitChunks users authKey uploadId filename isVideo chunks steps w in
  ∃ cf', assembleChunksToTemp P uploadId (Z.of_nat (length chunks)) tmpOut
           (chunkFiles w') tf
         = (cf', <[tmpOut := file]> tf, inr (sha256hex P file)).
Proof.
  intros Hk Howner Hu Htrim Hslice Hcover w'.
  destruct (assemble_present P uploadId (Z.of_nat (length chunks)) tmpOut
              (chunkFiles w') tf (fun i => default [] (chunks !! i)))
    as (cf' & E & _).
  { intros i Hi.
    apply (submitChunks_chunkFiles users authKey uploadId filename owner isVideo chunks
             Hk Howner Hu Htrim steps w i).
    apply Hcover. lia. }
  rewrite Nat2Z.id, lookup_default_seq in E.
  apply sliceBlob_loop_join in Hslice. rewrite drop_0 in Hslice. rewrite Hslice in E.
  by exists cf'.
Qed.

(** X13.  The assembler touches no chunk file but those of the upload it
    merges, and on success it has unlinked every one of these: chunk files
    of other uploads are as they were. *)
Theorem assemble_consumes_own_chunks_only
    (P : platform) (uploadId : string) (total : Z) (tmpOut : string)
    (cf tf : gmap string (list byte)) (data : nat → list byte) :
  (∀ i : nat, Z.of_nat i < total →
     cf !! getChunkPath uploadId (JInt (Z.of_nat i)) = Some (data i)) →
  let cf' := (assembleChunksToTemp P uploadId total tmpOut cf tf).1.1 in
  (∀ i : nat, Z.of_nat i < total →
     cf' !! getChunkPath uploadId (JInt (Z.of_nat i)) = None)
  ∧ (∀ k, (∀ i : nat, k ≠ getChunkPath uploadId (JInt (Z.of_nat i))) →
       cf' !! k = cf !! k).
Proof.
  intros Hall cf'. unfold cf', assembleChunksToTemp.
  destruct (mergeLoop_present uploadId data (Z.to_nat total) 0
              {| ms_chunks := cf; ms_out := []; ms_hasher := createHash |})
    as (cf1 & E & Hgone & Hkeep).
  { intros j Hj. apply Hall. lia. }
  change (N.of_nat 0) with 0%N in E. rewrite E. cbn.
  split.
  - intros i Hi. apply Hgone. lia.
  - intros k Hk. apply Hkeep. intros j _. apply Hk.
Qed.

(** ** Finalize: rejections, the log and the index *)

(** X14.  Finalize validates before it touches anything: a request without a
    manifest field, with one that does not parse, or with an empty upload id,
    a zero total, an empty file name or an empty key is answered 400, one
    with an unknown key 403, and in each of these cases the world is exactly
    as before.  A request that passes both checks is never answered 400 or
    403. *)
Theorem finalize_rejects_before_touching_disk
    (P : platform) (users : gmap string string) (e : env)
    (field : option manifest_field) (w : world) :
  let valid m := (truthy (Some (f_uploadId m)) && negb (f_totalChunks m =? 0)
                  && truthy (Some (f_filename m)) && truthy (Some (f_authKey m)))%bool in
  match field with
  | None => uploadManifest P users e field w = (w, RError 400 "Missing manifest fields")
  | Some FBadJson => uploadManifest P users e field w = (w, RError 400 "Invalid manifest JSON")
  | Some (FJson m) =>
      if valid m then
        match lookupUser users (f_authKey m) with
        | None => uploadManifest P users e field w = (w, RError 403 "Invalid authKey")
        | Some _ =>
            ∀ status msg, (uploadManifest P users e field w).2 = RError status msg →
                          status = 500
        end
      else uploadManifest P users e field w = (w, RError 400 "Missing manifest fields")
  end.
Proof.
  intros valid. destruct field as [[|m]|]; [done | | done].
  unfold valid, uploadManifest.
  destruct (truthy (Some (f_uploadId m))), (f_totalChunks m =? 0),
    (truthy (Some (f_filename m))), (truthy (Some (f_authKey m))); cbn [negb andb orb];
    try done.
  destruct (lookupUser users (f_authKey m)) as [user|]; [| done].
  intros status msg.
  destruct (assembleChunksToTemp _ _ _ _ _ _) as [[cf tf] [i|sha]]; cbn [snd];
    [by intros [= <- _] |].
  destruct (dedupeLookup _ _); [done |].
  destruct (reserveSerialPath _ _ _ _ _ _) as [up [rsv|]]; [| by intros [= <- _]].
  destruct (finalizeReservation _ _ _ _ _ _) as [[tf' up'] [|]]; [done |].
  by intros [= <- _].
Qed.

Lemma mergeLoop_out_is_hashed (uploadId : string) (left : nat) :
  ∀ (i : N) (st : merge_state),
    ms_out st = ms_hasher st →
    ms_out (mergeLoop uploadId left i st).1 = ms_hasher (mergeLoop uploadId left i st).1.
Proof.
  induction left as [|left IH]; intros i st Heq; simpl; [done |].
  destruct (ms_chunks st !! _) as [c|]; [| done].
  apply IH. simpl. unfold hasher_update. by rewrite Heq.
Qed.

(** Whatever chunks are on disk, a digest returned by the assembler is the
    digest of what it wrote to the output file. *)
Lemma assemble_digest_of_output (P : platform) (uploadId : string) (total : Z)
    (tmpOut : string) (cf tf cf' tf' : gmap string (list byte)) (sha : string) :
  assembleChunksToTemp P uploadId total tmpOut cf tf = (cf', tf', inr sha) →
  ∃ data, tf' = <[tmpOut := data]> tf ∧ sha = sha256hex P data.
Proof.
  unfold assembleChunksToTemp.
  pose proof (mergeLoop_out_is_hashed uploadId (Z.to_nat total) 0
                {| ms_chunks := cf; ms_out := []; ms_hasher := createHash |} eq_refl) as Hh.
  destruct (mergeLoop _ _ _ _) as [st [i|[]]]; [done |].
  intros [= <- <- <-]. exists (ms_out st). split; [done |].
  unfold hasher_digest. simpl in Hh. by rewrite Hh.
Qed.

(** X15.  A saved answer is backed by the store: whenever finalize answers
    with a saved name and a digest, the upload directory holds a file under
    that name whose bytes have that digest, the index maps the digest to the
    name, the merged temp file, the marker of the serial and the upload's
    manifest are gone, and the log on disk ends with the entry of this upload
    with [deduped] unset. *)
Theorem saved_answer_is_backed_by_store
    (P : platform) (users : gmap string string) (e : env) (m : finalize_req)
    (w w' : world) (savedAs sha : string) :
  uploadManifest P users e (Some (FJson m)) w = (w', RSaved savedAs sha) →
  ∃ data user,
    uploads w' !! savedAs = Some (NFile data (now e))
    ∧ sha = sha256hex P data
    ∧ hashIndex w' !! sha = Some savedAs
    ∧ lookupUser users (f_authKey m) = Some user
    ∧ tmpFiles w' !! (".merge." +:+ uuid e +:+ extname P (f_filename m)) = None
    ∧ (∃ base, savedAs = base +:+ extname P (f_filename m)
               ∧ uploads w' !! (base +:+ ".lock") = None)
    ∧ manifests w' !! getManifestPath (f_uploadId m) = None
    ∧ uploadLog w' = uploadLog w ++ [{| e_authKey := f_authKey m; e_fullName := user;
                                      e_originalName := f_filename m; e_savedName := savedAs;
                                      e_timestamp := isoTime e; e_hash := sha;
                                      e_deduped := false |}]
    ∧ logFile w' = uploadLog w'.
Proof.
  unfold uploadManifest.
  destruct (_ || _ || _ || _)%bool; [done |].
  destruct (lookupUser users (f_authKey m)) as [user|]; [| done].
  destruct (assembleChunksToTemp _ _ _ _ _ _) as [[cf tf] [i|sha0]] eqn:Ea; [done |].
  destruct (dedupeLookup _ _); [done |].
  destruct (reserveSerialPath _ _ _ _ _ _) as [up [rsv|]] eqn:Er; [| done].
  destruct (finalizeReservation _ _ _ _ _ _) as [[tf' up'] [|]] eqn:Ef; [| done].
  intros [= <- <- <-]. cbn.
  apply assemble_digest_of_output in Ea as (data & -> & ->).
  unfold reserveSerialPath in Er.
  apply reserveLoop_returns in Er as (_ & Hr & dn & _ & Hup & _).
  set (sp := serialPaths user (prefixOf (f_isVideo m)) (res_n rsv)
               (extname P (f_filename m))) in *.
  assert (res_finalPath rsv = finalPath sp ∧ res_lockDir rsv = lockDir sp) as [Hf Hl]
    by (by rewrite Hr).
  unfold finalizeReservation in Ef. rewrite lookup_insert_eq, Hf, Hl in Ef.
  assert (finalPath sp ≠ lockDir sp) as Hne.
  { intros E. rewrite E, Hup, lookup_insert_eq in Ef. done. }
  assert (tf' = delete (".merge." +:+ uuid e +:+ extname P (f_filename m))
                  (<[".merge." +:+ uuid e +:+ extname P (f_filename m) := data]> (tmpFiles w))
          ∧ up' = rmrf (lockDir sp) (<[finalPath sp := NFile data (now e)]> up))
    as [-> ->].
  { destruct (up !! finalPath sp) as [[? ?|?]|]; by simplify_eq. }
  rewrite Hf.
  exists data, user. unfold rmrf.
  split; [by rewrite lookup_delete_ne, lookup_insert_eq |].
  split; [done |]. split; [apply lookup_insert_eq |]. split; [done |].
  split; [apply lookup_delete_eq |]. split; [| split; [apply lookup_delete_eq | done]].
  exists (baseNoExt sp). split; [reflexivity |]. apply lookup_delete_eq.
Qed.

(** X16.  The upload log is append-only: finalize and direct upload keep the
    log they found as a prefix of the log they leave, both answer success
    only after the log on disk has been brought level with the log in memory,
    and the chunk receiver does not touch the log. *)
Theorem log_is_append_only
    (P : platform) (users : gmap string string) (e : env) (w : world) :
  (∀ field, let r := uploadManifest P users e field w in
     uploadLog w `prefix_of` uploadLog r.1
     ∧ (∀ s h, r.2 = RSaved s h ∨ r.2 = RDeduped s → logFile r.1 = uploadLog r.1))
  ∧ (∀ ps, let r := upload P users e ps w in
       uploadLog w `prefix_of` uploadLog r.1
       ∧ (∀ files, r.2 = RFiles files → logFile r.1 = uploadLog r.1))
  ∧ (∀ ps, let r := uploadChunk users e ps w in
       uploadLog r.1 = uploadLog w ∧ logFile r.1 = logFile w).
Proof.
  split; [| split].
  - intros field r. unfold r, uploadManifest.
    destruct field as [[|m]|]; [by split; [| intros ? ? [|]] | | by split; [| intros ? ? [|]]].
    destruct (_ || _ || _ || _)%bool; [by split; [| intros ? ? [|]] |].
    destruct (lookupUser users (f_authKey m)) as [user|]; [| by split; [| intros ? ? [|]]].
    destruct (assembleChunksToTemp _ _ _ _ _ _) as [[cf tf] [i|sha]];
      [by split; [| intros ? ? [|]] |].
    destruct (dedupeLookup _ _); [split; [by eexists | done] |].
    destruct (reserveSerialPath _ _ _ _ _ _) as [up [rsv|]]; [| by split; [| intros ? ? [|]]].
    destruct (finalizeReservation _ _ _ _ _ _) as [[tf' up'] [|]];
      [split; [by eexists | done] | by split; [| intros ? ? [|]]].
  - intros ps r. unfold r, upload.
    destruct (directParts _ _ _ _ _ _) as [v tf].
    destruct (if truthy (d_authKey v) then d_user v else None) as [user|]; [| done].
    assert (∀ ss w0 saved,
              uploadLog w0 `prefix_of`
                uploadLog (storeAll e (default "" (d_authKey v)) user ss (w0, saved)).1) as Hall.
    { induction ss as [|s ss IH]; intros w0 saved; cbn [storeAll fst]; [done |].
      assert (uploadLog w0 `prefix_of`
                uploadLog (storeStaged e (default "" (d_authKey v)) user s (w0, saved)).1) as H1.
      { unfold storeStaged. destruct (dedupeLookup _ _); [by eexists |].
        destruct (reserveSerialPath _ _ _ _ _ _) as [up [rsv|]]; [| done].
        destruct (finalizeReservation _ _ _ _ _ _) as [[tf' up'] [|]]; [by eexists | done]. }
      destruct (storeStaged _ _ _ _ _) as [w1 [saved1|]]; [| done].
      etransitivity; [exact H1 | apply IH]. }
    specialize (Hall (d_staged v) (set_tmpFiles tf w) []).
    destruct (storeAll _ _ _ _ _) as [w1 [saved|]]; done.
  - intros ps r.
    destruct (uploadChunk users e ps w) as [w' resp] eqn:E. unfold r. cbn [fst].
    revert E. unfold uploadChunk.
    destruct (findPart unreadFile ps); [by intros [= <- _] |].
    destruct (chunkParts e 0 ps (chunk_vars0, chunkFiles w)) as [v cf].
    assert (∀ u i t cf0 w1 resp1,
              markReceived e u i t (v_filename v) (v_isVideo v) (set_chunkFiles cf0 w)
              = (w1, resp1) → uploadLog w1 = uploadLog w ∧ logFile w1 = logFile w) as Hmr.
    { intros u i t cf0 w1 resp1 Hm.
      pose proof (markReceived_frame e u i t (v_filename v) (v_isVideo v)
                    (set_chunkFiles cf0 w)) as (_ & _ & _ & _ & H5 & H6 & _).
      rewrite Hm in H5, H6. done. }
    destruct (v_authKey v) as [k|]; [| by intros [= <- _]].
    destruct (negb (truthy (Some k))); [by intros [= <- _] |].
    destruct (lookupUser users k); [| by intros [= <- _]].
    destruct (v_uploadId v) as [u|]; [| by intros [= <- _]].
    destruct (v_index v) as [index|]; [| by intros [= <- _]].
    destruct (v_totalChunks v) as [t|]; [| by intros [= <- _]].
    destruct (_ || _)%bool; [by intros [= <- _] |].
    destruct (v_wroteTemp v).
    + destruct (rename_file _ _ cf) as [cf'|]; [| by intros [= <- _]]. apply Hmr.
    + apply Hmr.
Qed.

(** X17.  First write wins in the hash index: once a digest maps to a saved
    name, no finalize and no direct upload ever maps it to another name or
    drops it. *)
Theorem hash_index_entries_are_permanent
    (P : platform) (users : gmap string string) (e : env) (w : world) (h s : string) :
  hashIndex w !! h = Some s → s ≠ "" →
  (∀ field, hashIndex (uploadManifest P users e field w).1 !! h = Some s)
  ∧ (∀ ps, hashIndex (upload P users e ps w).1 !! h = Some s).
Proof.
  intros Hh Hs.
  assert (∀ (hi : gmap string string) sha nm,
            hi !! h = Some s → dedupeLookup hi sha = None → <[sha := nm]> hi !! h = Some s)
    as Hins.
  { intros hi sha nm Hhi Hd. rewrite lookup_insert_ne; [done |]. intros ->.
    rewrite (proj2 (dedupeLookup_Some hi h s) (conj Hhi Hs)) in Hd. done. }
  split.
  - intros field. unfold uploadManifest.
    destruct field as [[|m]|]; [done | | done].
    destruct (_ || _ || _ || _)%bool; [done |].
    destruct (lookupUser users (f_authKey m)) as [user|]; [| done].
    destruct (assembleChunksToTemp _ _ _ _ _ _) as [[cf tf] [i|sha]]; [done |].
    destruct (dedupeLookup _ _) eqn:Ed; [done |].
    destruct (reserveSerialPath _ _ _ _ _ _) as [up [rsv|]]; [| done].
    destruct (finalizeReservation _ _ _ _ _ _) as [[tf' up'] [|]]; [| done].
    cbn. by apply Hins.
  - intros ps. unfold upload.
    destruct (directParts _ _ _ _ _ _) as [v tf].
    destruct (if truthy (d_authKey v) then d_user v else None) as [user|]; [| done].
    assert (∀ ss w0 saved, hashIndex w0 !! h = Some s →
              hashIndex (storeAll e (default "" (d_authKey v)) user ss (w0, saved)).1 !! h
              = Some s) as Hall.
    { induction ss as [|st ss IH]; intros w0 saved H0; cbn [storeAll fst]; [done |].
      assert (hashIndex (storeStaged e (default "" (d_authKey v)) user st (w0, saved)).1 !! h
              = Some s) as H1.
      { unfold storeStaged. destruct (dedupeLookup _ _) eqn:Ed; [done |].
        destruct (reserveSerialPath _ _ _ _ _ _) as [up [rsv|]]; [| done].
        destruct (finalizeReservation _ _ _ _ _ _) as [[tf' up'] [|]]; [| done].
        cbn. by apply Hins. }
      destruct (storeStaged _ _ _ _ _) as [w1 [saved1|]]; [| done].
      by apply IH. }
    specialize (Hall (d_staged v) (set_tmpFiles tf w) [] Hh).
    destruct (storeAll _ _ _ _ _) as [w1 [saved|]]; done.
Qed.

(** ** Restart *)

Lemma loadHashIndex_snoc (log : list log_entry) (en : log_entry) :
  loadHashIndex (log ++ [en])
  = if (truthy (Some (e_hash en)) && truthy (Some (e_savedName en))
        && negb (bool_decide (is_Some (loadHashIndex log !! e_hash en))))%bool
    then <[e_hash en := e_savedName en]> (loadHashIndex log) else loadHashIndex log.
Proof. unfold loadHashIndex. by rewrite fold_left_app. Qed.

(** Appending the entry of a deduplicated upload does not change the rebuilt
    index; appending the entry of a stored one adds its digest. *)
Lemma loadHashIndex_hit (log : list log_entry) (e : env)
    (authKey user name existing sha : string) :
  dedupeLookup (loadHashIndex log) sha = Some existing →
  loadHashIndex (log ++ [mkEntry e authKey user name existing sha true]) = loadHashIndex log.
Proof.
  intros Hd. apply dedupeLookup_Some in Hd as [Hh _].
  rewrite loadHashIndex_snoc. cbn [e_hash e_savedName mkEntry].
  rewrite Hh. rewrite bool_decide_eq_true_2 by by eexists.
  by rewrite andb_false_r.
Qed.

Lemma loadHashIndex_miss (log : list log_entry) (e : env)
    (authKey user name saved sha : string) :
  sha ≠ "" → saved ≠ "" →
  dedupeLookup (loadHashIndex log) sha = None →
  loadHashIndex (log ++ [mkEntry e authKey user name saved sha false])
  = <[sha := saved]> (loadHashIndex log).
Proof.
  intros Hsha Hsaved Hd.
  assert (loadHashIndex log !! sha = None) as Hnone.
  { destruct (loadHashIndex log !! sha) as [s|] eqn:E; [| done].
    pose proof (loadHashIndex_ok log sha s E) as Hs.
    rewrite (proj2 (dedupeLookup_Some _ _ _) (conj E Hs)) in Hd. done. }
  rewrite loadHashIndex_snoc. cbn [e_hash e_savedName mkEntry].
  rewrite Hnone, !truthy_nonempty by done.
  rewrite bool_decide_eq_false_2; [done |]. by intros [? ?].
Qed.

(** X18.  The index in memory is the index a restart would rebuild: if the
    hash index equals the index rebuilt from the log, it still does after
    any finalize and after any direct upload (digests being non-empty
    strings, as SHA-256 hex digests are). *)
Theorem hash_index_is_rebuilt_from_log
    (P : platform) (users : gmap string string) (e : env) (w : world) :
  (∀ bs, sha256hex P bs ≠ "") →
  hashIndex w = loadHashIndex (uploadLog w) →
  (∀ field, let w' := (uploadManifest P users e field w).1 in
     hashIndex w' = loadHashIndex (uploadLog w'))
  ∧ (∀ ps, let w' := (upload P users e ps w).1 in
       hashIndex w' = loadHashIndex (uploadLog w')).
Proof.
  intros Hsha Hinv. split.
  - intros field. cbv zeta. unfold uploadManifest.
    destruct field as [[|m]|]; [done | | done].
    destruct (_ || _ || _ || _)%bool; [done |].
    destruct (lookupUser users (f_authKey m)) as [user|]; [| done].
    destruct (assembleChunksToTemp _ _ _ _ _ _) as [[cf tf] [i|sha]] eqn:Ea; [done |].
    apply assemble_digest_of_output in Ea as (data & _ & ->).
    destruct (dedupeLookup _ _) as [existing|] eqn:Ed.
    + cbn [fst hashIndex uploadLog]. rewrite Hinv in Ed. by rewrite loadHashIndex_hit.
    + destruct (reserveSerialPath _ _ _ _ _ _) as [up [rsv|]] eqn:Er; [| done].
      destruct (finalizeReservation _ _ _ _ _ _) as [[tf' up'] [|]]; [| done].
      cbn [fst hashIndex uploadLog]. rewrite Hinv in Ed.
      rewrite loadHashIndex_miss, Hinv; try done.
      by eapply reserveSerialPath_finalPath_nonempty.
  - intros ps. cbv zeta. unfold upload.
    destruct (directParts _ _ _ _ _ _) as [v tf] eqn:Edp.
    assert (Forall (fun s => s_sha256 s ≠ "") (d_staged v)) as Hst.
    { assert (∀ ps k v0 tf0, Forall (fun s => s_sha256 s ≠ "") (d_staged v0) →
                Forall (fun s => s_sha256 s ≠ "")
                  (d_staged (directParts P users e k ps (v0, tf0)).1)) as Hdp.
      { induction ps0 as [|p ps0 IH]; intros k v0 tf0 H0; cbn [directParts fst]; [done |].
        destruct p as [f val|f fn mt data]; cbn [directPart].
        - destruct (String.eqb f "authKey"); by apply IH.
        - apply IH. cbn. apply Forall_app. split; [done |].
          constructor; [apply Hsha | constructor]. }
      specialize (Hdp ps 0%nat {| d_authKey := None; d_user := None; d_staged := [] |}
                    (tmpFiles w) (Forall_nil_2 _)).
      by rewrite Edp in Hdp. }
    destruct (if truthy (d_authKey v) then d_user v else None) as [user|]; [| done].
    assert (∀ ss w0 saved, Forall (fun s => s_sha256 s ≠ "") ss →
              hashIndex w0 = loadHashIndex (uploadLog w0) →
              let w1 := (storeAll e (default "" (d_authKey v)) user ss (w0, saved)).1 in
              hashIndex w1 = loadHashIndex (uploadLog w1)) as Hall.
    { induction ss as [|st ss IH]; intros w0 saved Hss H0; cbn [storeAll fst]; [done |].
      apply Forall_cons in Hss as [Hs Hss].
      assert (let w1 := (storeStaged e (default "" (d_authKey v)) user st (w0, saved)).1 in
              hashIndex w1 = loadHashIndex (uploadLog w1)) as H1.
      { unfold storeStaged. destruct (dedupeLookup _ _) as [existing|] eqn:Ed.
        - cbn [fst hashIndex uploadLog]. rewrite H0 in Ed. by rewrite loadHashIndex_hit.
        - destruct (reserveSerialPath _ _ _ _ _ _) as [up [rsv|]] eqn:Er; [| done].
          destruct (finalizeReservation _ _ _ _ _ _) as [[tf' up'] [|]]; [| done].
          cbn [fst hashIndex uploadLog]. rewrite H0 in Ed.
          rewrite loadHashIndex_miss, H0; try done.
          by eapply reserveSerialPath_finalPath_nonempty. }
      destruct (storeStaged _ _ _ _ _) as [w1 [saved1|]]; [| done].
      by apply IH. }
    specialize (Hall (d_staged v) (set_tmpFiles tf w) [] Hst Hinv).
    destruct (storeAll _ _ _ _ _) as [w1 [saved|]]; done.
Qed.

(** ** Direct upload: rejection *)

Lemma directParts_staged (P : platform) (users : gmap string string) (e : env)
    (ps : list part) :
  ∀ (k : nat) (v : direct_vars) (tf : gmap string (list byte)),
    let r := directParts P users e k ps (v, tf) in
    (∀ s, s ∈ d_staged r.1 →
       s ∈ d_staged v ∨ ∃ i, s_tmpPath s = stageName e (k + i) ∧ (i < length ps)%nat)
    ∧ (∀ i f fn mt data, ps !! i = Some (PFile f fn mt data) →
         ∃ s, s ∈ d_staged r.1 ∧ s_tmpPath s = stageName e (k + i))
    ∧ (∀ s, s ∈ d_staged v → s ∈ d_staged r.1)
    ∧ (∀ nm, (∀ i, nm ≠ stageName e i) → r.2 !! nm = tf !! nm).
Proof.
  induction ps as [|p ps IH]; intros k v tf; cbn [directParts].
  - repeat split; try done. intros; by left.
  - destruct (IH (S k) (directPart P users e k p (v, tf)).1
                (directPart P users e k p (v, tf)).2) as (H1 & H2 & H3 & H4).
    rewrite <- surjective_pairing in H1, H2, H3, H4. cbv zeta in *.
    destruct p as [f val|f fn mt data]; cbn [directPart] in *.
    + assert ((if String.eqb f "authKey"
               then ({| d_authKey := Some (trim val); d_user := lookupUser users (trim val);
                        d_staged := d_staged v |}, tf) else (v, tf))
              = ((if String.eqb f "authKey"
                  then {| d_authKey := Some (trim val); d_user := lookupUser users (trim val);
                          d_staged := d_staged v |} else v), tf)) as Eq
        by (by destruct (String.eqb f "authKey")).
      rewrite Eq in *. cbn [fst snd] in *.
      assert (d_staged (if String.eqb f "authKey"
                        then {| d_authKey := Some (trim val);
                                d_user := lookupUser users (trim val);
                                d_staged := d_staged v |} else v) = d_staged v) as Es
        by (by destruct (String.eqb f "authKey")).
      rewrite Es in *.
      split; [| split; [| split]]; try done.
      * intros s Hs. destruct (H1 s Hs) as [|[i [Hi Hlt]]]; [by left |].
        right. exists (S i). split; [by rewrite Hi; f_equal; lia | simpl; lia].
      * intros [|i] f' fn mt data Hi; [done |]. simpl in Hi.
        destruct (H2 i f' fn mt data Hi) as (s & Hs & Hp). exists s. split; [done |].
        rewrite Hp. f_equal. lia.
    + cbn [fst snd d_staged] in *.
      split; [| split; [| split]].
      * intros s Hs. destruct (H1 s Hs) as [Hin|[i [Hi Hlt]]].
        -- apply elem_of_app in Hin as [|Hin]; [by left |].
           apply list_elem_of_singleton in Hin. subst s. right. exists 0%nat.
           cbn. split; [by rewrite Nat.add_0_r | lia].
        -- right. exists (S i). split; [by rewrite Hi; f_equal; lia | simpl; lia].
      * intros [|i] f' fn' mt' data' Hi.
        -- eexists. split; [apply H3, elem_of_app; right; by apply list_elem_of_singleton |].
           cbn. by rewrite Nat.add_0_r.
        -- simpl in Hi. destruct (H2 i f' fn' mt' data' Hi) as (s & Hs & Hp).
           exists s. split; [done |]. rewrite Hp. f_equal. lia.
      * intros s Hs. apply H3, elem_of_app. by left.
      * intros nm Hnm. rewrite H4 by done. by rewrite lookup_insert_ne.
Qed.

Lemma foldr_delete_lookup (ss : list staged) (tf : gmap string (list byte)) (nm : string) :
  foldr (fun s m => delete (s_tmpPath s) m) tf ss !! nm
  = if bool_decide (nm ∈ s_tmpPath <$> ss) then None else tf !! nm.
Proof.
  induction ss as [|s ss IH]; [done |].
  cbn [foldr]. rewrite fmap_cons, lookup_delete.
  destruct (decide (s_tmpPath s = nm)) as [->|Hne].
  - rewrite bool_decide_eq_true_2; [done |]. apply elem_of_cons. by left.
  - rewrite IH. destruct (decide (nm ∈ s_tmpPath <$> ss)) as [Hin|Hout].
    + rewrite !bool_decide_eq_true_2; [done | | done]. apply elem_of_cons. by right.
    + rewrite !bool_decide_eq_false_2; [done | | done].
      intros [E|Hin]%elem_of_cons; [by apply Hne | by apply Hout].
Qed.

(** X19.  A direct upload without a known key is rejected with nothing left
    behind: every file of the request has been staged by then, and the
    handler unlinks each staged file before it answers 403; temp files under
    other names, the upload directory, the index and the log are as before. *)
Theorem rejected_direct_upload_is_cleaned_up
    (P : platform) (users : gmap string string) (e : env) (ps : list part)
    (w w' : world) (msg : string) :
  upload P users e ps w = (w', RError 403 msg) →
  (∀ i f fn mt data, ps !! i = Some (PFile f fn mt data) →
     tmpFiles w' !! stageName e i = None)
  ∧ (∀ nm, (∀ i, nm ≠ stageName e i) → tmpFiles w' !! nm = tmpFiles w !! nm)
  ∧ uploads w' = uploads w ∧ chunkFiles w' = chunkFiles w ∧ manifests w' = manifests w
  ∧ hashIndex w' = hashIndex w ∧ uploadLog w' = uploadLog w ∧ logFile w' = logFile w.
Proof.
  unfold upload.
  pose proof (directParts_staged P users e ps 0
                {| d_authKey := None; d_user := None; d_staged := [] |} (tmpFiles w))
    as (H1 & H2 & _ & H4).
  destruct (directParts _ _ _ _ _ _) as [v tf]. cbn [fst snd] in *.
  destruct (if truthy (d_authKey v) then d_user v else None) as [user|].
  - destruct (storeAll _ _ _ _ _) as [w1 [saved|]]; [done |]. by intros [= <- ?].
  - intros [= <- _]. cbn. repeat split; try done.
    + intros i f fn mt data Hi. rewrite foldr_delete_lookup.
      destruct (H2 i f fn mt data Hi) as (s & Hs & Hp).
      rewrite bool_decide_eq_true_2; [done |].
      apply list_elem_of_fmap. exists s. by rewrite Hp.
    + intros nm Hnm. rewrite foldr_delete_lookup.
      rewrite bool_decide_eq_false_2; [by apply H4 |].
      intros Hin. apply list_elem_of_fmap in Hin as (s & -> & Hs).
      destruct (H1 s Hs) as [Hs0 | (i & Hi & _)]; [by apply not_elem_of_nil in Hs0 |].
      by apply (Hnm i).
Qed.

(** ** The janitor *)

Lemma slice_from_add (n m : nat) (s : string) :
  slice_from (n + m) s = slice_from m (slice_from n s).
Proof.
  revert s. induction n as [|n IH]; intros s; [done |].
  destruct s as [|c s]; simpl; [by destruct m | apply IH].
Qed.

(** The suffix test on a name built by appending looks at the appended part
    alone once that part is long enough. *)
Lemma endsWith_append (a b suffix : string) :
  (String.length suffix ≤ String.length b)%nat →
  endsWith (a +:+ b) suffix
  = String.eqb (slice_from (String.length b - String.length suffix) b) suffix.
Proof.
  intros Hle. unfold endsWith. rewrite length_append.
  replace (String.length suffix <=? String.length a + String.length b)%nat with true
    by (symmetry; apply Nat.leb_le; lia).
  replace (String.length a + String.length b - String.length suffix)%nat
    with (String.length a + (String.length b - String.length suffix))%nat by lia.
  by rewrite slice_from_add, slice_from_append.
Qed.

Lemma removeIfOlder_present (ttl now : Z) (nm : string) (d : gmap string node) (x : node) :
  d !! nm = Some x →
  removeIfOlder ttl now nm d = if ttl <? now - node_mtime x then delete nm d else d.
Proof. intros H. unfold removeIfOlder, rmrf. by rewrite H. Qed.

(** A loop over the entries whose body removes the entry at hand or nothing
    removes exactly the entries its test selects. *)
Lemma fold_sweep_lookup (body : gmap string node → string * node → gmap string node)
    (doomed : string → node → bool) :
  (∀ acc k v, acc !! k = Some v →
     body acc (k, v) = if doomed k v then delete k acc else acc) →
  ∀ (l : list (string * node)) (acc : gmap string node) (nm : string),
    NoDup l.*1 →
    (∀ k v, (k, v) ∈ l → acc !! k = Some v) →
    fold_left body l acc !! nm
    = match acc !! nm with
      | Some x => if (bool_decide (nm ∈ l.*1) && doomed nm x)%bool then None else Some x
      | None => None
      end.
Proof.
  intros Hbody l. induction l as [|[k v] l IH]; intros acc nm Hnd Hin.
  - cbn [fold_left]. destruct (acc !! nm) as [x|]; [| done].
    rewrite bool_decide_eq_false_2; [done | by intros ?%elem_of_nil].
  - rewrite fmap_cons in Hnd. apply NoDup_cons in Hnd as [Hk Hnd].
    assert (acc !! k = Some v) as Hkv by (apply Hin; left).
    cbn [fold_left]. rewrite (Hbody acc k v Hkv).
    assert (∀ k' v', (k', v') ∈ l → k' ≠ k) as Hne.
    { intros k' v' Hin' ->. apply Hk. apply list_elem_of_fmap. by exists (k, v'). }
    rewrite IH; [| done |].
    2:{ intros k' v' Hin'. destruct (doomed k v).
        - rewrite lookup_delete_ne by (intros ->; by eapply Hne). apply Hin. by right.
        - apply Hin. by right. }
    destruct (decide (nm = k)) as [->|Hnk].
    + rewrite Hkv.
      rewrite (bool_decide_eq_true_2 (k ∈ ((k, v) :: l).*1)) by (rewrite fmap_cons; left).
      destruct (doomed k v) eqn:Ed; cbn [andb].
      * by rewrite lookup_delete_eq.
      * rewrite Hkv, Ed. by rewrite andb_false_r.
    + assert ((if doomed k v then delete k acc else acc) !! nm = acc !! nm) as ->.
      { destruct (doomed k v); [by rewrite lookup_delete_ne | done]. }
      destruct (acc !! nm) as [x|]; [| done].
      assert (bool_decide (nm ∈ ((k, v) :: l).*1) = bool_decide (nm ∈ l.*1)) as ->; [| done].
      apply bool_decide_ext. rewrite fmap_cons, elem_of_cons. cbn [fst].
      split; [by intros [?|?] | by right].
Qed.

Lemma forEachEntry_lookup (body : gmap string node → string * node → gmap string node)
    (doomed : string → node → bool) (d : gmap string node) (nm : string) :
  (∀ acc k v, acc !! k = Some v →
     body acc (k, v) = if doomed k v then delete k acc else acc) →
  forEachEntry body d !! nm
  = match d !! nm with
    | Some x => if doomed nm x then None else Some x
    | None => None
    end.
Proof.
  intros Hbody. unfold forEachEntry.
  rewrite (fold_sweep_lookup body doomed Hbody).
  - destruct (d !! nm) as [x|] eqn:E; [| done].
    rewrite bool_decide_eq_true_2; [done |].
    apply list_elem_of_fmap. exists (nm, x). split; [done | by apply elem_of_map_to_list].
  - apply NoDup_fst_map_to_list.
  - intros k v. apply elem_of_map_to_list.
Qed.

Lemma cleanUploadEntry_body (lockTtl now : Z) (acc : gmap string node)
    (k : string) (v : node) :
  acc !! k = Some v →
  cleanUploadEntry lockTtl now acc (k, v)
  = if staleMarker lockTtl now k v then delete k acc else acc.
Proof.
  intros H. unfold cleanUploadEntry, staleMarker. cbn [fst snd].
  destruct v as [data t|t]; cbn [isDirectory isFile andb orb node_mtime].
  - destruct (endsWith k ".serial"); cbn [andb orb]; [| done].
    by rewrite (removeIfOlder_present _ _ _ _ _ H).
  - destruct (endsWith k ".lock"); cbn [andb orb]; [| done].
    by rewrite (removeIfOlder_present _ _ _ _ _ H).
Qed.

Lemma cleanTempEntry_body (tmpTtl now : Z) (acc : gmap string node)
    (k : string) (v : node) :
  acc !! k = Some v →
  cleanTempEntry tmpTtl now acc (k, v)
  = if tmpTtl <? now - node_mtime v then delete k acc else acc.
Proof. intros H. unfold cleanTempEntry. by rewrite (removeIfOlder_present _ _ _ _ _ H). Qed.

Lemma cleanManifestEntry_body (tmpTtl now : Z) (acc : gmap string node)
    (k : string) (v : node) :
  acc !! k = Some v →
  cleanManifestEntry tmpTtl now acc (k, v)
  = if (endsWith k ".json" && (tmpTtl <? now - node_mtime v))%bool
    then delete k acc else acc.
Proof.
  intros H. unfold cleanManifestEntry. cbn [fst].
  destruct (endsWith k ".json"); cbn [negb andb]; [| done].
  by rewrite (removeIfOlder_present _ _ _ _ _ H).
Qed.

Lemma cleanup_uploads_lookup (lockTtl tmpTtl now : Z) (jd : janitor_dirs) (nm : string) :
  jd_uploads (cleanupOnce lockTtl tmpTtl now jd) !! nm
  = match jd_uploads jd !! nm with
    | Some x => if staleMarker lockTtl now nm x then None else Some x
    | None => None
    end.
Proof.
  cbn [cleanupOnce jd_uploads].
  apply forEachEntry_lookup. intros acc k v. apply cleanUploadEntry_body.
Qed.

Lemma cleanup_tmp_lookup (lockTtl tmpTtl now : Z) (jd : janitor_dirs) (nm : string) :
  jd_tmp (cleanupOnce lockTtl tmpTtl now jd) !! nm
  = match jd_tmp jd !! nm with
    | Some x => if tmpTtl <? now - node_mtime x then None else Some x
    | None => None
    end.
Proof.
  cbn [cleanupOnce jd_tmp].
  apply (forEachEntry_lookup _ (fun _ x => tmpTtl <? now - node_mtime x)).
  intros acc k v. apply cleanTempEntry_body.
Qed.

Lemma cleanup_chunks_lookup (lockTtl tmpTtl now : Z) (jd : janitor_dirs) (nm : string) :
  jd_chunks (cleanupOnce lockTtl tmpTtl now jd) !! nm
  = match jd_chunks jd !! nm with
    | Some x => if tmpTtl <? now - node_mtime x then None else Some x
    | None => None
    end.
Proof.
  cbn [cleanupOnce jd_chunks].
  apply (forEachEntry_lookup _ (fun _ x => tmpTtl <? now - node_mtime x)).
  intros acc k v. apply cleanTempEntry_body.
Qed.

Lemma cleanup_manifests_lookup (lockTtl tmpTtl now : Z) (jd : janitor_dirs) (nm : string) :
  jd_manifests (cleanupOnce lockTtl tmpTtl now jd) !! nm
  = match jd_manifests jd !! nm with
    | Some x =>
        if (endsWith nm ".json" && (tmpTtl <? now - node_mtime x))%bool
        then None else Some x
    | None => None
    end.
Proof.
  cbn [cleanupOnce jd_manifests].
  apply (forEachEntry_lookup _
           (fun k x => (endsWith k ".json" && (tmpTtl <? now - node_mtime x))%bool)).
  intros acc k v. apply cleanManifestEntry_body.
Qed.

(** X20. The janitor never deletes a stored upload.  In the upload
    directory a pass creates and changes nothing; every file whose name does
    not end in [.serial] and every directory whose name does not end in
    [.lock] is still there afterwards, whatever its age, and so is every
    entry no older than the lock threshold; a reservation marker of the
    allocator that is older than the threshold is gone. *)
Theorem janitor_never_deletes_uploads (lockTtl tmpTtl now : Z) (jd : janitor_dirs) :
  let up' := jd_uploads (cleanupOnce lockTtl tmpTtl now jd) in
  (∀ nm x, up' !! nm = Some x → jd_uploads jd !! nm = Some x)
  ∧ (∀ nm data t, jd_uploads jd !! nm = Some (NFile data t) →
       endsWith nm ".serial" = false → up' !! nm = Some (NFile data t))
  ∧ (∀ nm t, jd_uploads jd !! nm = Some (NDir t) →
       endsWith nm ".lock" = false → up' !! nm = Some (NDir t))
  ∧ (∀ nm x, jd_uploads jd !! nm = Some x →
       now - node_mtime x ≤ lockTtl → up' !! nm = Some x)
  ∧ (∀ name prefix n ext t,
       jd_uploads jd !! lockDir (serialPaths name prefix n ext) = Some (NDir t) →
       lockTtl < now - t →
       up' !! lockDir (serialPaths name prefix n ext) = None).
Proof.
  intros up'. subst up'. split; [| split; [| split; [| split]]].
  - intros nm x. rewrite cleanup_uploads_lookup.
    destruct (jd_uploads jd !! nm) as [y|]; [| done].
    by destruct (staleMarker lockTtl now nm y).
  - intros nm data t H Hs. rewrite cleanup_uploads_lookup, H.
    unfold staleMarker. cbn [isDirectory isFile andb orb]. by rewrite Hs.
  - intros nm t H Hs. rewrite cleanup_uploads_lookup, H.
    unfold staleMarker. cbn [isDirectory isFile andb orb]. by rewrite Hs.
  - intros nm x H Hage. rewrite cleanup_uploads_lookup, H.
    unfold staleMarker.
    replace (lockTtl <? now - node_mtime x) with false
      by (symmetry; apply Z.ltb_ge; lia).
    by rewrite andb_false_r.
  - intros name prefix n ext t H Hage. rewrite cleanup_uploads_lookup, H.
    unfold staleMarker. cbn [isDirectory isFile andb orb node_mtime lockDir serialPaths].
    rewrite (endsWith_append _ ".lock" ".lock") by done.
    replace (lockTtl <? now - t) with true by (symmetry; apply Z.ltb_lt; lia).
    done.
Qed.

(** X21. What the janitor reclaims outside the upload directory.  In the
    temp and the chunk directory an entry survives a pass exactly when it is
    no older than the temp threshold.  In the manifest directory a manifest
    [<id>.json] older than the threshold is removed, while the [<id>.json.tmp]
    an interrupted atomic write leaves behind is never removed, whatever its
    age. *)
Theorem janitor_reclaims_by_age (lockTtl tmpTtl now : Z) (jd : janitor_dirs) :
  let jd' := cleanupOnce lockTtl tmpTtl now jd in
  (∀ nm x, jd_tmp jd' !! nm = Some x
           ↔ jd_tmp jd !! nm = Some x ∧ now - node_mtime x ≤ tmpTtl)
  ∧ (∀ nm x, jd_chunks jd' !! nm = Some x
             ↔ jd_chunks jd !! nm = Some x ∧ now - node_mtime x ≤ tmpTtl)
  ∧ (∀ id x, jd_manifests jd !! getManifestPath id = Some x →
       tmpTtl < now - node_mtime x →
       jd_manifests jd' !! getManifestPath id = None)
  ∧ (∀ id x, jd_manifests jd !! (getManifestPath id +:+ ".tmp") = Some x →
       jd_manifests jd' !! (getManifestPath id +:+ ".tmp") = Some x).
Proof.
  intros jd'. subst jd'.
  assert (∀ (o : option node) x,
            match o with
            | Some y => if tmpTtl <? now - node_mtime y then None else Some y
            | None => None
            end = Some x
            ↔ o = Some x ∧ now - node_mtime x ≤ tmpTtl) as Hage.
  { intros [y|] x; [| split; [done | by intros [? _]]].
    destruct (Z.ltb_spec tmpTtl (now - node_mtime y)); split.
    - done.
    - intros [[= ->] ?]. lia.
    - intros [= ->]. split; [done | lia].
    - by intros [? _]. }
  split; [| split; [| split]].
  - intros nm x. rewrite cleanup_tmp_lookup. apply Hage.
  - intros nm x. rewrite cleanup_chunks_lookup. apply Hage.
  - intros id x H Hold. rewrite cleanup_manifests_lookup, H.
    unfold getManifestPath. rewrite (endsWith_append _ ".json" ".json") by done.
    replace (tmpTtl <? now - node_mtime x) with true by (symmetry; apply Z.ltb_lt; lia).
    done.
  - intros id x H. rewrite cleanup_manifests_lookup, H.
    unfold getManifestPath. rewrite append_assoc.
    rewrite (endsWith_append _ (".json" +:+ ".tmp") ".json")
      by (by apply Nat.leb_le).
    set (b := String.eqb _ _). vm_compute in b. subst b. done.
Qed.

Lemma sweep_twice (o : option node) (p q q' : node → bool) :
  (∀ x, q x = true → q' x = true) →
  match
    match o with
    | Some x => if (p x && q x)%bool then None else Some x
    | None => None
    end
  with
  | Some x => if (p x && q' x)%bool then None else Some x
  | None => None
  end
  = match o with
    | Some x => if (p x && q' x)%bool then None else Some x
    | None => None
    end.
Proof.
  intros H. destruct o as [x|]; [| done].
  destruct (p x) eqn:Ep; cbn [andb]; [| by rewrite Ep].
  destruct (q x) eqn:Eq; [by rewrite (H _ Eq) | by rewrite Ep].
Qed.

(** X22. Janitor passes compose: a pass at a later time after an earlier
    pass leaves the four directories as the later pass alone would; in
    particular a second pass at the same time changes nothing. *)
Theorem janitor_passes_compose (lockTtl tmpTtl now now' : Z) (jd : janitor_dirs) :
  now ≤ now' →
  cleanupOnce lockTtl tmpTtl now' (cleanupOnce lockTtl tmpTtl now jd)
  = cleanupOnce lockTtl tmpTtl now' jd.
Proof.
  intros Hle.
  assert (∀ ttl (x : node),
            (ttl <? now - node_mtime x) = true → (ttl <? now' - node_mtime x) = true)
    as Hmono.
  { intros ttl x H%Z.ltb_lt. apply Z.ltb_lt. lia. }
  assert (∀ jd1 jd2 : janitor_dirs,
            jd_uploads jd1 = jd_uploads jd2 → jd_tmp jd1 = jd_tmp jd2 →
            jd_chunks jd1 = jd_chunks jd2 → jd_manifests jd1 = jd_manifests jd2 →
            jd1 = jd2) as Hext.
  { intros [] []; cbn; by intros -> -> -> ->. }
  apply Hext; apply map_eq; intros nm.
  - rewrite !cleanup_uploads_lookup. unfold staleMarker.
    exact (sweep_twice _
             (fun x => (isDirectory x && endsWith nm ".lock"
                        || isFile x && endsWith nm ".serial")%bool)
             _ _ (Hmono lockTtl)).
  - rewrite !cleanup_tmp_lookup.
    exact (sweep_twice _ (fun _ => true) _ _ (Hmono tmpTtl)).
  - rewrite !cleanup_chunks_lookup.
    exact (sweep_twice _ (fun _ => true) _ _ (Hmono tmpTtl)).
  - rewrite !cleanup_manifests_lookup.
    exact (sweep_twice _ (fun _ => endsWith nm ".json") _ _ (Hmono tmpTtl)).
Qed.
(** ** Key checks outside the upload routes *)

Lemma allSpace_app (a b : string) :
  allSpace a = true → allSpace b = true → allSpace (a +:+ b) = true.
Proof.
  intros Ha Hb. remember (String.length a) as n eqn:Hn.
  revert a Hn Ha. induction n as [n IH] using lt_wf_ind. intros a Hn Ha.
  destruct a as [|c r]; [done |].
  rewrite append_cons. cbn [allSpace] in *.
  destruct (is_space c).
  { apply (IH (String.length r)); [subst n; simpl; lia | done | done]. }
  destruct r as [|c2 r2]; [done |].
  rewrite append_cons.
  destruct (is_space2 c c2).
  { apply (IH (String.length r2)); [subst n; simpl; lia | done | done]. }
  destruct r2 as [|c3 r3]; [done |].
  rewrite append_cons.
  apply andb_true_iff in Ha as [H3 Ha]. rewrite H3. cbn [andb].
  apply (IH (String.length r3)); [subst n; simpl; lia | done | done].
Qed.

(** What [trimEnd] cuts off is white space. *)
Lemma trimEnd_split (s : string) : ∃ w, s = trimEnd s +:+ w ∧ allSpace w = true.
Proof.
  induction s as [|c r (w & Hr & Hw)]; [by exists "" |].
  cbn [trimEnd]. destruct (allSpace (String c r)) eqn:E.
  - by exists (String c r).
  - exists w. rewrite append_cons. by rewrite <- Hr.
Qed.

Lemma trimEnd_idem (s : string) : trimEnd (trimEnd s) = trimEnd s.
Proof.
  induction s as [|c r IH]; [done |].
  cbn [trimEnd]. destruct (allSpace (String c r)) eqn:E; [done |].
  cbn [trimEnd]. rewrite IH.
  destruct (allSpace (String c (trimEnd r))) eqn:E'; [| done].
  destruct (trimEnd_split r) as (w & Hr & Hw).
  pose proof (allSpace_app _ _ E' Hw) as H.
  rewrite append_cons, <- Hr in H. congruence.
Qed.

Lemma trimStart_leadSpace (s : string) : leadSpace s = false → trimStart s = s.
Proof.
  destruct s as [|c r]; [done |]. cbn [leadSpace trimStart].
  destruct (is_space c); [done |]. cbn [orb].
  destruct r as [|c2 r2]; [done |].
  destruct (is_space2 c c2); [done |]. cbn [orb].
  destruct r2 as [|c3 r3]; [done |].
  by intros ->.
Qed.

Lemma leadSpace_trimStart (s : string) : leadSpace (trimStart s) = false.
Proof.
  remember (String.length s) as n eqn:Hn.
  revert s Hn. induction n as [n IH] using lt_wf_ind. intros s Hn.
  destruct s as [|c r]; [done |].
  cbn [trimStart].
  destruct (is_space c) eqn:E1.
  { apply (IH (String.length r)); [subst n; simpl; lia | done]. }
  destruct r as [|c2 r2]; [cbn [leadSpace]; by rewrite E1 |].
  destruct (is_space2 c c2) eqn:E2.
  { apply (IH (String.length r2)); [subst n; simpl; lia | done]. }
  destruct r2 as [|c3 r3]; [cbn [leadSpace]; by rewrite E1, E2 |].
  destruct (is_space3 c c2 c3) eqn:E3.
  { apply (IH (String.length r3)); [subst n; simpl; lia | done]. }
  cbn [leadSpace]. by rewrite E1, E2, E3.
Qed.

Lemma leadSpace_prefix (a w : string) : leadSpace (a +:+ w) = false → leadSpace a = false.
Proof.
  destruct a as [|c [|c2 [|c3 r3]]]; rewrite ?append_cons; cbn [leadSpace]; try done.
  - intros H. apply orb_false_iff in H as [-> _]. done.
  - intros H. apply orb_false_iff in H as [-> H]. cbn [orb].
    destruct w; rewrite ?append_nil in H; apply orb_false_iff in H as [-> _]; done.
Qed.

(** Trimming a trimmed string changes nothing. *)
Lemma trim_idem (s : string) : trim (trim s) = trim s.
Proof.
  unfold trim. set (t := trimStart s).
  destruct (trimEnd_split t) as (w & Ht & _).
  assert (leadSpace (trimEnd t) = false) as Hl.
  { apply (leadSpace_prefix _ w). rewrite <- Ht. apply leadSpace_trimStart. }
  rewrite (trimStart_leadSpace _ Hl). apply trimEnd_idem.
Qed.

Lemma markReceived_not_403 (e : env) (uploadId : string) (index totalChunks : jsnum)
    (filename : option string) (isVideo : bool) (w : world) (msg : string) :
  (markReceived e uploadId index totalChunks filename isVideo w).2 ≠ RError 403 msg.
Proof.
  unfold markReceived.
  destruct (m_received _); cbn [snd]; congruence.
Qed.

Lemma uploadChunk_clientForm_unknown (users : gmap string string) (e : env)
    (authKey uploadId filename : string) (isVideo : bool)
    (index total : nat) (data : list byte) (w : world) :
  lookupUser users (trim authKey) = None →
  uploadId ≠ "" → trim uploadId = uploadId →
  (uploadChunk users e (clientChunkForm authKey uploadId filename isVideo index total data) w).2
  = RError 403 "Invalid authKey".
Proof.
  intros Hnone Hu Htrim. unfold uploadChunk.
  change (findPart unreadFile
            (clientChunkForm authKey uploadId filename isVideo index total data))
    with (@None nat).
  rewrite chunkParts_clientForm by (rewrite Htrim; by apply truthy_nonempty).
  cbn [v_authKey]. rewrite Hnone.
  by destruct (negb (truthy (Some (trim authKey)))).
Qed.

Lemma lookupUser_getUser (users : gmap string string) (key : string) :
  lookupUser users key = userText <$> getUser users key.
Proof. reflexivity. Qed.

(** X23.  The key check and the chunk receiver agree on every non-empty
    key: a request to [POST /auth-check] whose key the handler gets to read
    is answered [valid: false] exactly when [POST /upload-chunk] answers the
    client's form with the same key by 403 "Invalid authKey". *)
Theorem auth_check_agrees_with_chunk_receiver (users : gmap string string)
    (req : auth_req) (e e' : env) (key uploadId filename : string) (isVideo : bool)
    (index total : nat) (data : list byte) (w : world) :
  authKeyOf e req = Some (trim key) → trim key ≠ "" →
  uploadId ≠ "" → trim uploadId = uploadId →
  (authCheck users e req = AuthInvalid
   ↔ (uploadChunk users e'
        (clientChunkForm key uploadId filename isVideo index total data) w).2
     = RError 403 "Invalid authKey").
Proof.
  intros Hreq Hk Hu Htrim. unfold authCheck. rewrite Hreq.
  pose proof (lookupUser_getUser users (trim key)) as Hl.
  destruct (getUser users (trim key)) as [v|] eqn:E.
  - rewrite (uploadChunk_clientForm users e' key uploadId filename (userText v) isVideo
               index total data w Hk Hl Hu Htrim).
    split; [done |]. intros H. by apply markReceived_not_403 in H.
  - split; [| done]. intros _. by apply uploadChunk_clientForm_unknown.
Qed.

(** X24.  The key [GET /] selects for the page, its variable [injected],
    is [UNAUTHENTICATED] or a key the server accepts: it is the trimmed
    query key, it is not empty, the key check answers it [valid: true], and
    the chunk receiver does not answer the client's form carrying it by
    403. *)
Theorem page_key_is_placeholder_or_accepted (users : gmap string string)
    (raw : string) :
  let k := injectedKey users raw in
  k = "UNAUTHENTICATED"
  ∨ (k = trim raw ∧ k ≠ ""
     ∧ (∀ e, ∃ v, authCheck users e (AJson k) = AuthValid v)
     ∧ ∀ e uploadId filename isVideo index total data w,
         uploadId ≠ "" → trim uploadId = uploadId →
         (uploadChunk users e
            (clientChunkForm k uploadId filename isVideo index total data) w).2
         ≠ RError 403 "Invalid authKey").
Proof.
  intros k. subst k. unfold injectedKey.
  set (urlKey := trim raw).
  destruct (truthy (Some urlKey)) eqn:Et; cbn [andb]; [| by left].
  pose proof (lookupUser_getUser users urlKey) as Hl.
  destruct (getUser users urlKey) as [v|] eqn:E; rewrite Hl; cbn [fmap option_fmap option_map];
    [| by left].
  right.
  assert (trim urlKey = urlKey) as Hidem by apply trim_idem.
  assert (urlKey ≠ "") as Hne by (intros H; by rewrite H in Et).
  split; [done |]. split; [done |]. split.
  - intros e. exists v. unfold authCheck. cbn [authKeyOf]. by rewrite Hidem, E.
  - intros e uploadId filename isVideo index total data w Hu Htrim.
    rewrite (uploadChunk_clientForm users e urlKey uploadId filename (userText v) isVideo
               index total data w); [apply markReceived_not_403 | | | done | done].
    + by rewrite Hidem.
    + by rewrite Hidem.
Qed.

(** ** Direct upload: the log of a successful request *)

Lemma directParts_staged_list (P : platform) (users : gmap string string) (e : env)
    (ps : list part) :
  ∀ (k : nat) (v : direct_vars) (tf : gmap string (list byte)),
    (fun s => (s_originalName s, s_sha256 s))
      <$> d_staged (directParts P users e k ps (v, tf)).1
    = ((fun s => (s_originalName s, s_sha256 s)) <$> d_staged v)
      ++ ((fun fd : string * list byte => (fd.1, sha256hex P fd.2)) <$> fileParts ps).
Proof.
  induction ps as [|p ps IH]; intros k v tf; cbn [directParts].
  - cbn. by rewrite app_nil_r.
  - destruct p as [f val|f fn mt data]; cbn [directPart].
    + destruct (String.eqb f "authKey"); by rewrite IH.
    + rewrite IH. cbn [d_staged]. rewrite fmap_app, <- app_assoc. done.
Qed.

Lemma directParts_key (P : platform) (users : gmap string string) (e : env)
    (ps : list part) :
  ∀ (k : nat) (v : direct_vars) (tf : gmap string (list byte)),
    (∀ key, d_authKey v = Some key → d_user v = lookupUser users key) →
    ∀ key, d_authKey (directParts P users e k ps (v, tf)).1 = Some key →
           d_user (directParts P users e k ps (v, tf)).1 = lookupUser users key.
Proof.
  induction ps as [|p ps IH]; intros k v tf Hv; cbn [directParts]; [done |].
  destruct p as [f val|f fn mt data]; cbn [directPart].
  - destruct (String.eqb f "authKey"); apply IH; [| done].
    cbn. by intros ? [= <-].
  - apply IH. done.
Qed.

Lemma storeStaged_log (e : env) (authKey user : string) (s : staged)
    (w0 w1 : world) (saved saved1 : list string) :
  storeStaged e authKey user s (w0, saved) = (w1, Some saved1) →
  ∃ en, uploadLog w1 = uploadLog w0 ++ [en]
        ∧ e_originalName en = s_originalName s ∧ e_hash en = s_sha256 s
        ∧ e_authKey en = authKey ∧ e_fullName en = user
        ∧ saved1 = saved ++ (if e_deduped en then [] else [e_savedName en]).
Proof.
  unfold storeStaged.
  destruct (dedupeLookup _ _) as [existing|].
  - intros [= <- <-]. eexists. cbn. repeat split. by rewrite app_nil_r.
  - destruct (reserveSerialPath _ _ _ _ _ _) as [up [rsv|]]; [| done].
    destruct (finalizeReservation _ _ _ _ _ _) as [[tf' up'] [|]]; [| done].
    intros [= <- <-]. eexists. cbn. by repeat split.
Qed.

Lemma storeAll_log (e : env) (authKey user : string) (ss : list staged) :
  ∀ (w0 w1 : world) (saved files : list string),
    storeAll e authKey user ss (w0, saved) = (w1, Some files) →
    ∃ entries,
      uploadLog w1 = uploadLog w0 ++ entries
      ∧ (fun en => (e_originalName en, e_hash en)) <$> entries
        = (fun s => (s_originalName s, s_sha256 s)) <$> ss
      ∧ Forall (fun en => e_authKey en = authKey ∧ e_fullName en = user) entries
      ∧ files = saved ++ (e_savedName <$> filter (fun en => e_deduped en = false) entries).
Proof.
  induction ss as [|s ss IH]; intros w0 w1 saved files; cbn [storeAll].
  - intros [= <- <-]. exists []. cbn. by rewrite !app_nil_r.
  - destruct (storeStaged e authKey user s (w0, saved)) as [w2 [saved2|]] eqn:E; [| done].
    intros Hall.
    destruct (storeStaged_log _ _ _ _ _ _ _ _ E) as (en & Hlog & Hn & Hh & Hk & Hu & Hs).
    destruct (IH _ _ _ _ Hall) as (entries & Hlog' & Hmap & Hown & Hfiles).
    exists (en :: entries). split; [| split; [| split]].
    + rewrite Hlog', Hlog, <- app_assoc. done.
    + rewrite !fmap_cons, Hmap, Hn, Hh. done.
    + by constructor.
    + rewrite Hfiles, Hs, <- app_assoc. f_equal.
      destruct (e_deduped en) eqn:Ed.
      * rewrite filter_cons_False by (by rewrite Ed). done.
      * rewrite filter_cons_True by done. done.
Qed.

(** X25. A successful direct upload accounts for every file of the request:
    the log grows by exactly one entry per file part, in the order of the
    parts, each with the part's file name, the digest of its bytes and the
    uploader's key and full name; the log on disk is level with the log in
    memory; and the names in the answer are the saved names of the entries
    that were not deduplicated. *)
Theorem direct_upload_logs_every_file
    (P : platform) (users : gmap string string) (e : env) (ps : list part)
    (w w' : world) (files : list string) :
  upload P users e ps w = (w', RFiles files) →
  ∃ entries key user,
    uploadLog w' = uploadLog w ++ entries
    ∧ logFile w' = uploadLog w'
    ∧ (fun en => (e_originalName en, e_hash en)) <$> entries
      = (fun fd : string * list byte => (fd.1, sha256hex P fd.2)) <$> fileParts ps
    ∧ lookupUser users key = Some user
    ∧ Forall (fun en => e_authKey en = key ∧ e_fullName en = user) entries
    ∧ files = e_savedName <$> filter (fun en => e_deduped en = false) entries.
Proof.
  unfold upload.
  pose proof (directParts_staged_list P users e ps 0
                {| d_authKey := None; d_user := None; d_staged := [] |} (tmpFiles w))
    as Hst.
  pose proof (directParts_key P users e ps 0
                {| d_authKey := None; d_user := None; d_staged := [] |} (tmpFiles w))
    as Hkey.
  destruct (directParts _ _ _ _ _ _) as [v tf]. cbn [fst snd d_staged fmap list_fmap app] in *.
  destruct (d_authKey v) as [key|] eqn:Ek; [| by cbn].
  destruct (truthy (Some key)); [| done].
  destruct (d_user v) as [user|] eqn:Eu; [| done].
  destruct (storeAll _ _ _ _ _) as [w1 [saved|]] eqn:E; [| done].
  intros [= <- <-].
  destruct (storeAll_log _ _ _ _ _ _ _ _ E) as (entries & Hlog & Hmap & Hown & Hfiles).
  exists entries, key, user. cbn [uploadLog logFile default] in *.
  split; [done |]. split; [done |]. split; [by rewrite Hmap |].
  split; [| split; [done | done]].
  rewrite <- (Hkey ltac:(done) key eq_refl). done.
Qed.

(** * The further properties at concrete inputs *)

Lemma sampleDir_reserve :
  reserveSerialPath LOCK_TTL_DEFAULT (fun _ => 700000) sampleDir "Bob" false ".png"
  = (sampleDirReserved,
     Some {| res_finalPath := "Bob_IMG-0002.png";
             res_lockDir := "Bob_IMG-0002.lock"; res_n := 2 |}).
Proof. by_compute. Qed.

(** On [sampleDir] serial 2 is returned: it is free, 0 and 1 are not. *)
Lemma reserve_returns_least_free_witness :
  isFree sampleDir "Bob" false 2 = true
  ∧ isFree sampleDir "Bob" false 0 = false
  ∧ isFree sampleDir "Bob" false 1 = false.
Proof.
  destruct (reserve_returns_least_free _ _ _ _ _ _ _ _ sampleDir_reserve) as [H1 H2].
  split; [exact H1 |]. split; apply H2; reflexivity.
Defined.

(** A second allocation for Bob takes serial 0, whose stale marker the first
    one removed, not serial 2 again. *)
Lemma consecutive_reservations_witness :
  ∃ d2 r2,
    reserveSerialPath LOCK_TTL_DEFAULT (fun _ => 700000) sampleDirReserved "Bob" false ".jpg"
    = (d2, Some r2)
    ∧ 2%N ≠ res_n r2.
Proof.
  assert (reserveSerialPath LOCK_TTL_DEFAULT (fun _ => 700000) sampleDirReserved
            "Bob" false ".jpg"
          = (<["Bob_IMG-0000.lock" := NDir 700000]> sampleDirReserved,
             Some {| res_finalPath := "Bob_IMG-0000.jpg";
                     res_lockDir := "Bob_IMG-0000.lock"; res_n := 0 |})) as H2
    by by_compute.
  do 2 eexists. split; [exact H2 |].
  exact (consecutive_reservations_differ _ _ _ _ _ _ _ _ _ _ _ _ _
           sampleDir_reserve H2).
Defined.

(** The reserved serial 2 receives the staged bytes. *)
Lemma reserve_then_finalize_witness :
  ∃ up', finalizeReservation 700000 "t.tmp" "Bob_IMG-0002.png" "Bob_IMG-0002.lock"
           {[ "t.tmp" := ["A"%byte] ]} sampleDirReserved
         = (delete "t.tmp" {[ "t.tmp" := ["A"%byte] ]}, up', true)
         ∧ up' !! "Bob_IMG-0002.png" = Some (NFile ["A"%byte] 700000)
         ∧ up' !! "Bob_IMG-0002.lock" = None
         ∧ isFree up' "Bob" false 2 = false.
Proof.
  destruct (reserve_then_finalize_stores _ _ _ _ _ _ _ _ 700000 "t.tmp"
              {[ "t.tmp" := ["A"%byte] ]} ["A"%byte] sampleDir_reserve)
    as (up' & H1 & H2 & H3 & _ & H5).
  - right. by exists "png".
  - intros e H. change ("." +:+ e) with (String "." e) in H. injection H as <-.
    split; by_compute.
  - reflexivity.
  - exists up'. by repeat split.
Defined.

Lemma first_chunk_accepted :
  uploadChunk sampleUsers sampleEnv (sampleChunkParts "k1" "0" ["A"%byte]) emptyWorld
  = ((uploadChunk sampleUsers sampleEnv (sampleChunkParts "k1" "0" ["A"%byte]) emptyWorld).1,
     RChunkOk (Some 0)).
Proof. by_compute. Qed.

(** The first chunk of a new upload shows in the resume status. *)
Lemma accepted_chunk_witness :
  ∃ r, uploadStatus "u1"
         (uploadChunk sampleUsers sampleEnv (sampleChunkParts "k1" "0" ["A"%byte])
            emptyWorld).1 = RStatus r
       ∧ Some 0 ∈ r.
Proof.
  destruct (accepted_chunk_shows_in_status _ _ _ _ _ _ first_chunk_accepted)
    as (u & r & Hu & Hs & Hin & _).
  injection Hu as <-. by exists r.
Defined.

(** After the first chunk the received list has no duplicate. *)
Lemma received_duplicate_free_witness :
  ∃ r, uploadStatus "u1"
         (uploadChunk sampleUsers sampleEnv (sampleChunkParts "k1" "0" ["A"%byte])
            emptyWorld).1 = RStatus r
       ∧ NoDup r.
Proof.
  destruct (received_stays_duplicate_free _ _ _ _ _ _ first_chunk_accepted)
    as (u & r & Hu & Hs & Hnd).
  injection Hu as <-. exists r. split; [exact Hs |].
  apply Hnd. intros r0 [= <-]. constructor.
Defined.

(** A chunk whose index field is [x] is accepted and recorded as [null]. *)
Lemma non_numeric_index_witness :
  parseInt10 "x" = JNaN
  ∧ ∃ w', uploadChunk sampleUsers sampleEnv (sampleChunkParts "k1" "x" ["A"%byte]) emptyWorld
          = (w', RChunkOk None)
          ∧ uploadStatus "u1" w' = RStatus [None].
Proof.
  split; [reflexivity |].
  apply (non_numeric_index_appends_null sampleUsers sampleEnv emptyWorld
           [PField "authKey" "k1"; PField "uploadId" "u1"; PField "index" "x";
            PField "totalChunks" "2"; PField "hash" "u1"; PField "filename" "a.jpg";
            PField "isVideo" "false"] []
           "a.jpg.part" "application/octet-stream" ["A"%byte]
           "k1" "Bob" "u1" (JInt 2) []).
  - repeat constructor.
  - constructor.
  - reflexivity.
  - done.
  - reflexivity.
  - reflexivity.
  - done.
  - reflexivity.
  - reflexivity.
  - reflexivity.
Defined.

(** The first chunk of upload [u1] creates its manifest. *)
Lemma chunk_creates_manifest_witness :
  ∃ w', uploadChunk sampleUsers sampleEnv
          (clientChunkForm "k1" "u1" "a.jpg" false 0 2 ["A"%byte]) emptyWorld
        = (w', RChunkOk (Some 0))
        ∧ manifests w' !! "u1.json"
          = Some (MJson {| m_uploadId := "u1"; m_filename := Some "a.jpg";
                           m_totalChunks := Some 2; m_isVideo := false;
                           m_received := Some [Some 0]; m_mtime := 700000 |})
        ∧ chunkFiles w' !! "u1_chunk_0" = Some ["A"%byte].
Proof.
  apply (chunk_creates_manifest sampleUsers sampleEnv "k1" "u1" "a.jpg" "Bob" false
           0 2 ["A"%byte] emptyWorld); try by_compute.
  by left.
Defined.

(** A file of three bytes in chunks of two: two chunks that join to the
    file. *)
Lemma sliceBlob_witness :
  ∃ chunks, sliceBlob 3 sampleFile 2 = Some chunks ∧ mjoin chunks = sampleFile.
Proof.
  destruct (proj1 (sliceBlob_partitions_file sampleFile 2) ltac:(repeat constructor))
    as (chunks & H1 & H2 & _).
  exists chunks. split; [apply H1; repeat constructor | exact H2].
Defined.

(** The chunks of the sample file, posted out of order and one of them
    twice, are assembled to the file. *)
Lemma chunked_upload_witness :
  ∃ cf', assembleChunksToTemp samplePlatform "u1" 2 "out"
           (chunkFiles (submitChunks sampleUsers "k1" "u1" "a.jpg" false
                          [["A"; "B"]; ["C"]]%byte sampleSteps emptyWorld)) ∅
         = (cf', <["out" := sampleFile]> ∅, inr "ABC").
Proof.
  apply (chunked_upload_reassembles_file samplePlatform sampleUsers "k1" "u1" "a.jpg"
           "Bob" false sampleFile 2 3 [["A"; "B"]; ["C"]]%byte sampleSteps emptyWorld
           "out" ∅); try by_compute.
  intros i Hi. apply (bool_decide_unpack _).
  destruct i as [|[|i]]; [reflexivity | reflexivity |]. simpl in Hi. lia.
Defined.

(** Assembling upload [u1] removes its two chunk files. *)
Lemma assemble_consumes_witness :
  (assembleChunksToTemp samplePlatform "u1" 2 "out"
     (chunkFiles completeWorld) ∅).1.1 !! "u1_chunk_0" = None
  ∧ (assembleChunksToTemp samplePlatform "u1" 2 "out"
       (chunkFiles completeWorld) ∅).1.1 !! "u1_chunk_1" = None.
Proof.
  destruct (assemble_consumes_own_chunks_only samplePlatform "u1" 2 "out"
              (chunkFiles completeWorld) ∅ sampleData
              (completeWorld_chunks completeWorld eq_refl)) as [H _].
  split; [exact (H 0%nat eq_refl) | exact (H 1%nat eq_refl)].
Defined.

(** Finalize of the complete upload: the saved name holds the bytes [AB]. *)
Lemma saved_answer_witness :
  ∃ data,
    uploads (uploadManifest samplePlatform sampleUsers sampleEnv
               (Some (FJson sampleFinalize)) completeWorld).1 !! "Bob_IMG-0000.jpg"
    = Some (NFile data (now sampleEnv))
    ∧ "AB" = sha256hex samplePlatform data.
Proof.
  assert (uploadManifest samplePlatform sampleUsers sampleEnv (Some (FJson sampleFinalize))
            completeWorld
          = ((uploadManifest samplePlatform sampleUsers sampleEnv
                (Some (FJson sampleFinalize)) completeWorld).1,
             RSaved "Bob_IMG-0000.jpg" "AB")) as H by by_compute.
  destruct (saved_answer_is_backed_by_store _ _ _ _ _ _ _ _ H)
    as (data & user & H1 & H2 & _).
  exists data. split; [exact H1 | exact H2].
Defined.

(** Alice's entry of the index survives Bob's finalize and a direct upload. *)
Lemma hash_index_permanent_witness :
  hashIndex (uploadManifest samplePlatform sampleUsers sampleEnv
               (Some (FJson sampleFinalize)) dupWorld).1 !! "AB"
  = Some "Alice_IMG-0000.jpg"
  ∧ hashIndex (upload samplePlatform sampleUsers sampleEnv (sampleDirectParts "k1")
                 dupWorld).1 !! "AB"
    = Some "Alice_IMG-0000.jpg".
Proof.
  destruct (hash_index_entries_are_permanent samplePlatform sampleUsers sampleEnv dupWorld
              "AB" "Alice_IMG-0000.jpg" eq_refl ltac:(done)) as [H1 H2].
  split; [apply H1 | apply H2].
Defined.

(** After a direct upload into the empty world the index is the one a
    restart would rebuild. *)
Lemma hash_index_rebuilt_witness :
  hashIndex (upload taggedPlatform sampleUsers sampleEnv (sampleDirectParts "k1")
               emptyWorld).1
  = loadHashIndex (uploadLog (upload taggedPlatform sampleUsers sampleEnv
                                (sampleDirectParts "k1") emptyWorld).1).
Proof.
  destruct (hash_index_is_rebuilt_from_log taggedPlatform sampleUsers sampleEnv emptyWorld)
    as [_ H].
  - by intros bs.
  - reflexivity.
  - apply H.
Defined.

(** A direct upload under an unknown key leaves no staged file. *)
Lemma rejected_direct_upload_witness :
  tmpFiles (upload samplePlatform sampleUsers sampleEnv (sampleDirectParts "nope")
              emptyWorld).1 !! "1_a_pic.jpg" = None
  ∧ uploads (upload samplePlatform sampleUsers sampleEnv (sampleDirectParts "nope")
               emptyWorld).1 = ∅.
Proof.
  assert (upload samplePlatform sampleUsers sampleEnv (sampleDirectParts "nope") emptyWorld
          = ((upload samplePlatform sampleUsers sampleEnv (sampleDirectParts "nope")
                emptyWorld).1, RError 403 "Invalid or missing authKey")) as H by by_compute.
  destruct (rejected_direct_upload_is_cleaned_up _ _ _ _ _ _ _ H) as (H1 & _ & H3 & _).
  split; [| exact H3].
  exact (H1 1%nat "file" "pic.jpg" "image/jpeg" ["A"%byte] eq_refl).
Defined.

(** The pass at time 200000000: the old stored file stays, the stale marker
    goes. *)
Lemma janitor_uploads_witness :
  jd_uploads (cleanupOnce LOCK_TTL_DEFAULT TMP_TTL_DEFAULT 200000000 sampleJanitorDirs)
    !! "Bob_IMG-0001.jpg" = Some (NFile [] 5)
  ∧ jd_uploads (cleanupOnce LOCK_TTL_DEFAULT TMP_TTL_DEFAULT 200000000 sampleJanitorDirs)
      !! "Bob_IMG-0000.lock" = None.
Proof.
  destruct (janitor_never_deletes_uploads LOCK_TTL_DEFAULT TMP_TTL_DEFAULT 200000000
              sampleJanitorDirs) as (_ & H2 & _ & _ & H5).
  split.
  - apply H2; by_compute.
  - exact (H5 "Bob" "IMG" 0%N ".jpg" 0 eq_refl eq_refl).
Defined.

(** The same pass: the old manifest goes, the leftover of the interrupted
    write stays, the chunk half as old stays. *)
Lemma janitor_reclaims_witness :
  jd_manifests (cleanupOnce LOCK_TTL_DEFAULT TMP_TTL_DEFAULT 200000000 sampleJanitorDirs)
    !! "u1.json" = None
  ∧ jd_manifests (cleanupOnce LOCK_TTL_DEFAULT TMP_TTL_DEFAULT 200000000 sampleJanitorDirs)
      !! "u1.json.tmp" = Some (NFile [] 0)
  ∧ jd_chunks (cleanupOnce LOCK_TTL_DEFAULT TMP_TTL_DEFAULT 200000000 sampleJanitorDirs)
      !! "u1_chunk_0" = Some (NFile ["A"%byte] 100000000).
Proof.
  destruct (janitor_reclaims_by_age LOCK_TTL_DEFAULT TMP_TTL_DEFAULT 200000000
              sampleJanitorDirs) as (_ & H2 & H3 & H4).
  split; [| split].
  - exact (H3 "u1" (NFile [] 0) eq_refl eq_refl).
  - exact (H4 "u1" (NFile [] 0) eq_refl).
  - apply H2. split; [reflexivity | by_compute].
Defined.

(** A pass an hour after a pass. *)
Lemma janitor_passes_witness :
  cleanupOnce LOCK_TTL_DEFAULT TMP_TTL_DEFAULT 203600000
    (cleanupOnce LOCK_TTL_DEFAULT TMP_TTL_DEFAULT 200000000 sampleJanitorDirs)
  = cleanupOnce LOCK_TTL_DEFAULT TMP_TTL_DEFAULT 203600000 sampleJanitorDirs.
Proof.
  apply (janitor_passes_compose LOCK_TTL_DEFAULT TMP_TTL_DEFAULT 200000000 203600000
           sampleJanitorDirs).
  by_compute.
Defined.

(** Bob's key, sent with blanks around it as JSON or as the field of a
    multipart body, is valid, and his chunk is not refused. *)
Lemma auth_check_witness :
  authCheck sampleUsers sampleEnv (AJson " k1 ") ≠ AuthInvalid
  ∧ authCheck sampleUsers sampleEnv (AMultipart [PField "authKey" " k1 "]) ≠ AuthInvalid
  ∧ (uploadChunk sampleUsers sampleEnv
       (clientChunkForm "k1" "u1" "a.jpg" false 0 2 ["A"%byte]) emptyWorld).2
    ≠ RError 403 "Invalid authKey".
Proof.
  pose proof (auth_check_agrees_with_chunk_receiver sampleUsers (AJson " k1 ")
                sampleEnv sampleEnv "k1" "u1" "a.jpg" false 0 2 ["A"%byte] emptyWorld
                eq_refl ltac:(done) ltac:(done) eq_refl) as H.
  pose proof (auth_check_agrees_with_chunk_receiver sampleUsers
                (AMultipart [PField "authKey" " k1 "])
                sampleEnv sampleEnv "k1" "u1" "a.jpg" false 0 2 ["A"%byte] emptyWorld
                eq_refl ltac:(done) ltac:(done) eq_refl) as H'.
  assert (authCheck sampleUsers sampleEnv (AJson " k1 ") ≠ AuthInvalid) as Hv by done.
  split; [exact Hv |]. split.
  - intros Hi. apply Hv. apply H. by apply H'.
  - intros H403. apply Hv. by apply H.
Defined.

(** The page of Bob's key receives the key. *)
Lemma page_key_witness :
  injectedKey sampleUsers " k1 " = "k1"
  ∧ ∃ v, authCheck sampleUsers sampleEnv (AJson "k1") = AuthValid v.
Proof.
  destruct (page_key_is_placeholder_or_accepted sampleUsers " k1 ")
    as [H | (H1 & _ & H3 & _)]; [discriminate H |].
  split; [exact H1 | exact (H3 sampleEnv)].
Defined.

(** One picture uploaded directly: one log entry, one saved name. *)
Lemma direct_upload_witness :
  ∃ entries,
    uploadLog (upload samplePlatform sampleUsers sampleEnv (sampleDirectParts "k1")
                 emptyWorld).1 = entries
    ∧ (fun en => (e_originalName en, e_hash en)) <$> entries = [("pic.jpg", "A")]
    ∧ ["Bob_IMG-0000.jpg"]
      = e_savedName <$> filter (fun en => e_deduped en = false) entries.
Proof.
  assert (upload samplePlatform sampleUsers sampleEnv (sampleDirectParts "k1") emptyWorld
          = ((upload samplePlatform sampleUsers sampleEnv (sampleDirectParts "k1")
                emptyWorld).1, RFiles ["Bob_IMG-0000.jpg"])) as H by by_compute.
  destruct (direct_upload_logs_every_file _ _ _ _ _ _ _ H)
    as (entries & key & user & H1 & _ & H3 & _ & _ & H6).
  exists entries. split; [exact H1 |]. split; [exact H3 | exact H6].
Defined.
